(** * voiceagent: a shallow embedding of the session orchestrator

  The development follows the TypeScript sources:
  - [JS]               the few string primitives the code relies on;
  - [VoiceAgentClient] client/src/services/voiceAgentClient.ts;
  - [GroqLLM]          src/services/groqLLM.ts;
  - [DeepgramSTT]      src/services/deepgramSTT.ts;
  - [WebRTCServer]     src/server/webrtcServer.ts;
  - [VoiceAgentServer] src/server/voiceAgentServer.ts;
  - [App]              client/src/App.tsx, the choice of a voice.

  Objects are records, a method is a function from the object to the
  updated object together with what the call did to the outside world
  (callbacks fired, frames written, timers armed).  A run of the
  event loop is a fold of the handlers over the events delivered. *)

From Stdlib Require Import Ascii String List Arith Lia.
From Stdlib.Strings Require Import Byte.
From stdpp Require Import gmap strings list.

Open Scope string_scope.
Open Scope list_scope.
Open Scope nat_scope.
Open Scope stdpp_scope.

(** ** JavaScript strings *)

Module JS.

(** Code units that [String.prototype.trim] removes (WhiteSpace and
    LineTerminator of ECMAScript) among the 8-bit code units a Rocq
    [string] holds: TAB, LF, VT, FF, CR, SP and NBSP. *)
Definition isWhiteSpace (c : ascii) : bool :=
  let n := nat_of_ascii c in
  Nat.eqb n 9 || Nat.eqb n 10 || Nat.eqb n 11 || Nat.eqb n 12
  || Nat.eqb n 13 || Nat.eqb n 32 || Nat.eqb n 160.

Fixpoint trimStart (s : string) : string :=
  match s with
  | EmptyString => EmptyString
  | String c s' => if isWhiteSpace c then trimStart s' else s
  end.

Fixpoint trimEnd (s : string) : string :=
  match s with
  | EmptyString => EmptyString
  | String c s' =>
      match trimEnd s' with
      | EmptyString => if isWhiteSpace c then EmptyString else String c EmptyString
      | t => String c t
      end
  end.

(** [s.trim()] *)
Definition trim (s : string) : string := trimEnd (trimStart s).

(** Truthiness of a string: every string but the empty one. *)
Definition truthy (s : string) : bool :=
  match s with
  | EmptyString => false
  | String _ _ => true
  end.

(** [a || b] on strings. *)
Definition or_else (a b : string) : string := if truthy a then a else b.

(** A thrown value, as far as the code looks at it: [error?.message]
    ([None] when the value has no such property) and what
    [error?.toString()] gives. *)
Record Error := mkError { message : option string; toString : string }.

(** [new Error(msg)]: [Error.prototype.toString] gives the name
    alone when the message is empty. *)
Definition new_Error (msg : string) : Error :=
  {| message := Some msg;
     toString := if truthy msg then "Error: " +:+ msg else "Error" |}.

(** [error?.message || dflt] *)
Definition message_or (e : Error) (dflt : string) : string :=
  match message e with
  | Some m => or_else m dflt
  | None => dflt
  end.

(** [error?.message] inside a template literal. *)
Definition message_text (e : Error) : string :=
  match message e with
  | Some m => m
  | None => "undefined"
  end.

End JS.

(** ** The control-channel client (peer side) *)

Module VoiceAgentClient.

(** The socket held in [this.ws]; only its presence matters here. *)
Inductive Socket := WebSocket (url : string).

Record t := mk {
  ws : option Socket;
  url : string;
  reconnectAttempts : nat;
  maxReconnectAttempts : nat;
  reconnectDelay : nat
}.

(** [new VoiceAgentClient(url)] *)
Definition new (u : string) : t :=
  {| ws := None; url := u; reconnectAttempts := 0;
     maxReconnectAttempts := 5; reconnectDelay := 1000 |}.

(** What a handler does besides updating the fields. *)
Inductive Action :=
| emit (event : string)
| setTimeout (delay : nat).     (* arms a timer whose callback is [connect] *)

Definition set_ws (w : option Socket) (c : t) : t :=
  {| ws := w; url := url c; reconnectAttempts := reconnectAttempts c;
     maxReconnectAttempts := maxReconnectAttempts c;
     reconnectDelay := reconnectDelay c |}.

Definition set_reconnectAttempts (n : nat) (c : t) : t :=
  {| ws := ws c; url := url c; reconnectAttempts := n;
     maxReconnectAttempts := maxReconnectAttempts c;
     reconnectDelay := reconnectDelay c |}.

(** [connect()], [constructed] saying whether [new WebSocket(url)]
    returns.  When it does, the new socket replaces the old one and
    the handlers below are installed on it, a failure to connect
    showing as the events [error] and [close]; when it throws, the
    catch emits [error] and [this.ws] keeps what it held. *)
Definition connect (constructed : bool) (c : t) : t * list Action :=
  if constructed then (set_ws (Some (WebSocket (url c))) c, [])
  else (c, [emit "error"]).

Definition attemptReconnect (c : t) : t * list Action :=
  if reconnectAttempts c <? maxReconnectAttempts c then
    let c' := set_reconnectAttempts (S (reconnectAttempts c)) c in
    (c', [setTimeout (reconnectDelay c' * reconnectAttempts c')])
  else (c, []).

Definition onopen (c : t) : t * list Action :=
  (set_reconnectAttempts 0 c, [emit "connected"]).

Definition onerror (c : t) : t * list Action :=
  (c, [emit "error"]).

Definition onclose (c : t) : t * list Action :=
  let '(c', acts) := attemptReconnect c in
  (c', emit "disconnected" :: acts).

(** [disconnect()]: closes the socket and forgets it. *)
Definition disconnect (c : t) : t * list Action :=
  (set_ws None c, []).

(** Events of the client's loop.  [timer] is the expiry of a timer
    armed by [attemptReconnect]; [request_connect] is a call of
    [connect()] by the application; [timer_refused] and
    [request_refused] are the same two with a [new WebSocket(url)]
    that throws. *)
Inductive Event :=
| open | close | error | timer | request_connect | timer_refused | request_refused.

Definition handle (c : t) (e : Event) : t * list Action :=
  match e with
  | open => onopen c
  | close => onclose c
  | error => onerror c
  | timer => connect true c
  | request_connect => connect true c
  | timer_refused => connect false c
  | request_refused => connect false c
  end.

Fixpoint run (c : t) (es : list Event) : t * list Action :=
  match es with
  | [] => (c, [])
  | e :: es' =>
      let '(c1, a1) := handle c e in
      let '(c2, a2) := run c1 es' in
      (c2, a1 ++ a2)
  end.

(** The delays of the timers armed, in order. *)
Fixpoint delays (acts : list Action) : list nat :=
  match acts with
  | [] => []
  | setTimeout d :: r => d :: delays r
  | emit _ :: r => delays r
  end.

(** A reconnect attempt that fails: the timer fires, [connect] builds
    a socket, the socket never opens and closes. *)
Definition failed_attempt : list Event := [timer; error; close].

(** The connection is lost, then [k] reconnect attempts in a row fail. *)
Fixpoint failures (k : nat) : list Event :=
  match k with
  | 0 => []
  | S k' => failed_attempt ++ failures k'
  end.

Definition lost_then_failures (k : nat) : list Event := close :: failures k.

(** The number of sockets that opened during a run. *)
Definition opens (es : list Event) : nat :=
  length (List.filter (fun e => match e with open => true | _ => false end) es).

(** *** Messages *)

(** The types [handleMessage] hands to the listeners as they are. *)
Definition passed_on : list string :=
  ["session_ready"; "conversation_started"; "conversation_stopped"; "stt_transcript";
   "llm_token"; "llm_complete"; "tts_text"; "interrupted"; "webrtc_answer";
   "webrtc_ice_candidate"].

(** What the listeners get: the event and, for [error], its text. *)
Record Delivery := mkDelivery { event : string; text : option string }.

(** [handleMessage(message)], given [message.type] and
    [message.error] ([None] when the field is missing). *)
Definition handleMessage (type : string) (error : option string) : option Delivery :=
  if existsb (String.eqb type) passed_on then Some {| event := type; text := None |}
  else if String.eqb type "error"
       then Some {| event := "error";
                    text := Some (JS.or_else (default "" error) "Unknown error") |}
       else None.

(** The messages written by the methods of the client: their [type]
    and their [data] field. *)
Record Wire := mkWire { type : string; data : option string }.

Definition startConversation : Wire := {| type := "start_conversation"; data := None |}.
Definition stopConversation : Wire := {| type := "stop_conversation"; data := None |}.
Definition sendAudioChunk (audioData : string) : Wire :=
  {| type := "audio_chunk"; data := Some audioData |}.
Definition interrupt : Wire := {| type := "interrupt"; data := None |}.

End VoiceAgentClient.

(** ** The response pipeline *)

Module GroqLLM.

Inductive Role := system | user | assistant.

Record Message := mkMessage { role : Role; content : string }.

Definition is_user (m : Message) : bool :=
  match role m with user => true | _ => false end.

(** The object returned by [groq.chat.completions.create]: the code
    only stores it and iterates over it, so a handle is enough. *)
Abbreviation Stream := nat.

(** The fields of a [GroqLLM] object.  [onToken_set] and
    [onComplete_set] say whether the optional callbacks are
    installed. *)
Record t := mk {
  currentStream : option Stream;
  fullResponse : string;
  onToken_set : bool;
  onComplete_set : bool
}.

(** What a call does to the outside: the request to the collaborator
    and the callbacks fired. *)
Inductive Out :=
| create (messages : list Message)
| onToken (token : string)
| onComplete (fullResponse : string).

Definition set_currentStream (s : option Stream) (o : t) : t :=
  {| currentStream := s; fullResponse := fullResponse o;
     onToken_set := onToken_set o; onComplete_set := onComplete_set o |}.

Definition set_fullResponse (r : string) (o : t) : t :=
  {| currentStream := currentStream o; fullResponse := r;
     onToken_set := onToken_set o; onComplete_set := onComplete_set o |}.

(** [new GroqLLM()], given [process.env.GROQ_API_KEY || '']. *)
Definition new (apiKey : string) : JS.Error + t :=
  if JS.truthy apiKey then
    inr {| currentStream := None; fullResponse := "";
           onToken_set := false; onComplete_set := false |}
  else inl (JS.new_Error "GROQ_API_KEY is not set").

Definition stop (o : t) : t :=
  match currentStream o with
  | Some _ => set_fullResponse "" (set_currentStream None o)
  | None => o
  end.

(** The part of [streamCompletion] before the request: the previous
    stream is stopped and the buffer emptied. *)
Definition enter (o : t) : t := set_fullResponse "" (stop o).

(** One turn of the [for await] loop on a chunk whose
    [choices[0]?.delta?.content || ''] is [content]. *)
Definition on_chunk (content : string) (o : t) : t * list Out :=
  if JS.truthy content then
    (set_fullResponse (fullResponse o +:+ content) o,
     if onToken_set o then [onToken content] else [])
  else (o, []).

(** After the loop. *)
Definition on_end (o : t) : t * list Out :=
  (set_currentStream None o,
   if onComplete_set o && JS.truthy (JS.trim (fullResponse o))
   then [onComplete (fullResponse o)] else []).

(** The [catch] block: whatever was thrown is wrapped. *)
Definition wrap (e : JS.Error) : JS.Error :=
  let errorMessage :=
    JS.message_or e (JS.or_else (JS.toString e) "Unknown error") in
  JS.new_Error ("Groq LLM error: " +:+ errorMessage).

Fixpoint for_await (chunks : list string) (o : t) : t * list Out :=
  match chunks with
  | [] => (o, [])
  | c :: rest =>
      let '(o1, a1) := on_chunk c o in
      let '(o2, a2) := for_await rest o1 in
      (o2, a1 ++ a2)
  end.

(** What the collaborator answers to one request: [create] rejects,
    or it resolves with a stream that yields chunks and then ends or
    throws. *)
Inductive Reply :=
| reply_rejected (e : JS.Error)
| reply_stream (s : Stream) (chunks : list string) (thrown : option JS.Error).

(** [streamCompletion(conversationHistory)] when nothing else runs
    between its awaits.  The third component is the error the
    returned promise rejects with, if any. *)
Definition streamCompletion (conversationHistory : list Message) (reply : Reply)
    (o : t) : t * list Out * option JS.Error :=
  let o := enter o in
  match conversationHistory with
  | [] => (o, [], None)
  | _ :: _ =>
      let messages := conversationHistory in
      match reply with
      | reply_rejected e => (o, [create messages], Some (wrap e))
      | reply_stream s chunks thrown =>
          let o := set_currentStream (Some s) o in
          let '(o, tokens) := for_await chunks o in
          match thrown with
          | Some e => (o, create messages :: tokens, Some (wrap e))
          | None =>
              let '(o, completes) := on_end o in
              (o, create messages :: tokens ++ completes, None)
          end
      end
  end.

(** *** The same method, one await at a time

    A call of [streamCompletion] is suspended at [await create(..)]
    and at every turn of [for await]; other handlers run in between.
    [World] adds to the object the calls that are suspended: request
    [n] is the [n]-th call of [create], and stream [n] its result. *)
Record World := mkWorld {
  this : t;
  awaiting : list nat;     (* calls suspended at [await create] *)
  reading : list Stream;   (* calls suspended inside [for await] *)
  issued : nat             (* requests made so far *)
}.

Definition boot (o : t) : World :=
  {| this := o; awaiting := []; reading := []; issued := 0 |}.

Definition mem (n : nat) (l : list nat) : bool := existsb (Nat.eqb n) l.

Definition drop (n : nat) (l : list nat) : list nat :=
  List.filter (fun m => negb (Nat.eqb n m)) l.

Inductive Event :=
| call_streamCompletion (conversationHistory : list Message)
| call_stop
| create_resolves (n : nat)
| create_rejects (n : nat) (e : JS.Error)
| chunk (n : Stream) (content : string)
| stream_ends (n : Stream)
| stream_throws (n : Stream) (e : JS.Error).

(** What a step shows: the outputs of the object, and the rejection
    of the promise of a call. *)
Inductive Seen :=
| out (a : Out)
| throws (n : nat) (e : JS.Error).

Definition with_this (o : t) (w : World) : World :=
  {| this := o; awaiting := awaiting w; reading := reading w; issued := issued w |}.

Definition step (w : World) (e : Event) : World * list Seen :=
  match e with
  | call_streamCompletion history =>
      let o := enter (this w) in
      match history with
      | [] => (with_this o w, [])
      | _ :: _ =>
          ({| this := o; awaiting := awaiting w ++ [issued w];
              reading := reading w; issued := S (issued w) |},
           [out (create history)])
      end
  | call_stop => (with_this (stop (this w)) w, [])
  | create_resolves n =>
      if mem n (awaiting w) then
        ({| this := set_currentStream (Some n) (this w);
            awaiting := drop n (awaiting w);
            reading := reading w ++ [n]; issued := issued w |}, [])
      else (w, [])
  | create_rejects n e =>
      if mem n (awaiting w) then
        ({| this := this w; awaiting := drop n (awaiting w);
            reading := reading w; issued := issued w |}, [throws n (wrap e)])
      else (w, [])
  | chunk n content =>
      if mem n (reading w) then
        let '(o, a) := on_chunk content (this w) in
        (with_this o w, map out a)
      else (w, [])
  | stream_ends n =>
      if mem n (reading w) then
        let '(o, a) := on_end (this w) in
        ({| this := o; awaiting := awaiting w;
            reading := drop n (reading w); issued := issued w |}, map out a)
      else (w, [])
  | stream_throws n e =>
      if mem n (reading w) then
        ({| this := this w; awaiting := awaiting w;
            reading := drop n (reading w); issued := issued w |}, [throws n (wrap e)])
      else (w, [])
  end.

Fixpoint run (w : World) (es : list Event) : World * list Seen :=
  match es with
  | [] => (w, [])
  | e :: es' =>
      let '(w1, a1) := step w e in
      let '(w2, a2) := run w1 es' in
      (w2, a1 ++ a2)
  end.

(** The completions in flight: requested and neither finished nor failed. *)
Definition in_flight (w : World) : list nat := awaiting w ++ reading w.

(** The tokens forwarded through [onToken], in order. *)
Fixpoint tokens (l : list Seen) : list string :=
  match l with
  | [] => []
  | out (onToken tok) :: r => tok :: tokens r
  | _ :: r => tokens r
  end.

(** An output that leaves the coordinator's history alone: the
    request and [onToken]. *)
Definition no_callback_to_history (a : Out) : Prop :=
  match a with onComplete _ => False | _ => True end.

(** The events the collaborator's [reply] to request [n] amounts to. *)
Definition events_of (n : nat) (reply : Reply) : list Event :=
  match reply with
  | reply_rejected e => [create_rejects n e]
  | reply_stream _ chunks thrown =>
      create_resolves n :: map (chunk n) chunks
      ++ [match thrown with Some e => stream_throws n e | None => stream_ends n end]
  end.

(** The chunks that carry text: those whose [content] is not empty. *)
Definition spoken (chunks : list string) : list string := List.filter JS.truthy chunks.

(** What [+=] makes of a buffer and the contents appended to it. *)
Definition appended (buffer : string) (contents : list string) : string :=
  fold_left String.append contents buffer.

(** The text [error?.message || error?.toString() || 'Unknown error']. *)
Definition errorMessage (e : JS.Error) : string :=
  JS.message_or e (JS.or_else (JS.toString e) "Unknown error").

End GroqLLM.

(** ** The recognition bridge *)

Module DeepgramSTT.

Definition Buffer := list byte.

(** [sendAudio] takes [string | Buffer]. *)
Inductive AudioData :=
| base64 (s : string)
| raw (b : Buffer).

(** The live connection of the Deepgram SDK, as far as its calls can
    fail. *)
Record Connection := mkConnection { send_throws : bool; finish_throws : bool }.

Record t := mk {
  apiKey : string;
  connection : option Connection;
  isConnectionReady : bool;
  audioQueue : list Buffer;
  audioChunkCount : nat;
  onTranscript_set : bool;
  error_listeners : nat      (* listeners of the emitter's 'error' event *)
}.

Inductive Out :=
| send (b : Buffer)                                  (* connection.send(b) returned *)
| finish                                             (* connection.finish() returned *)
| onTranscript (transcript : string) (isFinal : bool)
| emit_error (e : JS.Error).

Definition set_connection (c : option Connection) (o : t) : t :=
  {| apiKey := apiKey o; connection := c; isConnectionReady := isConnectionReady o;
     audioQueue := audioQueue o; audioChunkCount := audioChunkCount o;
     onTranscript_set := onTranscript_set o; error_listeners := error_listeners o |}.

Definition set_isConnectionReady (b : bool) (o : t) : t :=
  {| apiKey := apiKey o; connection := connection o; isConnectionReady := b;
     audioQueue := audioQueue o; audioChunkCount := audioChunkCount o;
     onTranscript_set := onTranscript_set o; error_listeners := error_listeners o |}.

Definition set_audioQueue (q : list Buffer) (o : t) : t :=
  {| apiKey := apiKey o; connection := connection o;
     isConnectionReady := isConnectionReady o;
     audioQueue := q; audioChunkCount := audioChunkCount o;
     onTranscript_set := onTranscript_set o; error_listeners := error_listeners o |}.

Definition set_audioChunkCount (n : nat) (o : t) : t :=
  {| apiKey := apiKey o; connection := connection o;
     isConnectionReady := isConnectionReady o;
     audioQueue := audioQueue o; audioChunkCount := n;
     onTranscript_set := onTranscript_set o; error_listeners := error_listeners o |}.

Definition set_onTranscript (o : t) : t :=
  {| apiKey := apiKey o; connection := connection o;
     isConnectionReady := isConnectionReady o;
     audioQueue := audioQueue o; audioChunkCount := audioChunkCount o;
     onTranscript_set := true; error_listeners := error_listeners o |}.

(** [new DeepgramSTT()], given [process.env.DEEPGRAM_API_KEY || '']. *)
Definition new (key : string) : JS.Error + t :=
  if JS.truthy key then
    inr {| apiKey := key; connection := None; isConnectionReady := false;
           audioQueue := []; audioChunkCount := 0;
           onTranscript_set := false; error_listeners := 0 |}
  else inl (JS.new_Error "DEEPGRAM_API_KEY is not set").

(** The payload of a Transcript event, as far as the handler reads
    it: [data.channel?.alternatives?.[0]?.transcript] and
    [data.is_final], [None] when missing. *)
Record TranscriptData := mkData {
  alt_transcript : option string;
  is_final : option bool
}.

(** The Transcript handler installed by [start]. *)
Definition on_Transcript (data : TranscriptData) (o : t) : list Out :=
  let transcript := JS.or_else (default "" (alt_transcript data)) "" in
  let isFinal := default false (is_final data) in
  if JS.truthy transcript && JS.truthy (JS.trim transcript) && onTranscript_set o
  then [onTranscript transcript isFinal]
  else [].

(** The [while] loop of the Open handler.  A [send] that throws
    leaves the handler; the chunk it was given is already shifted.
    The boolean says whether the loop ended normally. *)
Fixpoint flush (c : option Connection) (q : list Buffer) : list Buffer * list Out * bool :=
  match q with
  | [] => ([], [], true)
  | b :: rest =>
      match c with
      | Some k =>
          if send_throws k then (rest, [], false)
          else let '(q', a, ok) := flush c rest in (q', send b :: a, ok)
      | None => (rest, [], false)
      end
  end.

(** The Open handler; the boolean says whether [resolve()] is reached. *)
Definition on_Open (o : t) : t * list Out * bool :=
  let o := set_isConnectionReady true o in
  let '(q, a, ok) := flush (connection o) (audioQueue o) in
  (set_audioQueue q o, a, ok).

(** The Error handler; the boolean says whether [reject(error)] is
    reached: [emit('error', ..)] throws when nothing listens. *)
Definition on_Error (e : JS.Error) (o : t) : t * list Out * bool :=
  (set_isConnectionReady false o, [emit_error e], negb (Nat.eqb (error_listeners o) 0)).

Definition on_Close (o : t) : t := set_isConnectionReady false o.

(** What [this.deepgram.listen.live(..)] and the connection it
    returns do while [start()] is awaited. *)
Inductive Live :=
| live_throws (e : JS.Error)
| live_opens (c : Connection)
| live_errors (c : Connection) (e : JS.Error)
| live_silent (c : Connection).

Inductive Settled := resolved | rejected (e : JS.Error) | pending.

Definition start (live : Live) (o : t) : t * list Out * Settled :=
  match live with
  | live_throws e => (o, [], rejected e)
  | live_opens c =>
      let '(o, a, ok) := on_Open (set_connection (Some c) o) in
      (o, a, if ok then resolved else pending)
  | live_errors c e =>
      let '(o, a, ok) := on_Error e (set_connection (Some c) o) in
      (o, a, if ok then rejected e else pending)
  | live_silent c => (set_connection (Some c) o, [], pending)
  end.

(** [sendAudio(audioData)]; [from_base64] is [Buffer.from(_, 'base64')]. *)
Definition sendAudio (from_base64 : string -> Buffer) (audioData : AudioData)
    (o : t) : t * list Out :=
  let buffer :=
    match audioData with
    | base64 s => from_base64 s
    | raw b => b
    end in
  if Nat.eqb (length buffer) 0 then (o, [])
  else
    match isConnectionReady o, connection o with
    | true, Some c =>
        if send_throws c then (o, [])
        else (set_audioChunkCount (S (audioChunkCount o)) o, [send buffer])
    | _, _ =>
        let q := audioQueue o ++ [buffer] in
        (set_audioQueue (if 100 <? length q then tail q else q) o, [])
    end.

Definition stop (o : t) : t * list Out :=
  match connection o with
  | Some c =>
      (set_connection None o, if finish_throws c then [] else [finish])
  | None => (o, [])
  end.

(** *** Runs of the bridge

    The calls and events that reach one bridge object, in the order
    they are handled. *)

(** The buffer [sendAudio] works on. *)
Definition decode (from_base64 : string -> Buffer) (audioData : AudioData) : Buffer :=
  match audioData with
  | base64 s => from_base64 s
  | raw b => b
  end.

Definition nonempty (b : Buffer) : bool := negb (Nat.eqb (length b) 0).

(** The frames of a sequence of submissions that [sendAudio] does not
    drop at once. *)
Definition frames (from_base64 : string -> Buffer) (datas : list AudioData) : list Buffer :=
  List.filter nonempty (map (decode from_base64) datas).

(** The cap on [audioQueue]. *)
Definition capacity : nat := 100.

(** The last [n] elements of a list. *)
Definition newest {A} (n : nat) (l : list A) : list A := skipn (length l - n) l.

(** Calls of [sendAudio] in a row. *)
Fixpoint feed (from_base64 : string -> Buffer) (datas : list AudioData) (o : t)
    : t * list Out :=
  match datas with
  | [] => (o, [])
  | a :: rest =>
      let '(o1, l1) := sendAudio from_base64 a o in
      let '(o2, l2) := feed from_base64 rest o1 in
      (o2, l1 ++ l2)
  end.

Inductive Op :=
| call_sendAudio (audioData : AudioData)
| call_stop
| event_Open
| event_Error (e : JS.Error)
| event_Close
| event_Transcript (data : TranscriptData).

Definition step (from_base64 : string -> Buffer) (o : t) (op : Op) : t * list Out :=
  match op with
  | call_sendAudio a => sendAudio from_base64 a o
  | call_stop => stop o
  | event_Open => let '(o', l, _) := on_Open o in (o', l)
  | event_Error e => let '(o', l, _) := on_Error e o in (o', l)
  | event_Close => (on_Close o, [])
  | event_Transcript data => (o, on_Transcript data o)
  end.

Fixpoint run (from_base64 : string -> Buffer) (o : t) (ops : list Op) : t * list Out :=
  match ops with
  | [] => (o, [])
  | op :: rest =>
      let '(o1, l1) := step from_base64 o op in
      let '(o2, l2) := run from_base64 o1 rest in
      (o2, l1 ++ l2)
  end.

(** The buffers handed to the engine, in order. *)
Fixpoint sent_buffers (l : list Out) : list Buffer :=
  match l with
  | [] => []
  | send b :: r => b :: sent_buffers r
  | _ :: r => sent_buffers r
  end.

(** The invariant of the queue. *)
Definition queue_ok (o : t) : Prop :=
  length (audioQueue o) <= capacity /\ Forall (fun b => nonempty b = true) (audioQueue o).

End DeepgramSTT.

(** ** The transport negotiator *)

Module WebRTCServer.

(** An offer or an answer: [{ type, sdp }]. *)
Record Description := mkDescription { type : string; sdp : string }.

(** [pc.connectionState] and [pc.iceConnectionState]. *)
Inductive State := new_ | connecting | connected | disconnected | failed | closed.

(** A werift peer connection, as far as its methods can fail:
    [None] and [inr] stand for a call that returns. *)
Record RTCPeerConnection := mkPC {
  setRemoteDescription : Description -> option JS.Error;
  createAnswer : Description -> JS.Error + Description;   (* given the remote description *)
  setLocalDescription : Description -> option JS.Error;
  addIceCandidate : string -> option JS.Error;
  close : option JS.Error
}.

Record WebRTCSession := mkSession {
  peerConnection : RTCPeerConnection;
  audioDataChannel : bool          (* whether the field holds a channel *)
}.

(** The object is its registry [sessions]. *)
Record t := mk { sessions : gmap string WebRTCSession }.

Definition new : t := {| sessions := ∅ |}.

(** Calls that reached the peer connection and returned. *)
Inductive Out :=
| remote_set (sessionId : string) (d : Description)
| answer_created (sessionId : string) (d : Description)
| local_set (sessionId : string) (d : Description)
| candidate_added (sessionId : string) (c : string)
| pc_closed (sessionId : string).

(** [createPeerConnection(sessionId)]; [factory] is what
    [new RTCPeerConnection(..)] gives. *)
Definition createPeerConnection (factory : JS.Error + RTCPeerConnection)
    (sessionId : string) (o : t) : t * (JS.Error + RTCPeerConnection) :=
  match factory with
  | inl e => (o, inl e)
  | inr pc =>
      let session := {| peerConnection := pc; audioDataChannel := false |} in
      ({| sessions := <[sessionId := session]> (sessions o) |}, inr pc)
  end.

Definition TypeError_type : JS.Error :=
  {| JS.message := Some "Cannot read properties of undefined (reading 'type')";
     JS.toString := "TypeError: Cannot read properties of undefined (reading 'type')" |}.

(** [handleOffer(sessionId, offer)]; [offer] is [None] for a message
    without the field. *)
Definition handleOffer (factory : JS.Error + RTCPeerConnection) (sessionId : string)
    (offer : option Description) (o : t) : t * list Out * (JS.Error + Description) :=
  match offer with
  | None => (o, [], inl TypeError_type)
  | Some offer =>
      let '(o, got) :=
        match sessions o !! sessionId with
        | Some existingSession => (o, inr (peerConnection existingSession))
        | None => createPeerConnection factory sessionId o
        end in
      match got with
      | inl e => (o, [], inl e)
      | inr pc =>
          match setRemoteDescription pc offer with
          | Some e => (o, [], inl e)
          | None =>
              match createAnswer pc offer with
              | inl e => (o, [remote_set sessionId offer], inl e)
              | inr answer =>
                  match setLocalDescription pc answer with
                  | Some e =>
                      (o, [remote_set sessionId offer; answer_created sessionId answer], inl e)
                  | None =>
                      (o, [remote_set sessionId offer; answer_created sessionId answer;
                           local_set sessionId answer],
                       inr {| type := type answer; sdp := sdp answer |})
                  end
              end
          end
      end
  end.

(** [handleIceCandidate(sessionId, candidate)]; [candidate] is
    [candidate.candidate], [None] when the object or the field is
    missing. *)
Definition handleIceCandidate (sessionId : string) (candidate : option string)
    (o : t) : list Out :=
  match sessions o !! sessionId with
  | None => []
  | Some session =>
      match candidate with
      | Some c =>
          if JS.truthy c then
            match addIceCandidate (peerConnection session) c with
            | None => [candidate_added sessionId c]
            | Some _ => []
            end
          else []
      | None => []
      end
  end.

Definition isConnected (state_of : string -> State) (sessionId : string) (o : t) : bool :=
  match sessions o !! sessionId with
  | None => false
  | Some _ => match state_of sessionId with connected => true | _ => false end
  end.

(** [cleanup(sessionId)]: a [close()] that throws leaves the entry
    in the registry. *)
Definition cleanup (sessionId : string) (o : t) : t * list Out * option JS.Error :=
  match sessions o !! sessionId with
  | Some session =>
      match close (peerConnection session) with
      | Some e => (o, [], Some e)
      | None => ({| sessions := delete sessionId (sessions o) |}, [pc_closed sessionId], None)
      end
  | None => (o, [], None)
  end.

Definition getAllSessions (o : t) : list string := elements (dom (sessions o)).

(** The peer connection [handleOffer] works on. *)
Definition peer_for (factory : JS.Error + RTCPeerConnection) (sessionId : string)
    (o : t) : option RTCPeerConnection :=
  match sessions o !! sessionId with
  | Some existingSession => Some (peerConnection existingSession)
  | None => match factory with inr pc => Some pc | inl _ => None end
  end.

(** *** The subscriptions made by [createPeerConnection] *)

Inductive ChannelData :=
| of_Buffer (b : DeepgramSTT.Buffer)
| of_ArrayBuffer (b : DeepgramSTT.Buffer)
| of_string (s : string).

(** What the peer connection of a session reports. *)
Inductive PcEvent :=
| onTrack
| onDataChannel (label : string)
| channel_message (label : string) (data : ChannelData)
| channel_stateChanged (label : string) (state : string)
| onIceCandidate (candidate : option string)
| connectionStateChange_to (state : State)
| iceConnectionStateChange_to (state : State).

(** What the server object emits to its listeners. *)
Inductive Emitted :=
| audioTrack
| audioData (audioData : DeepgramSTT.Buffer)
| dataChannelOpen
| dataChannelClose
| iceCandidate (candidate : string)
| connectionStateChange (state : State)
| iceConnectionFailed.

Definition set_audioDataChannel (b : bool) (sessionId : string) (o : t) : t :=
  {| sessions := alter (fun s => {| peerConnection := peerConnection s;
                                    audioDataChannel := b |}) sessionId (sessions o) |}.

Definition on_pc_event (from_base64 : string -> DeepgramSTT.Buffer)
    (sessionId : string) (ev : PcEvent) (o : t) : t * list Emitted :=
  match ev with
  | onTrack => (o, [audioTrack])
  | onDataChannel label =>
      if String.eqb label "audio" then (set_audioDataChannel true sessionId o, [])
      else (o, [])
  | channel_message label data =>
      if String.eqb label "audio" then
        let audio :=
          match data with
          | of_Buffer b => b
          | of_ArrayBuffer b => b
          | of_string s => from_base64 s
          end in
        (o, [audioData audio])
      else (o, [])
  | channel_stateChanged label state =>
      if String.eqb label "audio" then
        if String.eqb state "open" then (o, [dataChannelOpen])
        else if String.eqb state "closed" then
          (set_audioDataChannel false sessionId o, [dataChannelClose])
        else (o, [])
      else (o, [])
  | onIceCandidate candidate =>
      match candidate with
      | Some c => (o, [iceCandidate c])
      | None => (o, [])
      end
  | connectionStateChange_to state =>
      match state with
      | failed | closed | disconnected => (o, [connectionStateChange state])
      | connected => (o, [connectionStateChange connected])
      | _ => (o, [])
      end
  | iceConnectionStateChange_to state =>
      match state with
      | failed => (o, [iceConnectionFailed])
      | _ => (o, [])
      end
  end.

(** Reports after which the transport is usable, and reports of its
    loss. *)
Definition announces_ready (ev : PcEvent) : bool :=
  match ev with
  | channel_stateChanged label state => String.eqb label "audio" && String.eqb state "open"
  | connectionStateChange_to connected => true
  | _ => false
  end.

Definition announces_loss (ev : PcEvent) : bool :=
  match ev with
  | channel_stateChanged label state => String.eqb label "audio" && String.eqb state "closed"
  | connectionStateChange_to (failed | closed | disconnected) => true
  | iceConnectionStateChange_to failed => true
  | _ => false
  end.

(** What a listener of the object learns about the transport. *)
Definition emitted_flag (x : Emitted) : option bool :=
  match x with
  | connectionStateChange connected | dataChannelOpen => Some true
  | connectionStateChange _ | iceConnectionFailed | dataChannelClose => Some false
  | _ => None
  end.

(** The buffer made of what arrives on the audio channel. *)
Definition payload (from_base64 : string -> DeepgramSTT.Buffer) (data : ChannelData)
    : DeepgramSTT.Buffer :=
  match data with
  | of_Buffer b => b
  | of_ArrayBuffer b => b
  | of_string s => from_base64 s
  end.

(** What werift's [setRemoteDescription] does with a description
    whose [sdp] is empty: it refuses it ([invalid
    sessionDescription]), whatever the rest. *)
Definition validates_sdp (pc : RTCPeerConnection) : Prop :=
  forall d : Description, JS.truthy (sdp d) = false -> setRemoteDescription pc d <> None.

(** The session a call on a peer connection belongs to. *)
Definition session_of_out (a : Out) : string :=
  match a with
  | remote_set k _ | answer_created k _ | local_set k _ | candidate_added k _
  | pc_closed k => k
  end.

End WebRTCServer.

(** ** The session coordinator *)

Module VoiceAgentServer.

Export GroqLLM (Role, Message, mkMessage, role, content, system, user, assistant).

(** Control messages written to the peer. *)
Inductive ServerMessage :=
| session_ready (sessionId : string)
| conversation_started
| conversation_stopped
| stt_transcript (transcript : string) (isFinal : bool)
| llm_token (token : string)
| llm_complete (response : string)
| tts_text (text : string)
| interrupted
| webrtc_answer (answer : WebRTCServer.Description)
| webrtc_ice_candidate (candidate : string)
| error (error : string).

(** Control messages read from the peer, by their [type]. *)
Inductive ClientMessage :=
| start_conversation
| stop_conversation
| audio_chunk (data : string)
| webrtc_offer (offer : option WebRTCServer.Description)
| webrtc_ice_candidate_in (candidate : option string)
| interrupt
| other (type : string).

Record WebSocket := mkWs { readyState : nat }.
Definition OPEN : nat := 1.
Definition CLOSED : nat := 3.

Record ClientSession := mkSession {
  ws : WebSocket;
  sessionId : string;
  deepgramSTT : option DeepgramSTT.t;
  groqLLM : option GroqLLM.t;
  isActive : bool;
  conversationHistory : list Message;
  useWebRTC : option bool
}.

Definition set_ws (w : WebSocket) (s : ClientSession) : ClientSession :=
  {| ws := w; sessionId := sessionId s; deepgramSTT := deepgramSTT s;
     groqLLM := groqLLM s; isActive := isActive s;
     conversationHistory := conversationHistory s; useWebRTC := useWebRTC s |}.

Definition set_deepgramSTT (d : option DeepgramSTT.t) (s : ClientSession) : ClientSession :=
  {| ws := ws s; sessionId := sessionId s; deepgramSTT := d;
     groqLLM := groqLLM s; isActive := isActive s;
     conversationHistory := conversationHistory s; useWebRTC := useWebRTC s |}.

Definition set_groqLLM (g : option GroqLLM.t) (s : ClientSession) : ClientSession :=
  {| ws := ws s; sessionId := sessionId s; deepgramSTT := deepgramSTT s;
     groqLLM := g; isActive := isActive s;
     conversationHistory := conversationHistory s; useWebRTC := useWebRTC s |}.

Definition set_isActive (b : bool) (s : ClientSession) : ClientSession :=
  {| ws := ws s; sessionId := sessionId s; deepgramSTT := deepgramSTT s;
     groqLLM := groqLLM s; isActive := b;
     conversationHistory := conversationHistory s; useWebRTC := useWebRTC s |}.

Definition set_conversationHistory (h : list Message) (s : ClientSession) : ClientSession :=
  {| ws := ws s; sessionId := sessionId s; deepgramSTT := deepgramSTT s;
     groqLLM := groqLLM s; isActive := isActive s;
     conversationHistory := h; useWebRTC := useWebRTC s |}.

Definition set_useWebRTC (u : option bool) (s : ClientSession) : ClientSession :=
  {| ws := ws s; sessionId := sessionId s; deepgramSTT := deepgramSTT s;
     groqLLM := groqLLM s; isActive := isActive s;
     conversationHistory := conversationHistory s; useWebRTC := u |}.

(** The server.  A session object is shared by the registry
    [this.sessions] and by the handlers of its socket, which keep it
    after the registry entry is deleted: [heap] holds the objects by
    session id, [sessions] the keys of the registry. *)
Record t := mk {
  heap : gmap string ClientSession;
  sessions : gset string;
  webrtcServer : WebRTCServer.t
}.

(** [new VoiceAgentServer(wss)] *)
Definition new : t :=
  {| heap := ∅; sessions := ∅; webrtcServer := WebRTCServer.new |}.

(** The collaborators, fixed for a run. *)
Record Env := mkEnv {
  DEEPGRAM_API_KEY : string;
  GROQ_API_KEY : string;
  Buffer_from_base64 : string -> DeepgramSTT.Buffer;
  listen_live : DeepgramSTT.Live;
  chat_completions_create : list Message -> GroqLLM.Reply;
  new_RTCPeerConnection : JS.Error + WebRTCServer.RTCPeerConnection
}.

(** Methods of the components entered by the coordinator. *)
Inductive Call :=
| deepgramSTT_start
| deepgramSTT_sendAudio (audioData : DeepgramSTT.AudioData)
| deepgramSTT_stop
| groqLLM_streamCompletion (conversationHistory : list Message)
| groqLLM_stop
| webrtcServer_handleOffer (offer : option WebRTCServer.Description)
| webrtcServer_handleIceCandidate (candidate : option string)
| webrtcServer_cleanup.

(** The trace of a handler. *)
Inductive Effect :=
| call (sessionId : string) (c : Call)
| ws_send (sessionId : string) (m : ServerMessage)
| stt (sessionId : string) (a : DeepgramSTT.Out)
| llm (sessionId : string) (a : GroqLLM.Out)
| rtc (a : WebRTCServer.Out).

(** *** Handlers as state transformers

    A handler changes the server, leaves a trace and returns, throws
    or never resumes (a promise that stays pending). *)
Inductive Outcome (A : Type) :=
| returned (a : A)
| thrown (e : JS.Error)
| suspended.
Arguments returned {A} a.
Arguments thrown {A} e.
Arguments suspended {A}.

Definition M (A : Type) : Type := t -> t * list Effect * Outcome A.

Definition ret {A} (a : A) : M A := fun σ => (σ, [], returned a).

Definition bind {A B} (m : M A) (k : A -> M B) : M B := fun σ =>
  let '(σ1, l1, r1) := m σ in
  match r1 with
  | returned a => let '(σ2, l2, r2) := k a σ1 in (σ2, l1 ++ l2, r2)
  | thrown e => (σ1, l1, thrown e)
  | suspended => (σ1, l1, suspended)
  end.

Definition throw {A} (e : JS.Error) : M A := fun σ => (σ, [], thrown e).

Definition suspend {A} : M A := fun σ => (σ, [], suspended).

(** [try { m } catch (error) { h error }] *)
Definition try_catch {A} (m : M A) (h : JS.Error -> M A) : M A := fun σ =>
  let '(σ1, l1, r1) := m σ in
  match r1 with
  | thrown e => let '(σ2, l2, r2) := h e σ1 in (σ2, l1 ++ l2, r2)
  | _ => (σ1, l1, r1)
  end.

(** A promise nobody awaits: the caller goes on whatever becomes of it. *)
Definition detached (m : M unit) : M unit := fun σ =>
  let '(σ1, l1, _) := m σ in (σ1, l1, returned tt).

Definition tell (l : list Effect) : M unit := fun σ => (σ, l, returned tt).

Definition modify (f : t -> t) : M unit := fun σ => (f σ, [], returned tt).

Notation "m >>= k" := (bind m k) (at level 58, left associativity).
Notation "m >> k" := (bind m (fun _ => k)) (at level 58, left associativity).

(** The code at a reference to a session object. *)
Definition with_session {A} (dflt : A) (sid : string) (k : ClientSession -> M A) : M A :=
  fun σ => match heap σ !! sid with
           | Some session => k session σ
           | None => (σ, [], returned dflt)
           end.

(** [session.field = ..] *)
Definition update (sid : string) (f : ClientSession -> ClientSession) : M unit :=
  modify (fun σ => {| heap := alter f sid (heap σ); sessions := sessions σ;
                      webrtcServer := webrtcServer σ |}).

Definition set_webrtcServer (w : WebRTCServer.t) : M unit :=
  modify (fun σ => {| heap := heap σ; sessions := sessions σ; webrtcServer := w |}).

Definition when (b : bool) (m : M unit) : M unit := if b then m else ret tt.

(** [u === true] and [u === false] on a field that may be undefined. *)
Definition strictly_true (u : option bool) : bool :=
  match u with Some true => true | _ => false end.

Definition strictly_false (u : option bool) : bool :=
  match u with Some false => true | _ => false end.

(** Truthiness of a field that holds an object or is undefined. *)
Definition present {A} (x : option A) : bool :=
  match x with Some _ => true | None => false end.

(** The server once the session object [sid] holds [s]. *)
Definition store (sid : string) (s : ClientSession) (σ : t) : t :=
  {| heap := <[sid := s]> (heap σ); sessions := sessions σ;
     webrtcServer := webrtcServer σ |}.

(** The server with another negotiator. *)
Definition with_rtc (w : WebRTCServer.t) (σ : t) : t :=
  {| heap := heap σ; sessions := sessions σ; webrtcServer := w |}.

(** A field of the session object [sid], if there is one. *)
Definition field {A} (f : ClientSession -> A) (sid : string) (σ : t) : option A :=
  f <$> heap σ !! sid.

(** Whether the session's transport is marked ready:
    [session.useWebRTC === true]. *)
Definition marked_ready (sid : string) (σ : t) : bool :=
  match heap σ !! sid with
  | Some s => strictly_true (useWebRTC s)
  | None => false
  end.

(** A registered session that is active and has its recognition bridge. *)
Definition in_conversation (sid : string) (σ : t) : Prop :=
  sid ∈ sessions σ
  /\ exists s, heap σ !! sid = Some s /\ isActive s = true
               /\ present (deepgramSTT s) = true.

(** The session object once [cleanupSession] is through with it. *)
Definition released (s : ClientSession) : ClientSession :=
  set_groqLLM (GroqLLM.stop <$> groqLLM s)
    (set_deepgramSTT ((fun d => fst (DeepgramSTT.stop d)) <$> deepgramSTT s)
       (set_isActive false s)).

(** The server once [cleanupSession] is through with session [sid]. *)
Definition torn_down (sid : string) (s : ClientSession) (w : WebRTCServer.t) (σ : t) : t :=
  {| heap := <[sid := s]> (heap σ); sessions := sessions σ ∖ {[sid]}; webrtcServer := w |}.

Definition system_prompt : string :=
  "You are a helpful, friendly, and concise AI assistant. Keep responses brief and conversational for voice interaction. Respond in 1-2 sentences.".

(** The session object once [startConversation] has gone through:
    new components with their callbacks installed, the history reset
    to the system prompt. *)
Definition started (key : string) (c : DeepgramSTT.Connection)
    (s : ClientSession) : ClientSession :=
  {| ws := ws s; sessionId := sessionId s;
     deepgramSTT :=
       Some {| DeepgramSTT.apiKey := key; DeepgramSTT.connection := Some c;
               DeepgramSTT.isConnectionReady := true; DeepgramSTT.audioQueue := [];
               DeepgramSTT.audioChunkCount := 0; DeepgramSTT.onTranscript_set := true;
               DeepgramSTT.error_listeners := 0 |};
     groqLLM :=
       Some {| GroqLLM.currentStream := None; GroqLLM.fullResponse := "";
               GroqLLM.onToken_set := true; GroqLLM.onComplete_set := true |};
     isActive := true;
     conversationHistory := [{| role := system; content := system_prompt |}];
     useWebRTC := useWebRTC s |}.

Section Handlers.

Variable env : Env.

Definition sendMessage (sid : string) (message : ServerMessage) : M unit :=
  with_session tt sid (fun session =>
    when (Nat.eqb (readyState (ws session)) OPEN) (tell [ws_send sid message])).

Definition sendError (sid : string) (err : string) : M unit :=
  sendMessage sid (error err).

(** [session.conversationHistory.push(m)] *)
Definition push (sid : string) (m : Message) : M unit :=
  update sid (fun s => set_conversationHistory (conversationHistory s ++ [m]) s).

(** [session.conversationHistory.pop()] *)
Definition pop (sid : string) : M unit :=
  update sid (fun s => set_conversationHistory (removelast (conversationHistory s)) s).

(** [session.groqLLM.stop()] *)
Definition llm_stop (sid : string) : M unit :=
  tell [call sid groqLLM_stop] >>
  update sid (fun s => set_groqLLM (GroqLLM.stop <$> groqLLM s) s).

(** [session.deepgramSTT.stop()] *)
Definition stt_stop (sid : string) : M unit :=
  with_session tt sid (fun session =>
    match deepgramSTT session with
    | Some d =>
        let '(d', outs) := DeepgramSTT.stop d in
        tell [call sid deepgramSTT_stop] >>
        update sid (set_deepgramSTT (Some d')) >>
        tell (map (stt sid) outs)
    | None => ret tt
    end).

(** [session.deepgramSTT.sendAudio(audioData)] *)
Definition stt_sendAudio (sid : string) (audioData : DeepgramSTT.AudioData) : M unit :=
  with_session tt sid (fun session =>
    match deepgramSTT session with
    | Some d =>
        let '(d', outs) := DeepgramSTT.sendAudio (Buffer_from_base64 env) audioData d in
        tell [call sid (deepgramSTT_sendAudio audioData)] >>
        update sid (set_deepgramSTT (Some d')) >>
        tell (map (stt sid) outs)
    | None => ret tt
    end).

(** [this.webrtcServer.cleanup(sessionId)] *)
Definition rtc_cleanup (sid : string) : M unit := fun σ =>
  let '(w, outs, err) := WebRTCServer.cleanup sid (webrtcServer σ) in
  (tell [call sid webrtcServer_cleanup] >>
   set_webrtcServer w >>
   tell (map rtc outs) >>
   match err with
   | Some e => throw e
   | None => ret tt
   end) σ.

Definition cleanupSession (sessionId : string) : M unit := fun σ =>
  if decide (sessionId ∈ sessions σ) then
    with_session tt sessionId (fun session =>
      update sessionId (set_isActive false) >>
      rtc_cleanup sessionId >>
      when (present (deepgramSTT session)) (stt_stop sessionId) >>
      when (present (groqLLM session)) (llm_stop sessionId) >>
      modify (fun σ => {| heap := heap σ; sessions := sessions σ ∖ {[sessionId]};
                          webrtcServer := webrtcServer σ |})) σ
  else (σ, [], returned tt).

Definition handleInterrupt (sid : string) : M unit :=
  with_session tt sid (fun session =>
    when (present (groqLLM session)) (llm_stop sid) >>
    sendMessage sid interrupted).

(** The callbacks installed on the response pipeline by
    [startConversation]. *)
Definition onToken (sid : string) (token : string) : M unit :=
  sendMessage sid (llm_token token).

Definition onComplete (sid : string) (fullResponse : string) : M unit :=
  when (JS.truthy (JS.trim fullResponse))
       (push sid {| role := assistant; content := JS.trim fullResponse |}) >>
  sendMessage sid (llm_complete fullResponse) >>
  when (JS.truthy (JS.trim fullResponse)) (sendMessage sid (tts_text fullResponse)).

Fixpoint llm_dispatch (sid : string) (outs : list GroqLLM.Out) : M unit :=
  match outs with
  | [] => ret tt
  | a :: rest =>
      tell [llm sid a] >>
      match a with
      | GroqLLM.onToken token => onToken sid token
      | GroqLLM.onComplete fullResponse => detached (onComplete sid fullResponse)
      | GroqLLM.create _ => ret tt
      end >>
      llm_dispatch sid rest
  end.

(** [await session.groqLLM.streamCompletion(session.conversationHistory)],
    the collaborator answering before another handler runs.  The
    callbacks only write to the socket and to the history, so the
    pipeline's fields are stored once, before they are dispatched. *)
Definition llm_streamCompletion (sid : string) : M unit :=
  with_session tt sid (fun session =>
    match groqLLM session with
    | Some g =>
        let history := conversationHistory session in
        let '(g', outs, err) :=
          GroqLLM.streamCompletion history (chat_completions_create env history) g in
        tell [call sid (groqLLM_streamCompletion history)] >>
        update sid (set_groqLLM (Some g')) >>
        llm_dispatch sid outs >>
        match err with
        | Some e => throw e
        | None => ret tt
        end
    | None => ret tt
    end).

Definition last_is_user (h : list Message) : bool :=
  match last h with
  | Some m => GroqLLM.is_user m
  | None => false
  end.

(** The [catch] block of [processLLM]. *)
Definition processLLM_catch (sid : string) (err : JS.Error) : M unit :=
  with_session tt sid (fun session =>
    when (last_is_user (conversationHistory session)) (pop sid)) >>
  sendError sid (JS.message_or err "LLM processing failed").

Definition processLLM (sid : string) (transcript : string) : M unit :=
  with_session tt sid (fun session =>
    if negb (present (groqLLM session)) || negb (isActive session)
       || negb (JS.truthy (JS.trim transcript))
    then ret tt
    else
      try_catch
        (push sid {| role := user; content := JS.trim transcript |} >>
         llm_streamCompletion sid)
        (processLLM_catch sid)).

(** *** [processLLM], one await at a time

    A call of [processLLM] is suspended inside [streamCompletion], at
    [await create(..)], and resumed when the collaborator answers.
    [onTranscript] does not await it, so the transcripts that follow
    are handled in between. *)

(** [streamCompletion(session.conversationHistory)] up to that await. *)
Definition llm_enter (sid : string) : M unit :=
  with_session tt sid (fun session =>
    match groqLLM session with
    | Some g =>
        let history := conversationHistory session in
        tell [call sid (groqLLM_streamCompletion history)] >>
        update sid (set_groqLLM (Some (GroqLLM.enter g))) >>
        match history with
        | [] => ret tt
        | _ :: _ => tell [llm sid (GroqLLM.create history)]
        end
    | None => ret tt
    end).

(** [processLLM(session, transcript)] up to the same await. *)
Definition processLLM_enter (sid : string) (transcript : string) : M unit :=
  with_session tt sid (fun session =>
    if negb (present (groqLLM session)) || negb (isActive session)
       || negb (JS.truthy (JS.trim transcript))
    then ret tt
    else push sid {| role := user; content := JS.trim transcript |} >> llm_enter sid).

(** A suspended [processLLM] resumed by the rejection of its request:
    [streamCompletion] wraps the cause and the [catch] of [processLLM]
    runs. *)
Definition processLLM_rejected (sid : string) (cause : JS.Error) : M unit :=
  processLLM_catch sid (GroqLLM.wrap cause).

(** The callback installed on the recognition bridge. *)
Definition onTranscript (sid : string) (transcript : string) (isFinal : bool) : M unit :=
  sendMessage sid (stt_transcript transcript isFinal) >>
  when (isFinal && JS.truthy (JS.trim transcript)) (detached (processLLM sid transcript)).

Fixpoint stt_dispatch (sid : string) (outs : list DeepgramSTT.Out) : M unit :=
  match outs with
  | [] => ret tt
  | a :: rest =>
      tell [stt sid a] >>
      match a with
      | DeepgramSTT.onTranscript transcript isFinal =>
          try_catch (onTranscript sid transcript isFinal) (fun _ => ret tt)
      | _ => ret tt
      end >>
      stt_dispatch sid rest
  end.

Definition lift {A} (r : JS.Error + A) : M A :=
  match r with
  | inl e => throw e
  | inr a => ret a
  end.

(** [await session.deepgramSTT.start()] *)
Definition stt_start (sid : string) : M unit :=
  with_session tt sid (fun session =>
    match deepgramSTT session with
    | Some d =>
        let '(d', outs, settled) := DeepgramSTT.start (listen_live env) d in
        tell [call sid deepgramSTT_start] >>
        update sid (set_deepgramSTT (Some d')) >>
        tell (map (stt sid) outs) >>
        match settled with
        | DeepgramSTT.resolved => ret tt
        | DeepgramSTT.rejected e => throw e
        | DeepgramSTT.pending => suspend
        end
    | None => ret tt
    end).

Definition startConversation (sid : string) : M unit :=
  with_session tt sid (fun session =>
    if isActive session then ret tt
    else
      try_catch
        (update sid (set_conversationHistory
                       [{| role := system; content := system_prompt |}]) >>
         (lift (DeepgramSTT.new (JS.or_else (DEEPGRAM_API_KEY env) "")) >>= fun d =>
          update sid (set_deepgramSTT (Some d))) >>
         (lift (GroqLLM.new (JS.or_else (GROQ_API_KEY env) "")) >>= fun g =>
          update sid (set_groqLLM (Some g))) >>
         update sid (fun s =>
           set_deepgramSTT (DeepgramSTT.set_onTranscript <$> deepgramSTT s) s) >>
         update sid (fun s =>
           set_groqLLM ((fun g => {| GroqLLM.currentStream := GroqLLM.currentStream g;
                                     GroqLLM.fullResponse := GroqLLM.fullResponse g;
                                     GroqLLM.onToken_set := true;
                                     GroqLLM.onComplete_set := GroqLLM.onComplete_set g |})
                        <$> groqLLM s) s) >>
         update sid (fun s =>
           set_groqLLM ((fun g => {| GroqLLM.currentStream := GroqLLM.currentStream g;
                                     GroqLLM.fullResponse := GroqLLM.fullResponse g;
                                     GroqLLM.onToken_set := GroqLLM.onToken_set g;
                                     GroqLLM.onComplete_set := true |})
                        <$> groqLLM s) s) >>
         stt_start sid >>
         update sid (set_isActive true) >>
         sendMessage sid conversation_started)
        (fun _ =>
           sendError sid "Failed to start conversation" >>
           detached (cleanupSession (sessionId session)))).

Definition stopConversation (sid : string) : M unit :=
  with_session tt sid (fun session =>
    if negb (isActive session) then ret tt
    else
      cleanupSession (sessionId session) >>
      sendMessage sid conversation_stopped).

(** [await this.webrtcServer.handleOffer(sessionId, offer)] *)
Definition rtc_handleOffer (sessionId : string)
    (offer : option WebRTCServer.Description) : M WebRTCServer.Description := fun σ =>
  let '(w, outs, r) :=
    WebRTCServer.handleOffer (new_RTCPeerConnection env) sessionId offer (webrtcServer σ) in
  (tell [call sessionId (webrtcServer_handleOffer offer)] >>
   set_webrtcServer w >>
   tell (map rtc outs) >>
   lift r) σ.

Definition handleWebRTCOffer (sid : string)
    (offer : option WebRTCServer.Description) : M unit :=
  with_session tt sid (fun session =>
    try_catch
      (update sid (set_useWebRTC (Some true)) >>
       (rtc_handleOffer (sessionId session) offer >>= fun answer =>
        sendMessage sid (webrtc_answer answer)))
      (fun err => sendError sid ("WebRTC setup error: " +:+ JS.message_text err))).

Definition handleWebRTCIceCandidate (sid : string) (candidate : option string) : M unit :=
  with_session tt sid (fun session =>
    if negb (JS.truthy (default "" candidate)) then ret tt
    else fun σ =>
      (tell [call (sessionId session) (webrtcServer_handleIceCandidate candidate)] >>
       tell (map rtc (WebRTCServer.handleIceCandidate
                        (sessionId session) candidate (webrtcServer σ)))) σ).

Definition handleMessage (sid : string) (message : ClientMessage) : M unit :=
  match message with
  | start_conversation => startConversation sid
  | stop_conversation => stopConversation sid
  | audio_chunk data =>
      with_session tt sid (fun session =>
        when (isActive session && present (deepgramSTT session)
              && negb (strictly_true (useWebRTC session)))
             (stt_sendAudio sid (DeepgramSTT.base64 data)))
  | webrtc_offer offer => handleWebRTCOffer sid offer
  | webrtc_ice_candidate_in candidate => handleWebRTCIceCandidate sid candidate
  | interrupt => handleInterrupt sid
  | other _ => ret tt
  end.

(** *** [setupWebSocketServer] *)

Definition SyntaxError : JS.Error :=
  {| JS.message := Some "Unexpected token in JSON";
     JS.toString := "SyntaxError: Unexpected token in JSON" |}.

(** A connection of the socket server; [sid] is what
    [generateSessionId()] returns. *)
Definition on_connection (sid : string) : M unit :=
  modify (fun σ =>
    {| heap := <[sid := {| ws := {| readyState := OPEN |}; sessionId := sid;
                           deepgramSTT := None; groqLLM := None; isActive := false;
                           conversationHistory := []; useWebRTC := None |}]> (heap σ);
       sessions := {[sid]} ∪ sessions σ;
       webrtcServer := webrtcServer σ |}) >>
  sendMessage sid (session_ready sid).

(** A frame on the socket of session [sid]: [None] when
    [JSON.parse] throws. *)
Definition on_message (sid : string) (frame : option ClientMessage) : M unit :=
  try_catch
    (match frame with
     | Some message => handleMessage sid message
     | None => throw SyntaxError
     end)
    (fun _ => sendError sid "Invalid message format").

Definition on_close (sid : string) : M unit :=
  update sid (set_ws {| readyState := CLOSED |}) >>
  with_session tt sid (fun session => detached (cleanupSession (sessionId session))).

Definition on_error (sid : string) : M unit :=
  with_session tt sid (fun session => detached (cleanupSession (sessionId session))).

(** *** [setupWebRTC] *)

(** [const session = this.sessions.get(sessionId); if (session) ..] *)
Definition registered (sessionId : string) (k : ClientSession -> M unit) : M unit :=
  fun σ =>
    if decide (sessionId ∈ sessions σ) then with_session tt sessionId k σ
    else (σ, [], returned tt).

Definition on_emitted (sessionId : string) (e : WebRTCServer.Emitted) : M unit :=
  match e with
  | WebRTCServer.connectionStateChange state =>
      registered sessionId (fun _ =>
        update sessionId
          (set_useWebRTC (Some match state with
                               | WebRTCServer.connected => true
                               | _ => false
                               end)))
  | WebRTCServer.iceConnectionFailed =>
      registered sessionId (fun _ => update sessionId (set_useWebRTC (Some false)))
  | WebRTCServer.iceCandidate candidate =>
      registered sessionId (fun session =>
        when (Nat.eqb (readyState (ws session)) 1)
             (sendMessage sessionId (webrtc_ice_candidate candidate)))
  | WebRTCServer.audioData audioData =>
      registered sessionId (fun session =>
        when (present (deepgramSTT session) && isActive session
              && negb (strictly_false (useWebRTC session)))
             (stt_sendAudio sessionId (DeepgramSTT.raw audioData) >>
              when (negb (strictly_true (useWebRTC session)))
                   (update sessionId (set_useWebRTC (Some true)))))
  | WebRTCServer.dataChannelOpen =>
      registered sessionId (fun _ => update sessionId (set_useWebRTC (Some true)))
  | WebRTCServer.dataChannelClose =>
      registered sessionId (fun _ => update sessionId (set_useWebRTC (Some false)))
  | WebRTCServer.audioTrack => ret tt
  end.

Fixpoint on_emitted_all (sessionId : string) (l : list WebRTCServer.Emitted) : M unit :=
  match l with
  | [] => ret tt
  | e :: rest => detached (on_emitted sessionId e) >> on_emitted_all sessionId rest
  end.

(** *** The event loop *)

Inductive Event :=
| connection (sid : string)
| message (sid : string) (frame : option ClientMessage)
| close (sid : string)
| socket_error (sid : string)
| Transcript (sid : string) (data : DeepgramSTT.TranscriptData)
| Close (sid : string)
| peer (sid : string) (ev : WebRTCServer.PcEvent).

Definition handle (e : Event) : M unit :=
  match e with
  | connection sid => on_connection sid
  | message sid frame => on_message sid frame
  | close sid => on_close sid
  | socket_error sid => on_error sid
  | Transcript sid data =>
      with_session tt sid (fun session =>
        match deepgramSTT session with
        | Some d => stt_dispatch sid (DeepgramSTT.on_Transcript data d)
        | None => ret tt
        end)
  | Close sid =>
      update sid (fun s => set_deepgramSTT (DeepgramSTT.on_Close <$> deepgramSTT s) s)
  | peer sid ev => fun σ =>
      let '(w, emitted) :=
        WebRTCServer.on_pc_event (Buffer_from_base64 env) sid ev (webrtcServer σ) in
      (set_webrtcServer w >> on_emitted_all sid emitted) σ
  end.

Fixpoint run (es : list Event) : M unit :=
  match es with
  | [] => ret tt
  | e :: rest => detached (handle e) >> run rest
  end.

(** The events on which the coordinator tears a session down. *)
Definition teardown_trigger (sid : string) (e : Event) : bool :=
  match e with
  | close s | socket_error s | message s (Some stop_conversation) => String.eqb s sid
  | _ => false
  end.

End Handlers.

(** Reading a trace. *)

Definition sent (sid : string) (l : list Effect) : list ServerMessage :=
  omap (fun e => match e with
                 | ws_send s m => if String.eqb s sid then Some m else None
                 | _ => None
                 end) l.

Definition calls (sid : string) (l : list Effect) : list Call :=
  omap (fun e => match e with
                 | call s c => if String.eqb s sid then Some c else None
                 | _ => None
                 end) l.

Definition is_interrupted (m : ServerMessage) : bool :=
  match m with interrupted => true | _ => false end.

Definition is_error (m : ServerMessage) : bool :=
  match m with error _ => true | _ => false end.

Definition is_webrtc_answer (m : ServerMessage) : bool :=
  match m with webrtc_answer _ => true | _ => false end.

Definition is_release (c : Call) : bool :=
  match c with
  | deepgramSTT_stop | groqLLM_stop | webrtcServer_cleanup => true
  | _ => false
  end.

(** The release calls of [cleanupSession] for a session, in the
    order of the code. *)
Definition release_calls (s : ClientSession) : list Call :=
  webrtcServer_cleanup
  :: (if present (deepgramSTT s) then [deepgramSTT_stop] else [])
  ++ (if present (groqLLM s) then [groqLLM_stop] else []).

Definition is_streamCompletion (c : Call) : bool :=
  match c with groqLLM_streamCompletion _ => true | _ => false end.

Definition is_sendAudio (c : Call) : bool :=
  match c with deepgramSTT_sendAudio _ => true | _ => false end.

(** A trace in which a completion is asked of the response pipeline. *)
Definition requests_generation (l : list Effect) : bool :=
  existsb (fun e => match e with
                    | call _ (groqLLM_streamCompletion _) => true
                    | llm _ (GroqLLM.create _) => true
                    | _ => false
                    end) l.

(** A trace in which the peer is told of an error and given no answer. *)
Definition offer_refused (sid : string) (l : list Effect) : bool :=
  existsb is_error (sent sid l) && negb (existsb is_webrtc_answer (sent sid l)).

Definition trace {A} (r : t * list Effect * Outcome A) : list Effect := snd (fst r).
Definition state {A} (r : t * list Effect * Outcome A) : t := fst (fst r).
Definition outcome {A} (r : t * list Effect * Outcome A) : Outcome A := snd r.

(** *** Invariants of the handlers *)

(** A handler keeps [P] and leaves only effects in [E]. *)
Definition sound (P : t -> Prop) (E : Effect -> Prop) {A} (m : M A) : Prop :=
  forall σ : t, P σ -> P (state (m σ)) /\ Forall E (trace (m σ)).

(** The socket of session [sid] is not open. *)
Definition socket_closed (sid : string) (σ : t) : Prop :=
  forall s, heap σ !! sid = Some s -> readyState (ws s) <> OPEN.

(** An effect that is not a write to the socket of session [sid]. *)
Definition not_written (sid : string) (e : Effect) : Prop :=
  match e with
  | ws_send k _ => k <> sid
  | _ => True
  end.

(** The first turn of every conversation. *)
Definition system_turn : Message := {| role := system; content := system_prompt |}.

(** What [startConversation] has set up when it marks a session
    active: both components with their callbacks, and a history that
    starts with the system prompt. *)
Definition equipped (s : ClientSession) : Prop :=
  (exists d, deepgramSTT s = Some d /\ DeepgramSTT.onTranscript_set d = true)
  /\ (exists g, groqLLM s = Some g /\ GroqLLM.onToken_set g = true
                /\ GroqLLM.onComplete_set g = true)
  /\ (exists rest, conversationHistory s = system_turn :: rest).

(** The session object under key [k]. *)
Definition good (k : string) (s : ClientSession) : Prop :=
  sessionId s = k /\ (isActive s = true -> equipped s).

Definition well_formed (σ : t) : Prop :=
  forall k s, heap σ !! k = Some s -> good k s.

(** A history as [processLLM] hands it to the response pipeline. *)
Definition prompt_and_turn (h : list Message) : Prop :=
  exists rest transcript,
    h = system_turn :: rest ++ [{| role := user; content := JS.trim transcript |}]
    /\ JS.truthy (JS.trim transcript) = true.

Definition well_asked (e : Effect) : Prop :=
  match e with
  | call _ (groqLLM_streamCompletion h) => prompt_and_turn h
  | llm _ (GroqLLM.create h) => prompt_and_turn h
  | _ => True
  end.

(** A control message whose text is worth sending: an [error] with a
    text, a token that is not empty, a transcript and a text to be
    spoken that are not blank. *)
Definition well_worded (e : Effect) : Prop :=
  match e with
  | ws_send _ (error text) => JS.truthy text = true
  | ws_send _ (llm_token token) => JS.truthy token = true
  | ws_send _ (tts_text text) => JS.truthy (JS.trim text) = true
  | ws_send _ (stt_transcript transcript _) => JS.truthy (JS.trim transcript) = true
  | _ => True
  end.

(** No condition on the server. *)
Definition any_state (σ : t) : Prop := True.

(** A callback of the pipeline whose token is not empty, and a
    callback of the bridge whose transcript is not blank. *)
Definition spoken_token (a : GroqLLM.Out) : Prop :=
  match a with
  | GroqLLM.onToken token => JS.truthy token = true
  | _ => True
  end.

Definition heard (a : DeepgramSTT.Out) : Prop :=
  match a with
  | DeepgramSTT.onTranscript transcript _ => JS.truthy (JS.trim transcript) = true
  | _ => True
  end.

(** *** Sessions side by side *)

(** The session an event belongs to. *)
Definition session_of (e : Event) : string :=
  match e with
  | connection k | message k _ | close k | socket_error k
  | Transcript k _ | Close k | peer k _ => k
  end.

(** Every session object is stored under its own id. *)
Definition filed (σ : t) : Prop :=
  forall k s, heap σ !! k = Some s -> sessionId s = k.

(** Session [sid] is in [σ] what it is in [σ0]: its object, its
    registration and its peer connection. *)
Definition untouched (sid : string) (σ0 σ : t) : Prop :=
  filed σ
  /\ heap σ !! sid = heap σ0 !! sid
  /\ (sid ∈ sessions σ <-> sid ∈ sessions σ0)
  /\ WebRTCServer.sessions (webrtcServer σ) !! sid
     = WebRTCServer.sessions (webrtcServer σ0) !! sid.

(** An effect that belongs to another session than [sid]. *)
Definition foreign (sid : string) (e : Effect) : Prop :=
  match e with
  | call k _ | ws_send k _ | stt k _ | llm k _ => k <> sid
  | rtc a => WebRTCServer.session_of_out a <> sid
  end.

(** *** Messages on the wire *)

(** The [type] field of a control message, as [sendMessage] is given it. *)
Definition type_of (m : ServerMessage) : string :=
  match m with
  | session_ready _ => "session_ready"
  | conversation_started => "conversation_started"
  | conversation_stopped => "conversation_stopped"
  | stt_transcript _ _ => "stt_transcript"
  | llm_token _ => "llm_token"
  | llm_complete _ => "llm_complete"
  | tts_text _ => "tts_text"
  | interrupted => "interrupted"
  | webrtc_answer _ => "webrtc_answer"
  | webrtc_ice_candidate _ => "webrtc_ice_candidate"
  | error _ => "error"
  end.

(** Its [error] field. *)
Definition error_of (m : ServerMessage) : option string :=
  match m with
  | error text => Some text
  | _ => None
  end.

(** The [switch (type)] of [handleMessage]: the case a parsed message
    falls in, given its fields.  An [audio_chunk] without [data] is
    read as one with the empty string: [sendAudio] drops both. *)
Definition decode (type : string) (data : option string)
    (offer : option WebRTCServer.Description) (candidate : option string) : ClientMessage :=
  if String.eqb type "start_conversation" then start_conversation
  else if String.eqb type "stop_conversation" then stop_conversation
  else if String.eqb type "audio_chunk" then audio_chunk (default "" data)
  else if String.eqb type "webrtc_offer" then webrtc_offer offer
  else if String.eqb type "webrtc_ice_candidate" then webrtc_ice_candidate_in candidate
  else if String.eqb type "interrupt" then interrupt
  else other type.

End VoiceAgentServer.

(** ** The browser application: the choice of a voice *)

Module App.

(** A [SpeechSynthesisVoice], as far as the code reads it. *)
Record SpeechSynthesisVoice := mkVoice { name : string; lang : string }.

(** [s.startsWith(p)] *)
Definition startsWith (s p : string) : bool := String.prefix p s.

(** [s.includes(p)] *)
Fixpoint includes (s p : string) : bool :=
  String.prefix p s
  || match s with
     | EmptyString => false
     | String _ s' => includes s' p
     end.

(** [s.toLowerCase()] on the 8-bit code units a Rocq [string] holds:
    A-Z and the capital letters of Latin-1. *)
Definition lower (c : ascii) : ascii :=
  let n := nat_of_ascii c in
  if (Nat.leb 65 n && Nat.leb n 90)
     || (Nat.leb 192 n && Nat.leb n 222 && negb (Nat.eqb n 215))
  then ascii_of_nat (n + 32) else c.

Fixpoint toLowerCase (s : string) : string :=
  match s with
  | EmptyString => EmptyString
  | String c s' => String (lower c) (toLowerCase s')
  end.

(** [a || b] on values that are an object or undefined. *)
Definition or_else {A} (a b : option A) : option A :=
  match a with
  | Some x => Some x
  | None => b
  end.

(** The tests of the six [voices.find(..)], in the order of the code. *)
Definition is_neural (v : SpeechSynthesisVoice) : bool :=
  startsWith (lang v) "en-US"
  && (includes (toLowerCase (name v)) "neural" || includes (toLowerCase (name v)) "natural").

Definition is_google (v : SpeechSynthesisVoice) : bool :=
  startsWith (lang v) "en-US" && includes (name v) "Google".

Definition is_microsoft (v : SpeechSynthesisVoice) : bool :=
  startsWith (lang v) "en-US"
  && (includes (name v) "Microsoft" || includes (name v) "Zira" || includes (name v) "David").

Definition is_us (v : SpeechSynthesisVoice) : bool := String.eqb (lang v) "en-US".

Definition is_gb (v : SpeechSynthesisVoice) : bool := startsWith (lang v) "en-GB".

Definition is_english (v : SpeechSynthesisVoice) : bool := startsWith (lang v) "en".

Definition preferredVoice (voices : list SpeechSynthesisVoice)
    : option SpeechSynthesisVoice :=
  or_else (List.find is_neural voices)
    (or_else (List.find is_google voices)
       (or_else (List.find is_microsoft voices)
          (or_else (List.find is_us voices)
             (or_else (List.find is_gb voices)
                (List.find is_english voices))))).

(** [utterance.lang] when the utterance is spoken. *)
Definition utterance_lang (voices : list SpeechSynthesisVoice) : string :=
  match preferredVoice voices with
  | Some v => lang v
  | None => "en-US"
  end.

(** Voices for the examples. *)
Definition voices : list SpeechSynthesisVoice :=
  [ {| name := "Anna"; lang := "de-DE" |};
    {| name := "Daniel"; lang := "en-GB" |};
    {| name := "Google US English"; lang := "en-US" |};
    {| name := "Microsoft Aria Online (Natural)"; lang := "en-US" |} ].

End App.

(** ** Concrete collaborators and sessions *)

Module Sample.

Import VoiceAgentServer.

(** A response pipeline as [startConversation] leaves it. *)
Definition pipeline : GroqLLM.t :=
  {| GroqLLM.currentStream := None; GroqLLM.fullResponse := "";
     GroqLLM.onToken_set := true; GroqLLM.onComplete_set := true |}.

(** The same pipeline in the middle of a completion. *)
Definition streaming : GroqLLM.t :=
  {| GroqLLM.currentStream := Some 0; GroqLLM.fullResponse := "Sure";
     GroqLLM.onToken_set := true; GroqLLM.onComplete_set := true |}.

Definition link : DeepgramSTT.Connection :=
  {| DeepgramSTT.send_throws := false; DeepgramSTT.finish_throws := false |}.

(** A recognition bridge whose connection is open. *)
Definition bridge : DeepgramSTT.t :=
  {| DeepgramSTT.apiKey := "dg-key"; DeepgramSTT.connection := Some link;
     DeepgramSTT.isConnectionReady := true; DeepgramSTT.audioQueue := [];
     DeepgramSTT.audioChunkCount := 0; DeepgramSTT.onTranscript_set := true;
     DeepgramSTT.error_listeners := 0 |}.

Definition seed : list Message :=
  [{| role := system; content := system_prompt |}].

Definition hello : list Message :=
  seed ++ [{| role := user; content := "hello there" |}].

Definition weather : list Message :=
  hello ++ [{| role := user; content := "what about the weather" |}].

(** A session in conversation, its socket open. *)
Definition talking : ClientSession :=
  {| ws := {| readyState := OPEN |}; sessionId := "s1";
     deepgramSTT := Some bridge; groqLLM := Some streaming;
     isActive := true; conversationHistory := hello; useWebRTC := None |}.

(** A session connected and not started. *)
Definition waiting : ClientSession :=
  {| ws := {| readyState := OPEN |}; sessionId := "s1";
     deepgramSTT := None; groqLLM := None;
     isActive := false; conversationHistory := []; useWebRTC := None |}.

Definition answer_of (d : WebRTCServer.Description) : WebRTCServer.Description :=
  {| WebRTCServer.type := "answer"; WebRTCServer.sdp := "v=0" |}.

Definition invalid_sdp : JS.Error := JS.new_Error "invalid sessionDescription".

(** A peer connection of the negotiation stack: it rejects a
    description without SDP and accepts the others. *)
Definition strict : WebRTCServer.RTCPeerConnection :=
  {| WebRTCServer.setRemoteDescription :=
       fun d => if JS.truthy (WebRTCServer.sdp d) then None else Some invalid_sdp;
     WebRTCServer.createAnswer := fun d => inr (answer_of d);
     WebRTCServer.setLocalDescription := fun _ => None;
     WebRTCServer.addIceCandidate := fun _ => None;
     WebRTCServer.close := None |}.

Definition rate_limited : JS.Error := JS.new_Error "429 rate limit".

(** Collaborators for the examples.  The decoder stands in for
    [Buffer.from(_, 'base64')]: one zero byte for each character. *)
Definition env_with (pc : WebRTCServer.RTCPeerConnection) (reply : GroqLLM.Reply) : Env :=
  {| DEEPGRAM_API_KEY := "dg-key"; GROQ_API_KEY := "gq-key";
     Buffer_from_base64 := fun s => map (fun _ => x00) (list_ascii_of_string s);
     listen_live := DeepgramSTT.live_opens link;
     chat_completions_create := fun _ => reply;
     new_RTCPeerConnection := inr pc |}.

Definition env : Env :=
  env_with strict (GroqLLM.reply_stream 7 ["Hi"; " there"] None).

Definition env_strict : Env :=
  env_with strict (GroqLLM.reply_stream 7 ["Hi"; " there"] None).

Definition env_failing : Env :=
  env_with strict (GroqLLM.reply_stream 7 ["Hi"] (Some rate_limited)).

Definition empty_offer : WebRTCServer.Description :=
  {| WebRTCServer.type := "offer"; WebRTCServer.sdp := "" |}.

Definition offer : WebRTCServer.Description :=
  {| WebRTCServer.type := "offer"; WebRTCServer.sdp := "v=0" |}.

(** A server with one registered session. *)
Definition server_with (s : ClientSession) : t :=
  {| heap := {[ "s1" := s ]}; sessions := {[ "s1" ]};
     webrtcServer := WebRTCServer.new |}.

(** The same with a negotiated peer connection. *)
Definition server_with_peer (s : ClientSession) : t :=
  {| heap := {[ "s1" := s ]}; sessions := {[ "s1" ]};
     webrtcServer :=
       {| WebRTCServer.sessions :=
            {[ "s1" := {| WebRTCServer.peerConnection := strict;
                          WebRTCServer.audioDataChannel := true |} ]} |} |}.

(** A peer connection whose [close()] throws. *)
Definition brittle : WebRTCServer.RTCPeerConnection :=
  {| WebRTCServer.setRemoteDescription :=
       fun d => if JS.truthy (WebRTCServer.sdp d) then None else Some invalid_sdp;
     WebRTCServer.createAnswer := fun d => inr (answer_of d);
     WebRTCServer.setLocalDescription := fun _ => None;
     WebRTCServer.addIceCandidate := fun _ => None;
     WebRTCServer.close := Some (JS.new_Error "close failed") |}.

Definition server_with_brittle_peer (s : ClientSession) : t :=
  {| heap := {[ "s1" := s ]}; sessions := {[ "s1" ]};
     webrtcServer :=
       {| WebRTCServer.sessions :=
            {[ "s1" := {| WebRTCServer.peerConnection := brittle;
                          WebRTCServer.audioDataChannel := true |} ]} |} |}.

(** A final transcript, and one that is final and blank. *)
Definition question : DeepgramSTT.TranscriptData :=
  {| DeepgramSTT.alt_transcript := Some "  what about the weather ";
     DeepgramSTT.is_final := Some true |}.

Definition silence : DeepgramSTT.TranscriptData :=
  {| DeepgramSTT.alt_transcript := Some "   "; DeepgramSTT.is_final := Some true |}.

(** A pipeline reading the stream of its first request. *)
Definition mid_stream : GroqLLM.World :=
  fst (GroqLLM.run (GroqLLM.boot pipeline)
         [GroqLLM.call_streamCompletion hello; GroqLLM.create_resolves 0;
          GroqLLM.chunk 0 "Sure"]).

Definition two_interrupts : list Event :=
  [message "s1" (Some interrupt); message "s1" (Some interrupt)].

(** A recognition bridge whose connection has not opened yet. *)
Definition connecting : DeepgramSTT.t :=
  {| DeepgramSTT.apiKey := "dg-key"; DeepgramSTT.connection := Some link;
     DeepgramSTT.isConnectionReady := false; DeepgramSTT.audioQueue := [];
     DeepgramSTT.audioChunkCount := 0; DeepgramSTT.onTranscript_set := true;
     DeepgramSTT.error_listeners := 0 |}.

(** Two frames with an empty buffer in between. *)
Definition clip : list DeepgramSTT.AudioData :=
  [DeepgramSTT.raw [x01; x02]; DeepgramSTT.raw []; DeepgramSTT.raw [x03; x04]].

(** Collaborators without a key for the response pipeline. *)
Definition env_without_key : Env :=
  {| DEEPGRAM_API_KEY := "dg-key"; GROQ_API_KEY := "";
     Buffer_from_base64 := fun s => map (fun _ => x00) (list_ascii_of_string s);
     listen_live := DeepgramSTT.live_opens link;
     chat_completions_create := fun _ => GroqLLM.reply_stream 7 ["Hi"; " there"] None;
     new_RTCPeerConnection := inr strict |}.

End Sample.

(** * Properties *)

(** ** Reconnection of the control-channel client *)

Module Reconnect.

Import VoiceAgentClient.

Lemma exhausted_no_timer (es : list Event) : forall c : t,
  maxReconnectAttempts c <= reconnectAttempts c ->
  Forall (fun e => e <> open) es ->
  delays (snd (run c es)) = [].
Proof.
  induction es as [|e es IH]; intros c Hc Hes; [reflexivity|].
  inversion Hes as [|? ? He Hes']; subst.
  assert (Hstep : delays (snd (handle c e)) = []
                  /\ maxReconnectAttempts (fst (handle c e))
                     <= reconnectAttempts (fst (handle c e))).
  { destruct e; cbn; try (split; [reflexivity|exact Hc]).
    - congruence.
    - unfold onclose, attemptReconnect.
      destruct (Nat.ltb_spec (reconnectAttempts c) (maxReconnectAttempts c)); [lia|].
      cbn. split; [reflexivity|exact Hc]. }
  destruct Hstep as [Hd Hinv].
  specialize (IH (fst (handle c e)) Hinv Hes').
  cbn [run]. destruct (handle c e) as [c1 a1]. cbn in *.
  destruct (run c1 es) as [c2 a2]. cbn in *.
  clear -Hd IH. induction a1 as [|[?|?] a1 IHa]; cbn in *; try discriminate; auto.
Qed.

(** C9. With the counter at zero and the limit at five, the timers
    armed while the connection is lost and [n - 1] reconnect
    attempts fail are [base * 1 .. base * n] for every [n] in 1..5;
    the failure of the fifth attempt arms nothing, nothing is armed
    afterwards as long as no socket opens, and a requested connection
    that opens starts the count again. *)
Theorem reconnect_backoff (c : t) :
  reconnectAttempts c = 0 -> maxReconnectAttempts c = 5 ->
  (forall n, 1 <= n <= 5 ->
     delays (snd (run c (lost_then_failures (n - 1))))
     = map (Nat.mul (reconnectDelay c)) (seq 1 n))
  /\ delays (snd (run c (lost_then_failures 5)))
     = map (Nat.mul (reconnectDelay c)) (seq 1 5)
  /\ (forall es, Forall (fun e => e <> open) es ->
        delays (snd (run (fst (run c (lost_then_failures 5))) es)) = [])
  /\ delays (snd (run (fst (run c (lost_then_failures 5)))
                      [request_connect; open; close]))
     = [reconnectDelay c * 1].
Proof.
  destruct c as [w u a m d]; cbn [reconnectAttempts maxReconnectAttempts reconnectDelay].
  intros -> ->. repeat split.
  - intros n Hn.
    assert (Hcases : n = 1 \/ n = 2 \/ n = 3 \/ n = 4 \/ n = 5) by lia.
    destruct Hcases as [->|[->|[->|[->| ->]]]]; reflexivity.
  - intros es Hes. apply exhausted_no_timer; [cbn; lia|exact Hes].
Qed.

Lemma reconnect_backoff_witness :
  delays (snd (run (new "ws://localhost:3002/ws") (lost_then_failures 5)))
  = [1000; 2000; 3000; 4000; 5000].
Proof.
  exact (proj1 (proj2 (reconnect_backoff (new "ws://localhost:3002/ws") eq_refl eq_refl))).
Defined.

End Reconnect.

(** ** The response pipeline, one await at a time *)

Module Pipeline.

Import GroqLLM.

Lemma pipeline_run_app (es1 es2 : list Event) : forall w : World,
  run w (es1 ++ es2)
  = (fst (run (fst (run w es1)) es2),
     snd (run w es1) ++ snd (run (fst (run w es1)) es2)).
Proof.
  induction es1 as [|e es1 IH]; intros w; cbn [run app].
  - cbn [fst snd app]. destruct (run w es2); reflexivity.
  - destruct (step w e) as [w1 a1]. rewrite IH.
    destruct (run w1 es1) as [w2 a2]. cbn [fst snd].
    destruct (run w2 es2) as [w3 a3]. cbn [fst snd].
    rewrite <- List.app_assoc. reflexivity.
Qed.

(** The [for await] loop is the run of its chunks. *)
Lemma run_chunks (n : Stream) (chunks : list string) :
  forall (o : t) (aw rd : list nat) (k : nat),
    mem n rd = true ->
    run {| this := o; awaiting := aw; reading := rd; issued := k |} (map (chunk n) chunks)
    = ({| this := fst (for_await chunks o); awaiting := aw; reading := rd; issued := k |},
       map out (snd (for_await chunks o))).
Proof.
  induction chunks as [|c chunks IH]; intros o aw rd k Hn; [reflexivity|].
  cbn [map run step for_await awaiting reading this issued]. rewrite Hn.
  destruct (on_chunk c o) as [o1 a1]. unfold with_this.
  cbn [this awaiting reading issued].
  rewrite IH by exact Hn.
  destruct (for_await chunks o1) as [o2 a2]. cbn [fst snd].
  rewrite List.map_app. reflexivity.
Qed.

(** [streamCompletion] taken in one piece is the run of the events
    of its reply when no other call comes in between. *)
Lemma streamCompletion_is_a_run (history : list Message) (chunks : list string)
    (thrown : option JS.Error) (o : t) :
  history <> [] ->
  run (boot o) (call_streamCompletion history :: events_of 0 (reply_stream 0 chunks thrown))
  = ({| this := fst (fst (streamCompletion history (reply_stream 0 chunks thrown) o));
        awaiting := []; reading := []; issued := 1 |},
     map out (snd (fst (streamCompletion history (reply_stream 0 chunks thrown) o)))
     ++ match snd (streamCompletion history (reply_stream 0 chunks thrown) o) with
        | Some e => [throws 0 e]
        | None => []
        end).
Proof.
  intros Hh. destruct history as [|m history]; [congruence|].
  unfold streamCompletion, events_of, boot.
  assert (Hrun : forall last : Event,
    run {| this := o; awaiting := []; reading := []; issued := 0 |}
        (call_streamCompletion (m :: history)
         :: create_resolves 0 :: map (chunk 0) chunks ++ [last])
    = (fst (step {| this := fst (for_await chunks (set_currentStream (Some 0) (enter o)));
                    awaiting := []; reading := [0]; issued := 1 |} last),
       out (create (m :: history))
       :: map out (snd (for_await chunks (set_currentStream (Some 0) (enter o))))
       ++ snd (step {| this := fst (for_await chunks (set_currentStream (Some 0) (enter o)));
                       awaiting := []; reading := [0]; issued := 1 |} last))).
  { intros last.
    cbn [run step this awaiting reading issued app mem existsb Nat.eqb orb drop
         List.filter negb].
    rewrite pipeline_run_app, run_chunks by reflexivity. cbn [fst snd run].
    destruct (step _ last) as [w2 a2]. cbn [fst snd].
    rewrite List.app_nil_r. reflexivity. }
  rewrite Hrun.
  destruct (for_await chunks (set_currentStream (Some 0) (enter o))) as [o1 a1].
  cbn [fst snd]. destruct thrown as [e|].
  - reflexivity.
  - cbn [step mem reading existsb Nat.eqb orb this].
    destruct (on_end o1) as [o2 a2]. cbn. rewrite List.map_app, List.app_nil_r. reflexivity.
Qed.

(** What [stop()] does keep: the object holds no stream afterwards,
    and a second [stop()] changes nothing. *)
Lemma stop_clears (o : t) : currentStream (stop o) = None.
Proof. unfold stop. destruct (currentStream o) eqn:E; [reflexivity|exact E]. Qed.

Lemma stop_idempotent (o : t) : stop (stop o) = stop o.
Proof. unfold stop at 1. rewrite stop_clears. reflexivity. Qed.

Lemma mem_length (n : nat) (l : list nat) : mem n l = true -> 1 <= length l.
Proof. destruct l; [discriminate|]. intros _. cbn. lia. Qed.

Lemma onToken_set_enter (o : t) : onToken_set (enter o) = onToken_set o.
Proof. unfold enter, stop. destruct (currentStream o); reflexivity. Qed.

(** C2. A call of [streamCompletion] while stream [n] is being read:
    the call adds a request and leaves the loop of stream [n] running,
    so two completions are in flight, and the next chunk of stream [n]
    is forwarded although the object no longer holds that stream. *)
Theorem second_completion_runs_beside_first (w : World) (n : Stream)
    (history : list Message) (content : string) :
  mem n (reading w) = true -> history <> [] ->
  JS.truthy content = true -> onToken_set (this w) = true ->
  2 <= length (in_flight (fst (step w (call_streamCompletion history))))
  /\ mem n (reading (fst (step w (call_streamCompletion history)))) = true
  /\ currentStream (this (fst (step w (call_streamCompletion history)))) = None
  /\ tokens (snd (run w [call_streamCompletion history; chunk n content])) = [content].
Proof.
  intros Hn Hh Hc Ht. destruct history as [|m history]; [congruence|].
  pose proof (mem_length n (reading w) Hn) as Hlen.
  cbn [step fst reading awaiting this]. repeat split.
  - unfold in_flight. cbn [awaiting reading]. rewrite !length_app. cbn [length]. lia.
  - exact Hn.
  - unfold enter. cbn [set_fullResponse currentStream]. apply stop_clears.
  - cbn [run step fst snd reading this]. rewrite Hn. unfold on_chunk.
    rewrite Hc, onToken_set_enter, Ht. reflexivity.
Qed.

Lemma second_completion_runs_beside_first_witness :
  mem 0 (reading Sample.mid_stream) = true
  /\ tokens (snd (run Sample.mid_stream
                    [call_streamCompletion Sample.weather; chunk 0 ", hello"]))
     = [", hello"].
Proof.
  split; [reflexivity|].
  refine (proj2 (proj2 (proj2 (second_completion_runs_beside_first Sample.mid_stream 0
                                 Sample.weather ", hello" eq_refl _ eq_refl eq_refl)))).
  discriminate.
Defined.

(** The same on a run: both streams are read, their tokens are
    forwarded in the order of arrival and end up in the one buffer. *)
Lemma two_streams_interleave :
  let r := run (boot Sample.pipeline)
             [call_streamCompletion Sample.hello; create_resolves 0; chunk 0 "Sure";
              call_streamCompletion Sample.weather; create_resolves 1;
              chunk 0 ", hello"; chunk 1 "It is"] in
  in_flight (fst r) = [0; 1]
  /\ tokens (snd r) = ["Sure"; ", hello"; "It is"]
  /\ fullResponse (this (fst r)) = ", helloIt is".
Proof. repeat split. Qed.

(** C4. [stop()] while stream [n] is being read: the object holds no
    stream afterwards, and the next chunk of stream [n] is forwarded
    through [onToken] all the same. *)
Theorem token_forwarded_after_stop (w : World) (n : Stream) (content : string) :
  mem n (reading w) = true -> JS.truthy content = true ->
  onToken_set (this w) = true ->
  currentStream (this (fst (run w [call_stop]))) = None
  /\ tokens (snd (run w [call_stop; chunk n content])) = [content].
Proof.
  intros Hn Hc Ht.
  assert (Hs : onToken_set (stop (this w)) = true).
  { unfold stop. destruct (currentStream (this w)); exact Ht. }
  split.
  - cbn [run step fst with_this this]. apply stop_clears.
  - unfold run, step, with_this. cbn [reading this]. rewrite Hn.
    unfold on_chunk. rewrite Hc, Hs. reflexivity.
Qed.

Lemma token_forwarded_after_stop_witness :
  mem 0 (reading Sample.mid_stream) = true
  /\ tokens (snd (run Sample.mid_stream [call_stop; chunk 0 ", hello"])) = [", hello"].
Proof.
  split; [reflexivity|].
  exact (proj2 (token_forwarded_after_stop Sample.mid_stream 0 ", hello"
                  eq_refl eq_refl eq_refl)).
Defined.

(** The same on a run: the tokens that arrive after [stop()] are
    forwarded, and the end of the stream hands them to [onComplete]. *)
Lemma late_tokens_reach_onComplete :
  snd (run (boot Sample.pipeline)
         [call_streamCompletion Sample.hello; create_resolves 0; chunk 0 "Sure";
          call_stop; chunk 0 ", hello"; stream_ends 0])
  = [out (create Sample.hello); out (onToken "Sure");
     out (onToken ", hello"); out (onComplete ", hello")].
Proof. reflexivity. Qed.

End Pipeline.

(** ** The coordinator *)

Module Coordinator.

Import VoiceAgentServer.

Lemma heap_store (sid : string) (s : ClientSession) (σ : t) :
  heap (store sid s σ) !! sid = Some s.
Proof. unfold store. cbn [heap]. apply lookup_insert_eq. Qed.

Lemma store_store (sid : string) (s s' : ClientSession) (σ : t) :
  store sid s (store sid s' σ) = store sid s σ.
Proof. unfold store. cbn [heap sessions webrtcServer]. rewrite insert_insert_eq. reflexivity. Qed.

Lemma store_same (sid : string) (s : ClientSession) (σ : t) :
  heap σ !! sid = Some s -> store sid s σ = σ.
Proof. intros H. destruct σ as [h r w]. unfold store. cbn in *. rewrite insert_id by exact H. reflexivity. Qed.

Lemma update_store (sid : string) (f : ClientSession -> ClientSession) (σ : t)
    (s : ClientSession) :
  heap σ !! sid = Some s -> update sid f σ = (store sid (f s) σ, [], returned tt).
Proof.
  intros H. unfold update, modify, store. repeat f_equal.
  apply map_eq. intros k. rewrite lookup_alter, lookup_insert.
  case_decide; subst; [rewrite H|]; reflexivity.
Qed.

Lemma sendMessage_at (sid : string) (m : ServerMessage) (σ : t) (s : ClientSession) :
  heap σ !! sid = Some s ->
  sendMessage sid m σ
  = (σ, if Nat.eqb (readyState (ws s)) OPEN then [ws_send sid m] else [], returned tt).
Proof.
  intros H. unfold sendMessage, with_session, when. rewrite H.
  destruct (Nat.eqb _ _); reflexivity.
Qed.

Lemma bind_returned {A B} (m : M A) (k : A -> M B) (σ σ1 : t) (l1 : list Effect) (a : A) :
  m σ = (σ1, l1, returned a) ->
  bind m k σ = (state (k a σ1), l1 ++ trace (k a σ1), outcome (k a σ1)).
Proof.
  intros H. unfold bind, state, trace, outcome. rewrite H.
  destruct (k a σ1) as [[σ2 l2] r2]. reflexivity.
Qed.

Lemma llm_stop_at (sid : string) (σ : t) (s : ClientSession) :
  heap σ !! sid = Some s ->
  llm_stop sid σ
  = (store sid (set_groqLLM (GroqLLM.stop <$> groqLLM s) s) σ, [call sid groqLLM_stop],
     returned tt).
Proof.
  intros H. unfold llm_stop. erewrite bind_returned by reflexivity.
  rewrite (update_store _ _ _ _ H). reflexivity.
Qed.

Lemma handleInterrupt_at (sid : string) (σ : t) (s : ClientSession) :
  heap σ !! sid = Some s ->
  handleInterrupt sid σ
  = (store sid (set_groqLLM (GroqLLM.stop <$> groqLLM s) s) σ,
     (if present (groqLLM s) then [call sid groqLLM_stop] else [])
     ++ (if Nat.eqb (readyState (ws s)) OPEN then [ws_send sid interrupted] else []),
     returned tt).
Proof.
  intros H. unfold handleInterrupt, with_session. rewrite H.
  destruct (groqLLM s) as [g|] eqn:Eg; cbn [present when].
  - erewrite bind_returned by (apply llm_stop_at; exact H).
    rewrite (sendMessage_at _ _ _ _ (heap_store _ _ _)). rewrite Eg. reflexivity.
  - erewrite bind_returned by reflexivity.
    rewrite (sendMessage_at _ _ _ _ H). unfold state, trace, outcome. cbn.
    rewrite store_same; [reflexivity|]. rewrite H. destruct s; cbn in *; subst; reflexivity.
Qed.

Lemma on_message_interrupt (env : Env) (sid : string) (σ : t) (s : ClientSession) :
  heap σ !! sid = Some s ->
  handle env (message sid (Some interrupt)) σ = handleInterrupt sid σ.
Proof.
  intros H. unfold handle, on_message, handleMessage, try_catch.
  rewrite (handleInterrupt_at _ _ _ H). reflexivity.
Qed.

Lemma sent_app (sid : string) (l1 l2 : list Effect) :
  sent sid (l1 ++ l2) = sent sid l1 ++ sent sid l2.
Proof. unfold sent. apply omap_app. Qed.

Lemma calls_app (sid : string) (l1 l2 : list Effect) :
  calls sid (l1 ++ l2) = calls sid l1 ++ calls sid l2.
Proof. unfold calls. apply omap_app. Qed.

Lemma run_cons (env : Env) (e : Event) (es : list Event) (σ : t) :
  run env (e :: es) σ
  = (state (run env es (state (handle env e σ))),
     trace (handle env e σ) ++ trace (run env es (state (handle env e σ))),
     outcome (run env es (state (handle env e σ)))).
Proof.
  cbn [run]. unfold bind, detached, state, trace, outcome.
  destruct (handle env e σ) as [[σ1 l1] r1]. cbn [fst snd].
  destruct (run env es σ1) as [[σ2 l2] r2]. reflexivity.
Qed.

Lemma handle_interrupt_at (env : Env) (sid : string) (σ : t) (s : ClientSession) :
  heap σ !! sid = Some s ->
  handle env (message sid (Some interrupt)) σ
  = (store sid (set_groqLLM (GroqLLM.stop <$> groqLLM s) s) σ,
     (if present (groqLLM s) then [call sid groqLLM_stop] else [])
     ++ (if Nat.eqb (readyState (ws s)) OPEN then [ws_send sid interrupted] else []),
     returned tt).
Proof.
  intros H. rewrite (on_message_interrupt env sid σ s H). apply handleInterrupt_at, H.
Qed.

(** C1, as the code has it. Each [interrupt] calls [stop()] on the
    session's response pipeline, if there is one, and writes one
    [interrupted] message when the socket is open: two in a row write
    two, and no [error]. The handler returns, only the pipeline of the
    session object changes (its stream handle is dropped), and the
    second interrupt leaves the server as the first did. *)
Theorem interrupt_each_time (env : Env) (σ : t) (sid : string) (s : ClientSession) :
  heap σ !! sid = Some s ->
  let opened := Nat.eqb (readyState (ws s)) OPEN in
  let once := handle env (message sid (Some interrupt)) σ in
  let twice := run env [message sid (Some interrupt); message sid (Some interrupt)] σ in
  sent sid (trace once) = (if opened then [interrupted] else [])
  /\ sent sid (trace twice) = (if opened then [interrupted; interrupted] else [])
  /\ calls sid (trace once) = (if present (groqLLM s) then [groqLLM_stop] else [])
  /\ outcome once = returned tt
  /\ state once = store sid (set_groqLLM (GroqLLM.stop <$> groqLLM s) s) σ
  /\ state twice = state once.
Proof.
  intros H opened once twice. subst once twice.
  rewrite !run_cons, (handle_interrupt_at env sid σ s H).
  unfold state, trace, outcome. cbn [fst snd run ret].
  rewrite (handle_interrupt_at env sid _ _ (heap_store _ _ _)).
  cbn [fst snd groqLLM set_groqLLM ws]. rewrite store_store.
  rewrite !sent_app, !calls_app. fold opened. unfold sent, calls.
  destruct (groqLLM s) as [g|]; cbn [fmap option_fmap option_map present];
    [rewrite Pipeline.stop_idempotent|];
    destruct opened; cbn; rewrite ?String.eqb_refl; auto 10.
Qed.

Lemma for_await_tokens (chunks : list string) : forall o : GroqLLM.t,
  Forall GroqLLM.no_callback_to_history (snd (GroqLLM.for_await chunks o)).
Proof.
  induction chunks as [|c chunks IH]; intros o; cbn [GroqLLM.for_await]; [constructor|].
  unfold GroqLLM.on_chunk.
  destruct (JS.truthy c); [destruct (GroqLLM.onToken_set o)|];
    match goal with |- context [GroqLLM.for_await chunks ?x] =>
      specialize (IH x); destruct (GroqLLM.for_await chunks x) as [o2 a2] end;
    cbn in *; auto.
  constructor; [exact I|assumption].
Qed.

Lemma llm_dispatch_tokens (sid : string) (s : ClientSession) (outs : list GroqLLM.Out) :
  forall σ : t,
    heap σ !! sid = Some s ->
    Forall GroqLLM.no_callback_to_history outs ->
    state (llm_dispatch sid outs σ) = σ
    /\ outcome (llm_dispatch sid outs σ) = returned tt
    /\ calls sid (trace (llm_dispatch sid outs σ)) = []
    /\ filter is_error (sent sid (trace (llm_dispatch sid outs σ))) = [].
Proof.
  induction outs as [|a outs IH]; intros σ H Hall.
  - cbn. auto.
  - inversion Hall as [|? ? Ha Hall']; subst.
    destruct (IH σ H Hall') as (IH1 & IH2 & IH3 & IH4).
    cbn [llm_dispatch].
    assert (Hhead : (tell [llm sid a] >>
              match a with
              | GroqLLM.create _ => ret ()
              | GroqLLM.onToken token => onToken sid token
              | GroqLLM.onComplete fullResponse => detached (onComplete sid fullResponse)
              end) σ
            = (σ, llm sid a ::
                  match a with
                  | GroqLLM.onToken token =>
                      if Nat.eqb (readyState (ws s)) OPEN
                      then [ws_send sid (llm_token token)] else []
                  | _ => []
                  end, returned tt)).
    { erewrite bind_returned by reflexivity.
      destruct a as [ms|tok|r]; [reflexivity| |destruct Ha].
      unfold onToken. rewrite (sendMessage_at _ _ _ _ H). reflexivity. }
    erewrite bind_returned by exact Hhead.
    unfold state, trace, outcome in *. cbn [fst snd].
    rewrite IH1, IH2, sent_app, calls_app, filter_app, IH3, IH4.
    repeat split.
    + destruct a as [ms|tok|r]; [reflexivity| |reflexivity].
      destruct (Nat.eqb _ _); reflexivity.
    + destruct a as [ms|tok|r]; [reflexivity| |reflexivity].
      destruct (Nat.eqb _ _); cbn; rewrite ?String.eqb_refl; reflexivity.
Qed.

Lemma streamCompletion_failure (h : list Message) (reply : GroqLLM.Reply) (g : GroqLLM.t)
    (e : JS.Error) :
  snd (GroqLLM.streamCompletion h reply g) = Some e ->
  Forall GroqLLM.no_callback_to_history (snd (fst (GroqLLM.streamCompletion h reply g))).
Proof.
  unfold GroqLLM.streamCompletion. destruct h as [|m h]; [discriminate|].
  destruct reply as [e0|st chunks [e0|]].
  - intros _. cbn. repeat constructor.
  - intros _.
    pose proof (for_await_tokens chunks
                  (GroqLLM.set_currentStream (Some st) (GroqLLM.enter g))) as Ht.
    destruct (GroqLLM.for_await _ _) as [o1 a1]. cbn in *. constructor; [exact I|exact Ht].
  - destruct (GroqLLM.for_await _ _) as [o1 a1]. destruct (GroqLLM.on_end o1). discriminate.
Qed.

Lemma last_is_user_snoc (h : list Message) (c : string) :
  last_is_user (h ++ [{| role := user; content := c |}]) = true.
Proof. unfold last_is_user. rewrite last_snoc. reflexivity. Qed.

Lemma llm_streamCompletion_at (env : Env) (sid : string) (σ : t) (s : ClientSession)
    (g : GroqLLM.t) :
  heap σ !! sid = Some s -> groqLLM s = Some g ->
  let h := conversationHistory s in
  let r := GroqLLM.streamCompletion h (chat_completions_create env h) g in
  let σ' := store sid (set_groqLLM (Some (fst (fst r))) s) σ in
  Forall GroqLLM.no_callback_to_history (snd (fst r)) ->
  llm_streamCompletion env sid σ
  = (σ', call sid (groqLLM_streamCompletion h) :: trace (llm_dispatch sid (snd (fst r)) σ'),
     match snd r with Some e => thrown e | None => returned tt end).
Proof.
  intros H Hg h r σ' Htok. subst r σ'.
  unfold llm_streamCompletion, with_session. rewrite H, Hg. fold h.
  destruct (GroqLLM.streamCompletion h (chat_completions_create env h) g)
    as [[g' outs] err].
  cbn [fst snd] in *.
  set (s2 := set_groqLLM (Some g') s).
  assert (H2 : heap (store sid s2 σ) !! sid = Some s2) by apply heap_store.
  destruct (llm_dispatch_tokens sid s2 outs _ H2 Htok) as (D1 & D2 & D3 & D4).
  assert (Hpre : (tell [call sid (groqLLM_streamCompletion h)]
                  >> update sid (set_groqLLM (Some g'))) σ
                 = (store sid s2 σ, [call sid (groqLLM_streamCompletion h)], returned tt)).
  { erewrite bind_returned by reflexivity.
    rewrite (update_store _ _ _ _ H). reflexivity. }
  assert (Hmid : (tell [call sid (groqLLM_streamCompletion h)]
                  >> update sid (set_groqLLM (Some g')) >> llm_dispatch sid outs) σ
                 = (store sid s2 σ,
                    call sid (groqLLM_streamCompletion h)
                    :: trace (llm_dispatch sid outs (store sid s2 σ)), returned tt)).
  { erewrite bind_returned by exact Hpre. rewrite D1, D2. reflexivity. }
  erewrite bind_returned by exact Hmid.
  destruct err as [e|]; cbn; rewrite List.app_nil_r; reflexivity.
Qed.

(** The [catch] block alone, whatever ran while the request was
    awaited: when the history still ends with a user turn, that turn
    is popped and the error is written. *)
Lemma catch_pops_user_turn (sid : string) (err : JS.Error) (σ : t) (s : ClientSession)
    (h : list Message) (u : string) :
  heap σ !! sid = Some s ->
  conversationHistory s = h ++ [{| role := user; content := u |}] ->
  processLLM_catch sid err σ
  = (store sid (set_conversationHistory h s) σ,
     if Nat.eqb (readyState (ws s)) OPEN
     then [ws_send sid (error (JS.message_or err "LLM processing failed"))] else [],
     returned tt).
Proof.
  intros H Hh. unfold processLLM_catch.
  assert (Hpop : with_session tt sid
                   (fun session => when (last_is_user (conversationHistory session)) (pop sid)) σ
                 = (store sid (set_conversationHistory h s) σ, [], returned tt)).
  { unfold with_session. rewrite H, Hh, last_is_user_snoc. cbn [when]. unfold pop.
    rewrite (update_store _ _ _ _ H), Hh, removelast_last. reflexivity. }
  erewrite bind_returned by exact Hpop.
  unfold sendError. rewrite (sendMessage_at _ _ _ _ (heap_store _ _ _)). reflexivity.
Qed.

(** A transcript that triggers a generation, when nothing else is
    handled for the session before the collaborator has answered: if
    the request fails, the user turn pushed before it is popped, so
    the history is the one before the push; the session stays active,
    the request was made with the provisional turn, and the only
    [error] message is the one that reports the failure. *)
Lemma failed_generation_rolls_back (env : Env) (σ : t) (sid : string) (s : ClientSession)
    (g : GroqLLM.t) (transcript : string) (e : JS.Error) :
  heap σ !! sid = Some s -> groqLLM s = Some g -> isActive s = true ->
  JS.truthy (JS.trim transcript) = true ->
  let attempt := conversationHistory s ++ [{| role := user; content := JS.trim transcript |}] in
  snd (GroqLLM.streamCompletion attempt (chat_completions_create env attempt) g) = Some e ->
  let r := processLLM env sid transcript σ in
  (conversationHistory <$> heap (state r) !! sid) = Some (conversationHistory s)
  /\ (isActive <$> heap (state r) !! sid) = Some true
  /\ calls sid (trace r) = [groqLLM_streamCompletion attempt]
  /\ filter is_error (sent sid (trace r))
     = (if Nat.eqb (readyState (ws s)) OPEN
        then [error (JS.message_or e "LLM processing failed")] else [])
  /\ outcome r = returned tt.
Proof.
  intros H Hg Ha Ht attempt He r. subst r.
  pose proof (streamCompletion_failure _ _ _ _ He) as Htok.
  set (s1 := set_conversationHistory attempt s).
  assert (H1 : heap (store sid s1 σ) !! sid = Some s1) by apply heap_store.
  pose proof (llm_streamCompletion_at env sid _ s1 g H1 Hg) as Hsc.
  cbn [conversationHistory s1 set_conversationHistory] in Hsc.
  specialize (Hsc Htok). rewrite He, store_store in Hsc.
  set (g' := fst (fst (GroqLLM.streamCompletion attempt (chat_completions_create env attempt) g))) in *.
  set (outs := snd (fst (GroqLLM.streamCompletion attempt (chat_completions_create env attempt) g))) in *.
  set (s2 := set_groqLLM (Some g') s1) in *.
  assert (H2 : heap (store sid s2 σ) !! sid = Some s2) by apply heap_store.
  destruct (llm_dispatch_tokens sid s2 outs _ H2 Htok) as (D1 & D2 & D3 & D4).
  assert (Hbody : (push sid {| role := user; content := JS.trim transcript |}
                   >> llm_streamCompletion env sid) σ
                  = (store sid s2 σ,
                     call sid (groqLLM_streamCompletion attempt)
                     :: trace (llm_dispatch sid outs (store sid s2 σ)), thrown e)).
  { erewrite bind_returned by (unfold push; apply update_store; exact H).
    cbn beta. fold attempt. fold s1. rewrite Hsc. reflexivity. }
  assert (Hpop : with_session tt sid
                   (fun session => when (last_is_user (conversationHistory session)) (pop sid))
                   (store sid s2 σ)
                 = (store sid (set_groqLLM (Some g') s) σ, [], returned tt)).
  { unfold with_session. rewrite H2. subst s2 s1 attempt.
    cbn [conversationHistory set_groqLLM set_conversationHistory].
    rewrite last_is_user_snoc. cbn [when]. unfold pop.
    rewrite (update_store _ _ _ _ (heap_store _ _ _)), store_store.
    cbn [conversationHistory set_groqLLM set_conversationHistory]. rewrite removelast_last.
    destruct s; reflexivity. }
  assert (Hcatch :
    (with_session tt sid (fun session => when (last_is_user (conversationHistory session)) (pop sid))
     >> sendError sid (JS.message_or e "LLM processing failed")) (store sid s2 σ)
    = (store sid (set_groqLLM (Some g') s) σ,
       if Nat.eqb (readyState (ws s)) OPEN
       then [ws_send sid (error (JS.message_or e "LLM processing failed"))] else [],
       returned tt)).
  { erewrite bind_returned by exact Hpop.
    unfold sendError. rewrite (sendMessage_at _ _ _ _ (heap_store _ _ _)). reflexivity. }
  assert (Hrun : processLLM env sid transcript σ
                 = (store sid (set_groqLLM (Some g') s) σ,
                    (call sid (groqLLM_streamCompletion attempt)
                     :: trace (llm_dispatch sid outs (store sid s2 σ)))
                    ++ (if Nat.eqb (readyState (ws s)) OPEN
                        then [ws_send sid (error (JS.message_or e "LLM processing failed"))]
                        else []),
                    returned tt)).
  { unfold processLLM. unfold with_session at 1. rewrite H, Hg, Ha, Ht.
    cbn [present negb orb]. unfold try_catch, processLLM_catch. rewrite Hbody.
    cbn beta iota zeta.
    rewrite Hcatch. reflexivity. }
  rewrite Hrun. unfold state, trace, outcome. cbn [fst snd]. rewrite heap_store.
  cbn [fmap option_fmap option_map set_groqLLM conversationHistory isActive].
  unfold trace in D3, D4.
  rewrite sent_app, calls_app, filter_app.
  change (calls sid (call sid (groqLLM_streamCompletion attempt)
                     :: snd (fst (llm_dispatch sid outs (store sid s2 σ)))))
    with (match (if String.eqb sid sid then Some (groqLLM_streamCompletion attempt) else None) with
          | Some c => c :: calls sid (snd (fst (llm_dispatch sid outs (store sid s2 σ))))
          | None => calls sid (snd (fst (llm_dispatch sid outs (store sid s2 σ))))
          end).
  change (sent sid (call sid (groqLLM_streamCompletion attempt)
                    :: snd (fst (llm_dispatch sid outs (store sid s2 σ)))))
    with (sent sid (snd (fst (llm_dispatch sid outs (store sid s2 σ))))).
  rewrite String.eqb_refl, D3, D4, Ha.
  repeat split; auto.
  - destruct (Nat.eqb _ _); reflexivity.
  - destruct (Nat.eqb _ _); cbn; rewrite ?String.eqb_refl; reflexivity.
Qed.

Lemma llm_enter_at (sid : string) (σ : t) (s : ClientSession) (g : GroqLLM.t) :
  heap σ !! sid = Some s -> groqLLM s = Some g -> conversationHistory s <> [] ->
  llm_enter sid σ
  = (store sid (set_groqLLM (Some (GroqLLM.enter g)) s) σ,
     [call sid (groqLLM_streamCompletion (conversationHistory s));
      llm sid (GroqLLM.create (conversationHistory s))],
     returned tt).
Proof.
  intros H Hg Hne. unfold llm_enter, with_session. rewrite H, Hg.
  erewrite bind_returned.
  2:{ erewrite bind_returned by reflexivity.
      rewrite (update_store _ _ _ _ H). reflexivity. }
  destruct (conversationHistory s) as [|m rest]; [congruence|]. reflexivity.
Qed.

(** [processLLM] up to its await, for a session that generates. *)
Lemma processLLM_enter_at (sid : string) (σ : t) (s : ClientSession) (g : GroqLLM.t)
    (transcript : string) :
  heap σ !! sid = Some s -> groqLLM s = Some g -> isActive s = true ->
  JS.truthy (JS.trim transcript) = true ->
  let attempt := conversationHistory s ++ [{| role := user; content := JS.trim transcript |}] in
  processLLM_enter sid transcript σ
  = (store sid (set_groqLLM (Some (GroqLLM.enter g)) (set_conversationHistory attempt s)) σ,
     [call sid (groqLLM_streamCompletion attempt); llm sid (GroqLLM.create attempt)],
     returned tt).
Proof.
  intros H Hg Ha Ht attempt.
  unfold processLLM_enter. unfold with_session at 1. rewrite H, Hg, Ha, Ht.
  cbn [present negb orb].
  erewrite bind_returned by (unfold push; apply update_store; exact H).
  fold attempt.
  assert (Hne : attempt <> []) by (subst attempt; destruct (conversationHistory s); discriminate).
  rewrite (llm_enter_at sid _ (set_conversationHistory attempt s) g (heap_store _ _ _) Hg Hne).
  rewrite store_store. reflexivity.
Qed.

Lemma llm_streamCompletion_rejected (env : Env) (sid : string) (σ : t) (s : ClientSession)
    (g : GroqLLM.t) (cause : JS.Error) :
  heap σ !! sid = Some s -> groqLLM s = Some g -> conversationHistory s <> [] ->
  chat_completions_create env (conversationHistory s) = GroqLLM.reply_rejected cause ->
  llm_streamCompletion env sid σ
  = (store sid (set_groqLLM (Some (GroqLLM.enter g)) s) σ,
     [call sid (groqLLM_streamCompletion (conversationHistory s));
      llm sid (GroqLLM.create (conversationHistory s))],
     thrown (GroqLLM.wrap cause)).
Proof.
  intros H Hg Hne Hreply. unfold llm_streamCompletion, with_session. rewrite H, Hg, Hreply.
  unfold GroqLLM.streamCompletion.
  destruct (conversationHistory s) as [|m rest]; [congruence|].
  cbn [llm_dispatch]. unfold bind, tell, ret, throw.
  rewrite (update_store _ _ _ _ H). reflexivity.
Qed.

(** The two pieces, run one after the other, are [processLLM] on a
    request that is rejected. *)
Lemma processLLM_in_two_steps (env : Env) (sid : string) (σ : t) (s : ClientSession)
    (g : GroqLLM.t) (transcript : string) (cause : JS.Error) :
  heap σ !! sid = Some s -> groqLLM s = Some g -> isActive s = true ->
  JS.truthy (JS.trim transcript) = true ->
  chat_completions_create env
    (conversationHistory s ++ [{| role := user; content := JS.trim transcript |}])
  = GroqLLM.reply_rejected cause ->
  processLLM env sid transcript σ
  = (processLLM_enter sid transcript >> processLLM_rejected sid cause) σ.
Proof.
  intros H Hg Ha Ht Hreply.
  erewrite (bind_returned (processLLM_enter sid transcript))
    by (apply (processLLM_enter_at sid σ s g transcript H Hg Ha Ht)).
  set (attempt := conversationHistory s ++ [{| role := user; content := JS.trim transcript |}])
    in *.
  assert (Hne : attempt <> []) by (subst attempt; destruct (conversationHistory s); discriminate).
  unfold processLLM. unfold with_session at 1. rewrite H, Hg, Ha, Ht.
  cbn [present negb orb]. unfold try_catch.
  assert (Hbody : (push sid {| role := user; content := JS.trim transcript |}
                   >> llm_streamCompletion env sid) σ
                  = (store sid (set_groqLLM (Some (GroqLLM.enter g))
                                  (set_conversationHistory attempt s)) σ,
                     [call sid (groqLLM_streamCompletion attempt);
                      llm sid (GroqLLM.create attempt)],
                     thrown (GroqLLM.wrap cause))).
  { erewrite bind_returned by (unfold push; apply update_store; exact H).
    fold attempt.
    rewrite (llm_streamCompletion_rejected env sid _ (set_conversationHistory attempt s) g
               cause (heap_store _ _ _) Hg Hne Hreply).
    rewrite store_store. reflexivity. }
  rewrite Hbody. unfold processLLM_rejected.
  destruct (processLLM_catch sid (GroqLLM.wrap cause) _) as [[σ2 l2] r2]. reflexivity.
Qed.

(** C3. Two final transcripts in a row, handled before the
    collaborator has answered the first: each pushes its user turn
    and makes its request; when a request is then rejected, the
    [catch] pops the turn that is last, the second one.  So when it
    is the first request that fails, its turn stays in the history,
    which is one longer than before that turn was pushed, and the
    turn of the second transcript, whose request is still pending, is
    the one removed; the failure is reported by one [error]
    message. *)
Theorem overlapping_failure_keeps_failed_turn (σ : t) (sid : string) (s : ClientSession)
    (g : GroqLLM.t) (first second : string) (cause : JS.Error) :
  heap σ !! sid = Some s -> groqLLM s = Some g -> isActive s = true ->
  JS.truthy (JS.trim first) = true -> JS.truthy (JS.trim second) = true ->
  let h := conversationHistory s in
  let turn1 := {| role := user; content := JS.trim first |} in
  let turn2 := {| role := user; content := JS.trim second |} in
  let r := (processLLM_enter sid first >> processLLM_enter sid second
            >> processLLM_rejected sid cause) σ in
  calls sid (trace r)
  = [groqLLM_streamCompletion (h ++ [turn1]); groqLLM_streamCompletion ((h ++ [turn1]) ++ [turn2])]
  /\ field conversationHistory sid (state r) = Some (h ++ [turn1])
  /\ (length <$> field conversationHistory sid (state r)) = Some (S (length h))
  /\ sent sid (trace r)
     = (if Nat.eqb (readyState (ws s)) OPEN
        then [error (JS.message_or (GroqLLM.wrap cause) "LLM processing failed")] else [])
  /\ outcome r = returned tt.
Proof.
  intros H Hg Ha Ht1 Ht2 h turn1 turn2 r.
  set (s1 := set_groqLLM (Some (GroqLLM.enter g)) (set_conversationHistory (h ++ [turn1]) s)).
  set (s2 := set_groqLLM (Some (GroqLLM.enter (GroqLLM.enter g)))
               (set_conversationHistory ((h ++ [turn1]) ++ [turn2]) s1)).
  assert (H1 : processLLM_enter sid first σ
               = (store sid s1 σ,
                  [call sid (groqLLM_streamCompletion (h ++ [turn1]));
                   llm sid (GroqLLM.create (h ++ [turn1]))], returned tt))
    by (apply (processLLM_enter_at sid σ s g first H Hg Ha Ht1)).
  assert (H2 : processLLM_enter sid second (store sid s1 σ)
               = (store sid s2 σ,
                  [call sid (groqLLM_streamCompletion ((h ++ [turn1]) ++ [turn2]));
                   llm sid (GroqLLM.create ((h ++ [turn1]) ++ [turn2]))], returned tt)).
  { rewrite (processLLM_enter_at sid (store sid s1 σ) s1 (GroqLLM.enter g) second
               (heap_store _ _ _) eq_refl Ha Ht2).
    rewrite store_store. reflexivity. }
  assert (H3 : processLLM_rejected sid cause (store sid s2 σ)
               = (store sid (set_conversationHistory (h ++ [turn1]) s2) σ,
                  if Nat.eqb (readyState (ws s)) OPEN
                  then [ws_send sid (error (JS.message_or (GroqLLM.wrap cause)
                                              "LLM processing failed"))] else [],
                  returned tt)).
  { unfold processLLM_rejected.
    rewrite (catch_pops_user_turn sid _ (store sid s2 σ) s2 (h ++ [turn1]) (JS.trim second)
               (heap_store _ _ _) eq_refl).
    rewrite store_store. reflexivity. }
  assert (Hrun : r = (store sid (set_conversationHistory (h ++ [turn1]) s2) σ,
                      ([call sid (groqLLM_streamCompletion (h ++ [turn1]));
                        llm sid (GroqLLM.create (h ++ [turn1]))]
                       ++ [call sid (groqLLM_streamCompletion ((h ++ [turn1]) ++ [turn2]));
                           llm sid (GroqLLM.create ((h ++ [turn1]) ++ [turn2]))])
                      ++ (if Nat.eqb (readyState (ws s)) OPEN
                          then [ws_send sid (error (JS.message_or (GroqLLM.wrap cause)
                                                      "LLM processing failed"))] else []),
                      returned tt)).
  { subst r. erewrite bind_returned.
    2:{ erewrite bind_returned by exact H1. cbn beta. rewrite H2. reflexivity. }
    cbn beta. unfold state at 2 3 4. cbn [fst]. rewrite H3. reflexivity. }
  rewrite Hrun. unfold state, trace, outcome, field. cbn [fst snd]. rewrite heap_store.
  cbn [fmap option_fmap option_map set_conversationHistory conversationHistory].
  rewrite calls_app, sent_app. cbn [app calls sent omap list_omap].
  rewrite !String.eqb_refl.
  repeat split.
  - destruct (Nat.eqb _ _); reflexivity.
  - rewrite length_app. cbn. f_equal. lia.
  - destruct (Nat.eqb _ _); cbn; rewrite ?String.eqb_refl; reflexivity.
Qed.

Lemma bind_unfold {A B} (m : M A) (k : A -> M B) (σ : t) :
  bind m k σ
  = match outcome (m σ) with
    | returned a =>
        (state (k a (state (m σ))), trace (m σ) ++ trace (k a (state (m σ))),
         outcome (k a (state (m σ))))
    | thrown e => (state (m σ), trace (m σ), thrown e)
    | suspended => (state (m σ), trace (m σ), suspended)
    end.
Proof.
  unfold bind, state, trace, outcome. destruct (m σ) as [[σ1 l1] [a|e|]]; cbn [fst snd];
    [destruct (k a σ1) as [[σ2 l2] r2]|..]; reflexivity.
Qed.

Lemma sendMessage_quiet (sid : string) (m : ServerMessage) (σ : t) :
  requests_generation (trace (sendMessage sid m σ)) = false
  /\ outcome (sendMessage sid m σ) = returned tt.
Proof.
  unfold sendMessage, with_session, when.
  destruct (heap σ !! sid) as [s|]; [destruct (Nat.eqb _ _)|]; split; reflexivity.
Qed.

Lemma onTranscript_generates (env : Env) (sid : string) (transcript : string)
    (isFinal : bool) (σ : t) :
  requests_generation (trace (onTranscript env sid transcript isFinal σ)) = true ->
  isFinal = true /\ JS.truthy (JS.trim transcript) = true.
Proof.
  unfold onTranscript. rewrite bind_unfold.
  destruct (sendMessage_quiet sid (stt_transcript transcript isFinal) σ) as [Hq Ho].
  rewrite Ho. unfold trace at 1. cbn [fst snd]. unfold requests_generation.
  rewrite existsb_app. fold (requests_generation (trace (sendMessage sid (stt_transcript transcript isFinal) σ))).
  rewrite Hq. cbn [orb].
  destruct isFinal, (JS.truthy (JS.trim transcript)); cbn; auto; discriminate.
Qed.

(** C5. A Transcript event asks a completion of the response pipeline
    only if it is final and its text is not empty once trimmed; a
    transcript that is empty once trimmed leaves no trace at all; and
    the coordinator's own callback makes the same test. *)
Theorem only_final_nonempty_transcripts_generate (env : Env) (σ : t) (sid : string)
    (data : DeepgramSTT.TranscriptData) :
  let text := default "" (DeepgramSTT.alt_transcript data) in
  (requests_generation (trace (handle env (Transcript sid data) σ)) = true ->
   DeepgramSTT.is_final data = Some true /\ JS.truthy (JS.trim text) = true)
  /\ (JS.truthy (JS.trim text) = false -> trace (handle env (Transcript sid data) σ) = [])
  /\ (forall transcript isFinal,
        requests_generation (trace (onTranscript env sid transcript isFinal σ)) = true ->
        isFinal = true /\ JS.truthy (JS.trim transcript) = true).
Proof.
  intros text. split; [|split].
  - unfold handle, with_session. destruct (heap σ !! sid) as [s|]; [|discriminate].
    destruct (deepgramSTT s) as [d|]; [|discriminate].
    unfold DeepgramSTT.on_Transcript.
    replace (JS.or_else (default "" (DeepgramSTT.alt_transcript data)) "") with text
      by (subst text; destruct (default "" (DeepgramSTT.alt_transcript data)); reflexivity).
    destruct (JS.truthy text && JS.truthy (JS.trim text) && DeepgramSTT.onTranscript_set d);
      [|discriminate].
    cbn [stt_dispatch]. rewrite !bind_unfold. cbn [tell outcome snd state fst].
    unfold try_catch.
    pose proof (onTranscript_generates env sid text
                  (default false (DeepgramSTT.is_final data)) σ) as Hgen.
    destruct (onTranscript env sid text (default false (DeepgramSTT.is_final data)) σ)
      as [[σ1 l1] [[]|e|]]; unfold trace in *; cbn [fst snd ret app] in *;
      rewrite ?List.app_nil_r; cbn [requests_generation existsb orb];
      fold (requests_generation l1); intros Hl; destruct (Hgen Hl) as [Hf Ht];
      (split; [|exact Ht]); destruct (DeepgramSTT.is_final data) as [[]|]; cbn in Hf; congruence.
  - intros Hempty. unfold handle, with_session. destruct (heap σ !! sid) as [s|]; [|reflexivity].
    destruct (deepgramSTT s) as [d|]; [|reflexivity].
    unfold DeepgramSTT.on_Transcript.
    replace (JS.or_else (default "" (DeepgramSTT.alt_transcript data)) "") with text
      by (subst text; destruct (default "" (DeepgramSTT.alt_transcript data)); reflexivity).
    rewrite Hempty, andb_false_r. reflexivity.
  - intros transcript isFinal. apply onTranscript_generates.
Qed.

Lemma in_conversation_store (sid : string) (s s' : ClientSession) (σ : t) :
  sid ∈ sessions σ -> isActive s' = true -> present (deepgramSTT s') = true ->
  in_conversation sid (store sid s' σ).
Proof.
  intros Hr Ha Hd. split; [exact Hr|]. exists s'. rewrite heap_store. auto.
Qed.

Lemma marked_ready_store (sid : string) (s : ClientSession) (σ : t) :
  marked_ready sid (store sid s σ) = strictly_true (useWebRTC s).
Proof. unfold marked_ready. rewrite heap_store. reflexivity. Qed.

Lemma stt_sendAudio_at (env : Env) (sid : string) (a : DeepgramSTT.AudioData) (σ : t)
    (s : ClientSession) (d : DeepgramSTT.t) :
  heap σ !! sid = Some s -> deepgramSTT s = Some d ->
  stt_sendAudio env sid a σ
  = (store sid (set_deepgramSTT
                  (Some (fst (DeepgramSTT.sendAudio (Buffer_from_base64 env) a d))) s) σ,
     call sid (deepgramSTT_sendAudio a)
     :: map (stt sid) (snd (DeepgramSTT.sendAudio (Buffer_from_base64 env) a d)),
     returned tt).
Proof.
  intros H Hd. unfold stt_sendAudio, with_session. rewrite H, Hd.
  destruct (DeepgramSTT.sendAudio (Buffer_from_base64 env) a d) as [d' outs].
  cbn [fst snd].
  assert (Hpre : (tell [call sid (deepgramSTT_sendAudio a)]
                  >> update sid (set_deepgramSTT (Some d'))) σ
                 = (store sid (set_deepgramSTT (Some d') s) σ,
                    [call sid (deepgramSTT_sendAudio a)], returned tt)).
  { erewrite bind_returned by reflexivity. rewrite (update_store _ _ _ _ H). reflexivity. }
  erewrite bind_returned by exact Hpre. reflexivity.
Qed.

Lemma on_emitted_in_conversation (env : Env) (sid : string) (x : WebRTCServer.Emitted)
    (σ : t) :
  in_conversation sid σ ->
  in_conversation sid (state (on_emitted env sid x σ))
  /\ (forall b, WebRTCServer.emitted_flag x = Some b -> marked_ready sid (state (on_emitted env sid x σ)) = b).
Proof.
  intros Hin. pose proof Hin as (Hr & s & H & Ha & Hd).
  assert (Hset : forall b,
            registered sid (fun _ => update sid (set_useWebRTC (Some b))) σ
            = (store sid (set_useWebRTC (Some b) s) σ, [], returned tt)).
  { intros b. unfold registered, with_session. rewrite decide_True by exact Hr.
    rewrite H. apply update_store, H. }
  assert (Hflag : forall b, in_conversation sid (store sid (set_useWebRTC (Some b) s) σ)
                            /\ marked_ready sid (store sid (set_useWebRTC (Some b) s) σ) = b).
  { intros b. split; [apply in_conversation_store; assumption|].
    rewrite marked_ready_store. destruct b; reflexivity. }
  destruct x as [| buf | | | c | st |]; cbn [on_emitted WebRTCServer.emitted_flag].
  - split; [exact Hin|discriminate].
  - split; [|discriminate].
    unfold registered, with_session. rewrite decide_True by exact Hr. rewrite H, Hd, Ha.
    destruct (deepgramSTT s) as [d|] eqn:Ed; [|discriminate].
    cbn [andb present]. destruct (strictly_false (useWebRTC s)); cbn [negb when]; [exact Hin|].
    erewrite bind_returned by (apply stt_sendAudio_at; eassumption).
    destruct (strictly_true (useWebRTC s)); cbn [negb when ret state fst].
    + apply in_conversation_store; auto.
    + rewrite (update_store _ _ _ _ (heap_store _ _ _)). cbn [state fst].
      apply in_conversation_store; auto.
  - rewrite Hset. cbn [state fst]. split; [apply Hflag|]. intros b [= <-]. apply Hflag.
  - rewrite Hset. cbn [state fst]. split; [apply Hflag|]. intros b [= <-]. apply Hflag.
  - split; [|discriminate].
    unfold registered, with_session. rewrite decide_True by exact Hr. rewrite H.
    unfold when. destruct (Nat.eqb _ 1); [|exact Hin].
    rewrite (sendMessage_at _ _ _ _ H). exact Hin.
  - rewrite Hset. cbn [state fst]. split; [apply Hflag|].
    intros b Hb. destruct st; injection Hb as <-; apply Hflag.
  - rewrite Hset. cbn [state fst]. split; [apply Hflag|]. intros b [= <-]. apply Hflag.
Qed.

Lemma in_conversation_with_rtc (sid : string) (w : WebRTCServer.t) (σ : t) :
  in_conversation sid σ -> in_conversation sid (with_rtc w σ).
Proof. intros H. exact H. Qed.

Lemma on_emitted_all_in_conversation (env : Env) (sid : string)
    (l : list WebRTCServer.Emitted) : forall σ : t,
  in_conversation sid σ ->
  in_conversation sid (state (on_emitted_all env sid l σ))
  /\ (forall x b, l = [x] -> WebRTCServer.emitted_flag x = Some b ->
        marked_ready sid (state (on_emitted_all env sid l σ)) = b).
Proof.
  induction l as [|x l IH]; intros σ Hin.
  - split; [exact Hin|discriminate].
  - destruct (on_emitted_in_conversation env sid x σ Hin) as [Hin1 Hflag1].
    cbn [on_emitted_all]. rewrite bind_unfold.
    unfold detached at 1. unfold outcome at 1.
    destruct (on_emitted env sid x σ) as [[σ1 l1] r1] eqn:E. cbn [fst snd].
    unfold state at 1 3. unfold detached. rewrite E. cbn [fst snd state] in *.
    destruct (IH σ1 Hin1) as [Hin2 _]. split; [exact Hin2|].
    intros y b [= -> ->] Hb. cbn [on_emitted_all ret fst]. apply Hflag1, Hb.
Qed.

Lemma peer_in_conversation (env : Env) (sid : string) (ev : WebRTCServer.PcEvent) (σ : t) :
  in_conversation sid σ ->
  in_conversation sid (state (handle env (peer sid ev) σ))
  /\ (WebRTCServer.announces_ready ev = true ->
      marked_ready sid (state (handle env (peer sid ev) σ)) = true)
  /\ (WebRTCServer.announces_loss ev = true ->
      marked_ready sid (state (handle env (peer sid ev) σ)) = false).
Proof.
  intros Hin. cbn [handle].
  assert (Hgen : forall w l,
            in_conversation sid (state ((set_webrtcServer w >> on_emitted_all env sid l) σ))
            /\ (forall x b, l = [x] -> WebRTCServer.emitted_flag x = Some b ->
                  marked_ready sid (state ((set_webrtcServer w >> on_emitted_all env sid l) σ)) = b)).
  { intros w l. rewrite bind_unfold. cbn [set_webrtcServer modify outcome snd state fst].
    apply (on_emitted_all_in_conversation env sid l (with_rtc w σ)).
    apply in_conversation_with_rtc, Hin. }
  destruct (WebRTCServer.on_pc_event (Buffer_from_base64 env) sid ev (webrtcServer σ))
    as [w l] eqn:E.
  destruct (Hgen w l) as [Hin' Hflag]. split; [exact Hin'|].
  unfold WebRTCServer.on_pc_event in E.
  split; intros Hev.
  - destruct ev as [|label|label data|label st|c|st|st]; cbn in Hev; try discriminate.
    + apply andb_prop in Hev as [Hl Hs]. rewrite Hl, Hs in E. injection E as <- <-.
      apply (Hflag _ true eq_refl eq_refl).
    + destruct st; try discriminate. injection E as <- <-.
      apply (Hflag _ true eq_refl eq_refl).
  - destruct ev as [|label|label data|label st|c|st|st]; cbn in Hev; try discriminate.
    + apply andb_prop in Hev as [Hl Hs]. rewrite Hl, Hs in E.
      destruct (String.eqb st "open") eqn:Eo.
      { apply String.eqb_eq in Eo, Hs. subst st. discriminate. }
      injection E as <- <-. apply (Hflag _ false eq_refl eq_refl).
    + destruct st; try discriminate; injection E as <- <-;
        apply (Hflag _ false eq_refl eq_refl).
    + destruct st; try discriminate. injection E as <- <-.
      apply (Hflag _ false eq_refl eq_refl).
Qed.

Lemma server_run_app (env : Env) (es1 es2 : list Event) : forall σ : t,
  state (run env (es1 ++ es2) σ) = state (run env es2 (state (run env es1 σ))).
Proof.
  induction es1 as [|e es1 IH]; intros σ; [reflexivity|].
  cbn [app]. rewrite !run_cons. unfold state at 1 3. cbn [fst]. apply IH.
Qed.

Lemma run_snoc (env : Env) (es : list Event) (e : Event) (σ : t) :
  state (run env (es ++ [e]) σ) = state (handle env e (state (run env es σ))).
Proof. rewrite server_run_app, run_cons. reflexivity. Qed.

Lemma run_peers_in_conversation (env : Env) (sid : string)
    (pcs : list WebRTCServer.PcEvent) : forall σ : t,
  in_conversation sid σ -> in_conversation sid (state (run env (map (peer sid) pcs) σ)).
Proof.
  induction pcs as [|ev pcs IH]; intros σ Hin; [exact Hin|].
  cbn [map]. rewrite run_cons. unfold state at 1. cbn [fst].
  apply IH, peer_in_conversation, Hin.
Qed.

Lemma calls_stt (sid sid' : string) (outs : list DeepgramSTT.Out) :
  calls sid (map (stt sid') outs) = [].
Proof. induction outs as [|a outs IH]; [reflexivity|exact IH]. Qed.

Lemma audio_chunk_in_conversation (env : Env) (sid data : string) (σ : t) :
  in_conversation sid σ ->
  calls sid (trace (handle env (message sid (Some (audio_chunk data))) σ))
  = if marked_ready sid σ then []
    else [deepgramSTT_sendAudio (DeepgramSTT.base64 data)].
Proof.
  intros (Hr & s & H & Ha & Hd).
  unfold handle, on_message, handleMessage, try_catch, with_session, marked_ready.
  rewrite H, Ha, Hd. cbn [andb]. destruct (deepgramSTT s) as [d|] eqn:Ed; [|discriminate].
  destruct (strictly_true (useWebRTC s)); cbn [negb when]; [reflexivity|].
  rewrite (stt_sendAudio_at env sid _ σ s d H Ed). unfold trace. cbn [fst snd].
  change (calls sid (call sid (deepgramSTT_sendAudio (DeepgramSTT.base64 data)) :: ?l))
    with (match (if String.eqb sid sid
                 then Some (deepgramSTT_sendAudio (DeepgramSTT.base64 data)) else None) with
          | Some c => c :: calls sid l
          | None => calls sid l
          end).
  rewrite String.eqb_refl, calls_stt. reflexivity.
Qed.

Lemma handleOffer_rejected (factory : JS.Error + WebRTCServer.RTCPeerConnection)
    (id : string) (d : WebRTCServer.Description) (o : WebRTCServer.t)
    (pc : WebRTCServer.RTCPeerConnection) (e : JS.Error) :
  WebRTCServer.peer_for factory id o = Some pc ->
  WebRTCServer.setRemoteDescription pc d = Some e ->
  snd (WebRTCServer.handleOffer factory id (Some d) o) = inl e
  /\ snd (fst (WebRTCServer.handleOffer factory id (Some d) o)) = [].
Proof.
  unfold WebRTCServer.peer_for, WebRTCServer.handleOffer, WebRTCServer.createPeerConnection.
  destruct (WebRTCServer.sessions o !! id) as [existing|].
  - intros [= ->] ->. split; reflexivity.
  - destruct factory as [e0|pc0]; [discriminate|]. intros [= ->] ->. split; reflexivity.
Qed.

Lemma rtc_handleOffer_eq (env : Env) (id : string) (offer : option WebRTCServer.Description)
    (σ : t) :
  rtc_handleOffer env id offer σ
  = (with_rtc (fst (fst (WebRTCServer.handleOffer (new_RTCPeerConnection env) id offer
                           (webrtcServer σ)))) σ,
     call id (webrtcServer_handleOffer offer)
     :: map rtc (snd (fst (WebRTCServer.handleOffer (new_RTCPeerConnection env) id offer
                             (webrtcServer σ)))),
     match snd (WebRTCServer.handleOffer (new_RTCPeerConnection env) id offer
                  (webrtcServer σ)) with
     | inl e => thrown e
     | inr a => returned a
     end).
Proof.
  unfold rtc_handleOffer.
  destruct (WebRTCServer.handleOffer (new_RTCPeerConnection env) id offer (webrtcServer σ))
    as [[w outs] r].
  cbn [fst snd]. rewrite !bind_unfold.
  cbn [tell set_webrtcServer modify outcome state trace fst snd app].
  destruct r as [e|a]; cbn; rewrite List.app_nil_r; reflexivity.
Qed.

Lemma handleWebRTCOffer_at (env : Env) (sid : string) (offer : option WebRTCServer.Description)
    (σ : t) (s : ClientSession) :
  heap σ !! sid = Some s ->
  let R := WebRTCServer.handleOffer (new_RTCPeerConnection env) (sessionId s) offer
             (webrtcServer σ) in
  handleWebRTCOffer env sid offer σ
  = (with_rtc (fst (fst R)) (store sid (set_useWebRTC (Some true) s) σ),
     (call (sessionId s) (webrtcServer_handleOffer offer) :: map rtc (snd (fst R)))
     ++ (if Nat.eqb (readyState (ws s)) OPEN
         then [ws_send sid match snd R with
                           | inl e => error ("WebRTC setup error: " +:+ JS.message_text e)
                           | inr a => webrtc_answer a
                           end]
         else []),
     returned tt).
Proof.
  intros H R. unfold handleWebRTCOffer. unfold with_session at 1. rewrite H.
  unfold try_catch.
  assert (Hs : forall m, sendMessage sid m
                 (with_rtc (fst (fst R)) (store sid (set_useWebRTC (Some true) s) σ))
               = (with_rtc (fst (fst R)) (store sid (set_useWebRTC (Some true) s) σ),
                  if Nat.eqb (readyState (ws s)) OPEN then [ws_send sid m] else [],
                  returned tt)).
  { intros m. apply (sendMessage_at sid m _ (set_useWebRTC (Some true) s)).
    cbn [with_rtc heap]. apply heap_store. }
  erewrite (bind_returned (update sid (set_useWebRTC (Some true))))
    by (apply update_store; exact H).
  rewrite bind_unfold, rtc_handleOffer_eq. cbn [webrtcServer store]. fold R.
  unfold state, trace, outcome. cbn [fst snd].
  destruct (snd R) as [e|a]; cbn [fst snd app].
  - unfold sendError. rewrite Hs. reflexivity.
  - rewrite Hs. cbn [fst snd]. reflexivity.
Qed.

Lemma sent_calls_rtc (sid : string) (id : string) (c : Call) (outs : list WebRTCServer.Out) :
  sent sid (call id c :: map rtc outs) = [].
Proof.
  unfold sent. cbn [omap]. induction outs as [|a outs IH]; [reflexivity|exact IH].
Qed.

(** For a registered active session with its recognition bridge,
    an [audio_chunk] of the control channel is handed to the bridge
    exactly when the transport is not marked ready. After any run of
    reports of the peer connection the last report decides: once it
    announces the data channel open or the connection connected the
    chunk is ignored, once it announces a loss the chunk is handed
    over again. An offer marks the transport ready as well. *)
Lemma fallback_audio_follows_transport (env : Env) (σ : t) (sid : string) :
  in_conversation sid σ ->
  (forall data,
     calls sid (trace (handle env (message sid (Some (audio_chunk data))) σ))
     = if marked_ready sid σ then []
       else [deepgramSTT_sendAudio (DeepgramSTT.base64 data)])
  /\ (forall pcs ev data,
        let σ' := state (run env (map (peer sid) (pcs ++ [ev])) σ) in
        (WebRTCServer.announces_ready ev = true ->
         calls sid (trace (handle env (message sid (Some (audio_chunk data))) σ')) = [])
        /\ (WebRTCServer.announces_loss ev = true ->
            calls sid (trace (handle env (message sid (Some (audio_chunk data))) σ'))
            = [deepgramSTT_sendAudio (DeepgramSTT.base64 data)]))
  /\ (forall offer,
        marked_ready sid (state (handle env (message sid (Some (webrtc_offer offer))) σ))
        = true).
Proof.
  intros Hin. split; [|split].
  - intros data. apply audio_chunk_in_conversation, Hin.
  - intros pcs ev data σ'. subst σ'. rewrite map_app. cbn [map]. rewrite run_snoc.
    pose proof (run_peers_in_conversation env sid pcs σ Hin) as Hin1.
    destruct (peer_in_conversation env sid ev _ Hin1) as (Hin2 & Hready & Hloss).
    split; intros Hev; rewrite (audio_chunk_in_conversation env sid data _ Hin2).
    + rewrite (Hready Hev). reflexivity.
    + rewrite (Hloss Hev). reflexivity.
  - intros offer. destruct Hin as (_ & s & H & _).
    unfold handle, on_message, handleMessage, try_catch.
    rewrite (handleWebRTCOffer_at env sid offer σ s H).
    unfold state, marked_ready, with_rtc. cbn [fst heap]. rewrite heap_store. reflexivity.
Qed.

(** An offer for which [handleOffer] returns is answered, and no error
    is written. *)
Lemma accepted_offer_is_answered (env : Env) (σ : t) (sid : string) (s : ClientSession)
    (offer : option WebRTCServer.Description) (answer : WebRTCServer.Description) :
  heap σ !! sid = Some s ->
  snd (WebRTCServer.handleOffer (new_RTCPeerConnection env) (sessionId s) offer
         (webrtcServer σ)) = inr answer ->
  sent sid (trace (handle env (message sid (Some (webrtc_offer offer))) σ))
  = (if Nat.eqb (readyState (ws s)) OPEN then [webrtc_answer answer] else []).
Proof.
  intros H Hr.
  unfold handle, on_message, handleMessage, try_catch.
  rewrite (handleWebRTCOffer_at env sid offer σ s H), Hr.
  unfold trace. cbn [fst snd]. rewrite sent_app, sent_calls_rtc. cbn [app].
  destruct (Nat.eqb _ _); cbn; rewrite ?String.eqb_refl; reflexivity.
Qed.

(** Whenever [handleOffer] throws, as it does when the peer
    connection rejects the description, the peer is written one
    [error] message (if the socket is open) and no [webrtc_answer],
    and the handler returns. *)
Lemma rejected_offer_is_reported (env : Env) (σ : t) (sid : string) (s : ClientSession)
    (offer : option WebRTCServer.Description) (e : JS.Error) :
  heap σ !! sid = Some s ->
  snd (WebRTCServer.handleOffer (new_RTCPeerConnection env) (sessionId s) offer
         (webrtcServer σ)) = inl e ->
  let r := handle env (message sid (Some (webrtc_offer offer))) σ in
  sent sid (trace r)
  = (if Nat.eqb (readyState (ws s)) OPEN
     then [error ("WebRTC setup error: " +:+ JS.message_text e)] else [])
  /\ (readyState (ws s) = OPEN -> offer_refused sid (trace r) = true)
  /\ outcome r = returned tt.
Proof.
  intros H Hr r. subst r.
  unfold handle, on_message, handleMessage, try_catch.
  rewrite (handleWebRTCOffer_at env sid offer σ s H), Hr.
  unfold trace, outcome, offer_refused. cbn [fst snd]. rewrite sent_app, sent_calls_rtc.
  cbn [app]. repeat split.
  - destruct (Nat.eqb _ _); cbn; rewrite ?String.eqb_refl; reflexivity.
  - intros ->. cbn. rewrite String.eqb_refl. reflexivity.
Qed.

(** [handleOffer] on a description the peer connection refuses, or
    without a peer connection to work on. *)
Lemma handleOffer_refused (factory : JS.Error + WebRTCServer.RTCPeerConnection)
    (id : string) (d : WebRTCServer.Description) (o : WebRTCServer.t) :
  (forall pc, WebRTCServer.peer_for factory id o = Some pc ->
              WebRTCServer.setRemoteDescription pc d <> None) ->
  exists e : JS.Error,
    snd (WebRTCServer.handleOffer factory id (Some d) o) = inl e
    /\ snd (fst (WebRTCServer.handleOffer factory id (Some d) o)) = [].
Proof.
  intros Hpc. destruct (WebRTCServer.peer_for factory id o) as [pc|] eqn:E.
  - destruct (WebRTCServer.setRemoteDescription pc d) as [e|] eqn:Er.
    + exists e. exact (handleOffer_rejected factory id d o pc e E Er).
    + destruct (Hpc pc eq_refl Er).
  - revert E. unfold WebRTCServer.peer_for, WebRTCServer.handleOffer,
      WebRTCServer.createPeerConnection.
    destruct (WebRTCServer.sessions o !! id) as [existing|]; [discriminate|].
    destruct factory as [e0|pc0]; [|discriminate]. intros _. exists e0. split; reflexivity.
Qed.

(** C7. An offer whose SDP is empty, for any session, the peer
    connections validating the description as werift's do:
    [handleOffer] throws without a call reaching further than
    [setRemoteDescription], the peer is written one [error] message
    ('WebRTC setup error: ' and the cause; nothing when its socket is
    no longer open, [sendMessage] writing to open sockets only), no
    [webrtc_answer] is written, and the handler returns. *)
Theorem empty_sdp_offer_is_refused (env : Env) (σ : t) (sid : string) (s : ClientSession)
    (offer : WebRTCServer.Description) :
  heap σ !! sid = Some s ->
  WebRTCServer.sdp offer = "" ->
  (forall pc, WebRTCServer.peer_for (new_RTCPeerConnection env) (sessionId s)
                (webrtcServer σ) = Some pc -> WebRTCServer.validates_sdp pc) ->
  let r := handle env (message sid (Some (webrtc_offer (Some offer)))) σ in
  exists e : JS.Error,
    snd (WebRTCServer.handleOffer (new_RTCPeerConnection env) (sessionId s) (Some offer)
           (webrtcServer σ)) = inl e
    /\ sent sid (trace r)
       = (if Nat.eqb (readyState (ws s)) OPEN
          then [error ("WebRTC setup error: " +:+ JS.message_text e)] else [])
    /\ existsb is_webrtc_answer (sent sid (trace r)) = false
    /\ (readyState (ws s) = OPEN -> offer_refused sid (trace r) = true)
    /\ outcome r = returned tt.
Proof.
  intros H Hsdp Hpc r.
  destruct (handleOffer_refused (new_RTCPeerConnection env) (sessionId s) offer
              (webrtcServer σ)) as (e & He & _).
  { intros pc Hfor. apply (Hpc pc Hfor). rewrite Hsdp. reflexivity. }
  exists e. split; [exact He|].
  destruct (rejected_offer_is_reported env σ sid s (Some offer) e H He) as (Hsent & Hr & Hout).
  fold r in Hsent, Hr, Hout. split; [exact Hsent|]. split; [|split; assumption].
  rewrite Hsent. destruct (Nat.eqb _ _); reflexivity.
Qed.

Lemma rtc_cleanup_eq (env : Env) (sid : string) (σ : t) :
  rtc_cleanup sid σ
  = (with_rtc (fst (fst (WebRTCServer.cleanup sid (webrtcServer σ)))) σ,
     call sid webrtcServer_cleanup
     :: map rtc (snd (fst (WebRTCServer.cleanup sid (webrtcServer σ)))),
     match snd (WebRTCServer.cleanup sid (webrtcServer σ)) with
     | Some e => thrown e
     | None => returned tt
     end).
Proof.
  unfold rtc_cleanup.
  destruct (WebRTCServer.cleanup sid (webrtcServer σ)) as [[w outs] err].
  cbn [fst snd]. rewrite !bind_unfold.
  cbn [tell set_webrtcServer modify outcome state trace fst snd app].
  destruct err as [e|]; cbn; rewrite List.app_nil_r; reflexivity.
Qed.

Lemma stt_stop_at (sid : string) (σ : t) (s : ClientSession) (d : DeepgramSTT.t) :
  heap σ !! sid = Some s -> deepgramSTT s = Some d ->
  stt_stop sid σ
  = (store sid (set_deepgramSTT (Some (fst (DeepgramSTT.stop d))) s) σ,
     call sid deepgramSTT_stop :: map (stt sid) (snd (DeepgramSTT.stop d)),
     returned tt).
Proof.
  intros H Hd. unfold stt_stop, with_session. rewrite H, Hd.
  destruct (DeepgramSTT.stop d) as [d' outs]. cbn [fst snd].
  assert (Hpre : (tell [call sid deepgramSTT_stop] >> update sid (set_deepgramSTT (Some d'))) σ
                 = (store sid (set_deepgramSTT (Some d') s) σ,
                    [call sid deepgramSTT_stop], returned tt)).
  { erewrite bind_returned by reflexivity. rewrite (update_store _ _ _ _ H). reflexivity. }
  erewrite bind_returned by exact Hpre. reflexivity.
Qed.

Lemma calls_call (sid : string) (c : Call) (l : list Effect) :
  calls sid (call sid c :: l) = c :: calls sid l.
Proof. unfold calls. cbn [omap list_omap]. rewrite String.eqb_refl. reflexivity. Qed.

Lemma calls_rtc (sid : string) (a : list WebRTCServer.Out) : calls sid (map rtc a) = [].
Proof. induction a as [|x a IH]; [reflexivity|exact IH]. Qed.

Lemma calls_ws_send (sid : string) (b : bool) (m : ServerMessage) :
  calls sid (if b then [ws_send sid m] else []) = [].
Proof. destruct b; reflexivity. Qed.

Lemma when_present_stt_stop (sid : string) (σ : t) (s : ClientSession) :
  heap σ !! sid = Some s ->
  exists l,
    when (present (deepgramSTT s)) (stt_stop sid) σ
    = (store sid (set_deepgramSTT ((fun d => fst (DeepgramSTT.stop d)) <$> deepgramSTT s) s) σ,
       l, returned tt)
    /\ calls sid l = (if present (deepgramSTT s) then [deepgramSTT_stop] else [])
    /\ sent sid l = [].
Proof.
  intros H. destruct (deepgramSTT s) as [d|] eqn:Ed; cbn [present when fmap option_fmap option_map].
  - eexists. split; [apply (stt_stop_at sid σ s d H Ed)|].
    rewrite calls_call, calls_stt. split; [reflexivity|].
    unfold sent. cbn [omap list_omap]. induction (snd (DeepgramSTT.stop d)); [reflexivity|assumption].
  - exists []. split; [|split; reflexivity].
    unfold ret. rewrite store_same; [reflexivity|]. rewrite H. destruct s; cbn in *; subst; reflexivity.
Qed.

Lemma when_present_llm_stop (sid : string) (σ : t) (s : ClientSession) :
  heap σ !! sid = Some s ->
  when (present (groqLLM s)) (llm_stop sid) σ
  = (store sid (set_groqLLM (GroqLLM.stop <$> groqLLM s) s) σ,
     if present (groqLLM s) then [call sid groqLLM_stop] else [], returned tt).
Proof.
  intros H. destruct (groqLLM s) as [g|] eqn:Eg; cbn [present when].
  - rewrite (llm_stop_at sid σ s H), Eg. reflexivity.
  - unfold ret. rewrite store_same; [reflexivity|]. rewrite H. destruct s; cbn in *; subst; reflexivity.
Qed.

Lemma cleanupSession_runs (env : Env) (sid : string) (σ : t) (s : ClientSession) :
  sid ∈ sessions σ -> heap σ !! sid = Some s ->
  snd (WebRTCServer.cleanup sid (webrtcServer σ)) = None ->
  exists l,
    cleanupSession sid σ
    = (torn_down sid (released s) (fst (fst (WebRTCServer.cleanup sid (webrtcServer σ)))) σ,
       l, returned tt)
    /\ calls sid l = release_calls s
    /\ sent sid l = [].
Proof.
  intros Hr H Hok. unfold cleanupSession. rewrite decide_True by exact Hr.
  unfold with_session at 1. rewrite H.
  set (w := fst (fst (WebRTCServer.cleanup sid (webrtcServer σ)))).
  set (s1 := set_isActive false s).
  set (s2 := set_deepgramSTT ((fun d => fst (DeepgramSTT.stop d)) <$> deepgramSTT s) s1).
  assert (E1 : (update sid (set_isActive false) >> rtc_cleanup sid) σ
               = (with_rtc w (store sid s1 σ),
                  call sid webrtcServer_cleanup
                  :: map rtc (snd (fst (WebRTCServer.cleanup sid (webrtcServer σ)))),
                  returned tt)).
  { erewrite bind_returned by (apply update_store; exact H).
    rewrite (rtc_cleanup_eq env). cbn [webrtcServer store]. rewrite Hok. reflexivity. }
  assert (H1 : heap (with_rtc w (store sid s1 σ)) !! sid = Some s1)
    by (cbn [with_rtc heap]; apply heap_store).
  destruct (when_present_stt_stop sid _ s1 H1) as (l2 & E2 & C2 & S2).
  change (deepgramSTT s1) with (deepgramSTT s) in E2, C2. fold s2 in E2.
  assert (H2 : heap (store sid s2 (with_rtc w (store sid s1 σ))) !! sid = Some s2)
    by apply heap_store.
  pose proof (when_present_llm_stop sid _ s2 H2) as E3.
  change (groqLLM s2) with (groqLLM s) in E3.
  set (front := call sid webrtcServer_cleanup
                :: map rtc (snd (fst (WebRTCServer.cleanup sid (webrtcServer σ))))) in *.
  assert (E12 : (update sid (set_isActive false) >> rtc_cleanup sid
                 >> when (present (deepgramSTT s)) (stt_stop sid)) σ
                = (store sid s2 (with_rtc w (store sid s1 σ)), front ++ l2, returned tt)).
  { erewrite bind_returned by exact E1. rewrite E2. reflexivity. }
  assert (E123 : (update sid (set_isActive false) >> rtc_cleanup sid
                  >> when (present (deepgramSTT s)) (stt_stop sid)
                  >> when (present (groqLLM s)) (llm_stop sid)) σ
                 = (store sid (set_groqLLM (GroqLLM.stop <$> groqLLM s) s2)
                      (store sid s2 (with_rtc w (store sid s1 σ))),
                    (front ++ l2)
                    ++ (if present (groqLLM s) then [call sid groqLLM_stop] else []),
                    returned tt)).
  { erewrite bind_returned by exact E12. rewrite E3. reflexivity. }
  exists ((front ++ l2) ++ (if present (groqLLM s) then [call sid groqLLM_stop] else [])).
  split.
  - erewrite bind_returned by exact E123.
    unfold state, trace, outcome, modify, torn_down, with_rtc, store, released.
    cbn [fst snd heap sessions webrtcServer]. fold s1. fold s2.
    rewrite !insert_insert_eq, List.app_nil_r. reflexivity.
  - rewrite !calls_app, !sent_app, C2, S2. subst front.
    rewrite calls_call, calls_rtc, (sent_calls_rtc sid sid).
    split.
    + unfold release_calls.
      destruct (present (groqLLM s)), (present (deepgramSTT s)); rewrite ?calls_call; reflexivity.
    + destruct (present (groqLLM s)); reflexivity.
Qed.

Lemma torn_down_fields (sid : string) (s : ClientSession) (w : WebRTCServer.t) (σ : t) :
  (sid ∉ sessions (torn_down sid (released s) w σ))
  /\ field isActive sid (torn_down sid (released s) w σ) = Some false
  /\ field (fun x => GroqLLM.currentStream <$> groqLLM x) sid
       (torn_down sid (released s) w σ) = Some ((fun _ => None) <$> groqLLM s)
  /\ field (fun x => DeepgramSTT.connection <$> deepgramSTT x) sid
       (torn_down sid (released s) w σ) = Some ((fun _ => None) <$> deepgramSTT s).
Proof.
  unfold field, torn_down, released. cbn [sessions heap]. rewrite lookup_insert_eq.
  cbn [fmap option_fmap option_map isActive groqLLM deepgramSTT set_groqLLM set_deepgramSTT
       set_isActive].
  repeat split.
  - intros Hin. apply elem_of_difference in Hin as [_ Hn].
    apply Hn, elem_of_singleton. reflexivity.
  - destruct (groqLLM s) as [g|]; cbn; [|reflexivity].
    do 2 f_equal. apply Pipeline.stop_clears.
  - destruct (deepgramSTT s) as [d|]; cbn; [|reflexivity].
    unfold DeepgramSTT.stop. destruct (DeepgramSTT.connection d) eqn:Ec; cbn; [reflexivity|].
    rewrite Ec. reflexivity.
Qed.

(** C8, as the code has it. On [stop_conversation] for an active
    session, on the close of the socket and on its error, for a
    registered session whose transport cleanup returns: the release
    calls are, in order, the transport negotiator, then the
    recognition bridge and the response pipeline if the session has
    them; the session leaves the registry, is inactive, and its bridge
    and pipeline hold no connection and no stream, whether or not the
    engine's [finish()] throws. *)
Theorem teardown_releases_transport_first (env : Env) (σ : t) (sid : string)
    (s : ClientSession) (e : Event) :
  sid ∈ sessions σ -> heap σ !! sid = Some s -> sessionId s = sid ->
  snd (WebRTCServer.cleanup sid (webrtcServer σ)) = None ->
  teardown_trigger sid e = true ->
  (e = message sid (Some stop_conversation) -> isActive s = true) ->
  let r := handle env e σ in
  calls sid (trace r) = release_calls s
  /\ (sid ∉ sessions (state r))
  /\ field isActive sid (state r) = Some false
  /\ field (fun x => GroqLLM.currentStream <$> groqLLM x) sid (state r)
     = Some ((fun _ => None) <$> groqLLM s)
  /\ field (fun x => DeepgramSTT.connection <$> deepgramSTT x) sid (state r)
     = Some ((fun _ => None) <$> deepgramSTT s).
Proof.
  intros Hr H Hid Hok He Ha r. subst r.
  set (w := fst (fst (WebRTCServer.cleanup sid (webrtcServer σ)))).
  assert (Hcases : e = message sid (Some stop_conversation) \/ e = close sid
                   \/ e = socket_error sid).
  { destruct e as [s0|s0 frame|s0|s0|s0 dt|s0|s0 ev]; try discriminate He.
    - destruct frame as [m|]; [destruct m|]; try discriminate He.
      apply String.eqb_eq in He. subst s0. auto.
    - apply String.eqb_eq in He. subst s0. auto.
    - apply String.eqb_eq in He. subst s0. auto. }
  clear He. destruct Hcases as [->|[->| ->]].
  - (* stop_conversation *)
    specialize (Ha eq_refl).
    destruct (cleanupSession_runs env sid σ s Hr H Hok) as (l & Hc & Hcalls & _).
    assert (Hrun : handle env (message sid (Some stop_conversation)) σ
                   = (torn_down sid (released s) w σ,
                      l ++ (if Nat.eqb (readyState (ws s)) OPEN
                            then [ws_send sid conversation_stopped] else []),
                      returned tt)).
    { unfold handle, on_message, handleMessage, try_catch, stopConversation.
      unfold with_session at 1. rewrite H, Ha, Hid. cbn [negb].
      erewrite bind_returned by exact Hc.
      rewrite (sendMessage_at sid _ _ (released s))
        by (unfold torn_down; cbn [heap]; apply lookup_insert_eq).
      reflexivity. }
    rewrite Hrun. split.
    + unfold trace. cbn [fst snd]. rewrite calls_app, Hcalls, calls_ws_send.
      apply List.app_nil_r.
    + apply torn_down_fields.
  - (* close *)
    set (s' := set_ws {| readyState := CLOSED |} s).
    destruct (cleanupSession_runs env sid (store sid s' σ) s' Hr (heap_store _ _ _) Hok)
      as (l & Hc & Hcalls & _).
    assert (Hrun : handle env (close sid) σ = (torn_down sid (released s') w σ, l, returned tt)).
    { unfold handle, on_close.
      erewrite bind_returned by (apply update_store; exact H).
      unfold with_session. rewrite heap_store. fold s'.
      replace (sessionId s') with sid by (symmetry; exact Hid).
      unfold detached. rewrite Hc.
      unfold state, trace, outcome, torn_down, store.
      cbn [fst snd heap sessions webrtcServer app]. rewrite insert_insert_eq. reflexivity. }
    rewrite Hrun. split; [exact Hcalls|]. apply (torn_down_fields sid s' w σ).
  - (* socket error *)
    destruct (cleanupSession_runs env sid σ s Hr H Hok) as (l & Hc & Hcalls & _).
    assert (Hrun : handle env (socket_error sid) σ
                   = (torn_down sid (released s) w σ, l, returned tt)).
    { unfold handle, on_error, with_session. rewrite H, Hid. unfold detached.
      rewrite Hc. reflexivity. }
    rewrite Hrun. split; [exact Hcalls|]. apply torn_down_fields.
Qed.

(** C10. A further [start_conversation] for a session that is
    active changes nothing and writes nothing. *)
Theorem start_when_active_is_noop (env : Env) (σ : t) (sid : string) (s : ClientSession) :
  heap σ !! sid = Some s -> isActive s = true ->
  handle env (message sid (Some start_conversation)) σ = (σ, [], returned tt).
Proof.
  intros H Ha.
  unfold handle, on_message, handleMessage, try_catch, startConversation, with_session.
  rewrite H, Ha. reflexivity.
Qed.

Lemma start_when_active_is_noop_witness :
  handle Sample.env (message "s1" (Some start_conversation))
    (Sample.server_with Sample.talking)
  = (Sample.server_with Sample.talking, [], returned tt).
Proof.
  apply (start_when_active_is_noop Sample.env _ "s1" Sample.talking); reflexivity.
Defined.

(** C1 as stated fails: two interrupts in a row write two
    [interrupted] messages, not one. *)
Lemma two_interrupts_two_messages :
  length (List.filter is_interrupted
            (sent "s1" (trace (run Sample.env Sample.two_interrupts
                                 (Sample.server_with Sample.talking))))) <> 1.
Proof. vm_compute. discriminate. Qed.

Lemma interrupt_each_time_witness :
  heap (Sample.server_with Sample.talking) !! "s1" = Some Sample.talking
  /\ sent "s1" (trace (run Sample.env Sample.two_interrupts
                         (Sample.server_with Sample.talking)))
     = [interrupted; interrupted].
Proof.
  split; [reflexivity|].
  exact (proj1 (proj2 (interrupt_each_time Sample.env (Sample.server_with Sample.talking)
                         "s1" Sample.talking eq_refl))).
Defined.

Lemma failed_generation_rolls_back_witness :
  field conversationHistory "s1"
    (state (processLLM Sample.env_failing "s1" "  what about the weather "
              (Sample.server_with Sample.talking)))
  = Some Sample.hello.
Proof.
  exact (proj1 (failed_generation_rolls_back Sample.env_failing
                  (Sample.server_with Sample.talking) "s1" Sample.talking Sample.streaming
                  "  what about the weather " (GroqLLM.wrap Sample.rate_limited)
                  eq_refl eq_refl eq_refl eq_refl eq_refl)).
Defined.

Lemma overlapping_failure_keeps_failed_turn_witness :
  let r := (processLLM_enter "s1" "  what about the weather "
            >> processLLM_enter "s1" "and tomorrow"
            >> processLLM_rejected "s1" Sample.rate_limited)
             (Sample.server_with Sample.talking) in
  field conversationHistory "s1" (state r)
  = Some (Sample.hello ++ [{| role := user; content := "what about the weather" |}])
  /\ (length <$> field conversationHistory "s1" (state r)) = Some (S (length Sample.hello))
  /\ sent "s1" (trace r) = [error "Groq LLM error: 429 rate limit"].
Proof.
  destruct (overlapping_failure_keeps_failed_turn (Sample.server_with Sample.talking) "s1"
              Sample.talking Sample.streaming "  what about the weather " "and tomorrow"
              Sample.rate_limited eq_refl eq_refl eq_refl eq_refl eq_refl)
    as (_ & Hhistory & Hlength & Hsent & _).
  split; [exact Hhistory|]. split; [exact Hlength|exact Hsent].
Defined.

Lemma only_final_nonempty_transcripts_generate_witness :
  requests_generation
    (trace (handle Sample.env (Transcript "s1" Sample.question)
              (Sample.server_with Sample.talking))) = true
  /\ DeepgramSTT.is_final Sample.question = Some true
  /\ trace (handle Sample.env (Transcript "s1" Sample.silence)
              (Sample.server_with Sample.talking)) = [].
Proof.
  pose proof (only_final_nonempty_transcripts_generate Sample.env
                (Sample.server_with Sample.talking) "s1" Sample.question) as [Hq _].
  pose proof (only_final_nonempty_transcripts_generate Sample.env
                (Sample.server_with Sample.talking) "s1" Sample.silence) as [_ [Hs _]].
  split; [reflexivity|]. split; [exact (proj1 (Hq eq_refl))|exact (Hs eq_refl)].
Defined.

Lemma talking_in_conversation :
  in_conversation "s1" (Sample.server_with_peer Sample.talking).
Proof.
  split.
  - reflexivity.
  - exists Sample.talking. repeat split.
Qed.

Lemma fallback_audio_follows_transport_witness :
  calls "s1"
    (trace (handle Sample.env (message "s1" (Some (audio_chunk "AAAA")))
              (Sample.server_with_peer Sample.talking)))
  = [deepgramSTT_sendAudio (DeepgramSTT.base64 "AAAA")]
  /\ calls "s1"
       (trace (handle Sample.env (message "s1" (Some (audio_chunk "AAAA")))
                 (state (run Sample.env
                           (map (peer "s1")
                              ([WebRTCServer.connectionStateChange_to WebRTCServer.failed]
                               ++ [WebRTCServer.channel_stateChanged "audio" "open"]))
                           (Sample.server_with_peer Sample.talking)))))
     = []
  /\ calls "s1"
       (trace (handle Sample.env (message "s1" (Some (audio_chunk "AAAA")))
                 (state (run Sample.env
                           (map (peer "s1")
                              ([WebRTCServer.channel_stateChanged "audio" "open"]
                               ++ [WebRTCServer.channel_stateChanged "audio" "closed"]))
                           (Sample.server_with_peer Sample.talking)))))
     = [deepgramSTT_sendAudio (DeepgramSTT.base64 "AAAA")].
Proof.
  pose proof (fallback_audio_follows_transport Sample.env
                (Sample.server_with_peer Sample.talking) "s1" talking_in_conversation)
    as (Hnow & Hlater & _).
  split; [exact (Hnow "AAAA")|]. split.
  - exact (proj1 (Hlater [WebRTCServer.connectionStateChange_to WebRTCServer.failed]
                    (WebRTCServer.channel_stateChanged "audio" "open") "AAAA") eq_refl).
  - exact (proj2 (Hlater [WebRTCServer.channel_stateChanged "audio" "open"]
                    (WebRTCServer.channel_stateChanged "audio" "closed") "AAAA") eq_refl).
Defined.

Lemma strict_validates_sdp : WebRTCServer.validates_sdp Sample.strict.
Proof. intros d Hd. cbn. rewrite Hd. discriminate. Qed.

Lemma empty_sdp_offer_is_refused_witness :
  let r := handle Sample.env
             (message "s1" (Some (webrtc_offer (Some Sample.empty_offer))))
             (Sample.server_with Sample.talking) in
  exists e : JS.Error,
    snd (WebRTCServer.handleOffer (new_RTCPeerConnection Sample.env) "s1"
           (Some Sample.empty_offer) (webrtcServer (Sample.server_with Sample.talking)))
    = inl e
    /\ sent "s1" (trace r)
       = [error ("WebRTC setup error: " +:+ JS.message_text e)]
    /\ existsb is_webrtc_answer (sent "s1" (trace r)) = false
    /\ (OPEN = OPEN -> offer_refused "s1" (trace r) = true)
    /\ outcome r = returned tt.
Proof.
  refine (empty_sdp_offer_is_refused Sample.env (Sample.server_with Sample.talking) "s1"
            Sample.talking Sample.empty_offer eq_refl eq_refl _).
  intros pc Hpc. vm_compute in Hpc. injection Hpc as <-. exact strict_validates_sdp.
Defined.

Lemma rejected_offer_is_reported_witness :
  WebRTCServer.setRemoteDescription Sample.strict Sample.empty_offer
  = Some Sample.invalid_sdp
  /\ sent "s1" (trace (handle Sample.env_strict
                         (message "s1" (Some (webrtc_offer (Some Sample.empty_offer))))
                         (Sample.server_with Sample.talking)))
     = [error "WebRTC setup error: invalid sessionDescription"].
Proof.
  split; [reflexivity|].
  exact (proj1 (rejected_offer_is_reported Sample.env_strict
                  (Sample.server_with Sample.talking) "s1" Sample.talking
                  (Some Sample.empty_offer) Sample.invalid_sdp eq_refl eq_refl)).
Defined.

(** C8 as stated fails: the transport negotiator is released first,
    not last. *)
Lemma teardown_order_differs :
  List.filter is_release
    (calls "s1" (trace (handle Sample.env (message "s1" (Some stop_conversation))
                          (Sample.server_with_peer Sample.talking))))
  <> [deepgramSTT_stop; groqLLM_stop; webrtcServer_cleanup].
Proof. vm_compute. discriminate. Qed.

(** A [close()] that throws stops [cleanupSession] before the
    recognition bridge and the response pipeline are released: the
    session stays registered and the peer is told of a malformed
    message. *)
Lemma transport_close_failure_stops_cleanup :
  let r := handle Sample.env (message "s1" (Some stop_conversation))
             (Sample.server_with_brittle_peer Sample.talking) in
  calls "s1" (trace r) = [webrtcServer_cleanup]
  /\ sent "s1" (trace r) = [error "Invalid message format"]
  /\ sessions (state r) = {[ "s1" ]}.
Proof. repeat split. Qed.

Lemma teardown_releases_transport_first_witness :
  teardown_trigger "s1" (message "s1" (Some stop_conversation)) = true
  /\ calls "s1" (trace (handle Sample.env (message "s1" (Some stop_conversation))
                          (Sample.server_with_peer Sample.talking)))
     = [webrtcServer_cleanup; deepgramSTT_stop; groqLLM_stop].
Proof.
  split; [reflexivity|].
  assert (Hreg : "s1" ∈ sessions (Sample.server_with_peer Sample.talking))
    by reflexivity.
  exact (proj1 (teardown_releases_transport_first Sample.env
                  (Sample.server_with_peer Sample.talking) "s1" Sample.talking
                  (message "s1" (Some stop_conversation))
                  Hreg eq_refl eq_refl eq_refl eq_refl (fun _ => eq_refl))).
Defined.

End Coordinator.

(** ** The recognition bridge *)

Module Bridge.

Import DeepgramSTT.

(** Whether [sendAudio] sends or queues. *)
Lemma sendAudio_queues (from_base64 : string -> Buffer) (a : AudioData) (o : t) :
  isConnectionReady o = false \/ connection o = None ->
  sendAudio from_base64 a o
  = (if nonempty (decode from_base64 a)
     then set_audioQueue
            (if capacity <? length (audioQueue o ++ [decode from_base64 a])
             then tail (audioQueue o ++ [decode from_base64 a])
             else audioQueue o ++ [decode from_base64 a]) o
     else o, []).
Proof.
  intros Hq. unfold sendAudio, nonempty. fold (decode from_base64 a).
  destruct (Nat.eqb (length (decode from_base64 a)) 0); cbn [negb]; [reflexivity|].
  destruct Hq as [Hq|Hq]; rewrite Hq; [reflexivity|].
  destruct (isConnectionReady o); reflexivity.
Qed.

Lemma newest_all {A} (n : nat) (l : list A) : length l <= n -> newest n l = l.
Proof. intros H. unfold newest. replace (length l - n) with 0 by lia. reflexivity. Qed.

Lemma newest_length {A} (n : nat) (l : list A) : length (newest n l) <= n.
Proof. unfold newest. rewrite length_skipn. lia. Qed.

Lemma newest_tail {A} (n : nat) (l rest : list A) :
  n < length l -> newest n (tail l ++ rest) = newest n (l ++ rest).
Proof.
  intros H. destruct l as [|x l]; [cbn in H; lia|].
  unfold newest. cbn [tail length app] in *. rewrite !length_app in *.
  replace (S (length l + length rest) - n) with (S (length l + length rest - n)) by lia.
  reflexivity.
Qed.

(** Submissions to a bridge that is not sending. *)
Lemma feed_queues (from_base64 : string -> Buffer) (datas : list AudioData) :
  forall o : t,
    isConnectionReady o = false \/ connection o = None ->
    length (audioQueue o) <= capacity ->
    snd (feed from_base64 datas o) = []
    /\ audioQueue (fst (feed from_base64 datas o))
       = newest capacity (audioQueue o ++ frames from_base64 datas)
    /\ connection (fst (feed from_base64 datas o)) = connection o
    /\ isConnectionReady (fst (feed from_base64 datas o)) = isConnectionReady o
    /\ audioChunkCount (fst (feed from_base64 datas o)) = audioChunkCount o.
Proof.
  induction datas as [|a datas IH]; intros o Hq Hlen.
  - cbn. rewrite List.app_nil_r, newest_all by exact Hlen. auto.
  - cbn [feed]. rewrite (sendAudio_queues from_base64 a o Hq).
    unfold frames. cbn [map List.filter]. fold (frames from_base64 datas).
    destruct (nonempty (decode from_base64 a)) eqn:Eb.
    + set (q := audioQueue o ++ [decode from_base64 a]).
      set (o1 := set_audioQueue (if capacity <? length q then tail q else q) o).
      assert (Hq1 : isConnectionReady o1 = false \/ connection o1 = None) by exact Hq.
      assert (Hlen1 : length (audioQueue o1) <= capacity).
      { subst o1 q. cbn [audioQueue set_audioQueue].
        destruct (Nat.ltb_spec capacity (length (audioQueue o ++ [decode from_base64 a])))
          as [Hgt|Hle]; [|exact Hle].
        destruct (audioQueue o ++ [decode from_base64 a]) eqn:E; cbn in *; [lia|].
        assert (length (audioQueue o ++ [decode from_base64 a]) = S (length l))
          by (rewrite E; reflexivity).
        rewrite length_app in *. cbn in *. lia. }
      destruct (IH o1 Hq1 Hlen1) as (I1 & I2 & I3 & I4 & I5).
      destruct (feed from_base64 datas o1) as [o2 l2]. cbn [fst snd] in *.
      subst l2. repeat split; try assumption.
      rewrite I2. subst o1. cbn [audioQueue set_audioQueue].
      replace (audioQueue o ++ decode from_base64 a :: frames from_base64 datas)
        with (q ++ frames from_base64 datas)
        by (subst q; rewrite <- List.app_assoc; reflexivity).
      destruct (Nat.ltb_spec capacity (length q)) as [Hgt|Hle]; [|reflexivity].
      apply newest_tail, Hgt.
    + destruct (IH o Hq Hlen) as (I1 & I2 & I3 & I4 & I5).
      destruct (feed from_base64 datas o) as [o2 l2]. cbn [fst snd] in *.
      subst l2. auto.
Qed.

(** X1. While the bridge is not sending, submissions are sent
    nowhere, and the queue keeps the newest [capacity] of the frames
    it was given, in order: it never holds more than [capacity]
    buffers, and when more were given the oldest are the ones
    dropped. *)
Theorem queue_keeps_newest (from_base64 : string -> Buffer) (datas : list AudioData) :
  forall o : t,
    isConnectionReady o = false \/ connection o = None ->
    length (audioQueue o) <= capacity ->
    snd (feed from_base64 datas o) = []
    /\ audioQueue (fst (feed from_base64 datas o))
       = newest capacity (audioQueue o ++ frames from_base64 datas)
    /\ connection (fst (feed from_base64 datas o)) = connection o
    /\ isConnectionReady (fst (feed from_base64 datas o)) = isConnectionReady o
    /\ audioChunkCount (fst (feed from_base64 datas o)) = audioChunkCount o
    /\ length (audioQueue (fst (feed from_base64 datas o)))
       = Nat.min capacity (length (audioQueue o) + length (frames from_base64 datas)).
Proof.
  intros o Hq Hlen.
  destruct (feed_queues from_base64 datas o Hq Hlen) as (H1 & H2 & H3 & H4 & H5).
  repeat split; try assumption.
  rewrite H2. unfold newest. rewrite length_skipn, length_app. lia.
Qed.

Lemma flush_all (c : Connection) (q : list Buffer) :
  send_throws c = false -> flush (Some c) q = ([], map send q, true).
Proof.
  intros Hc. induction q as [|b q IH]; [reflexivity|].
  cbn [flush map]. rewrite Hc, IH. reflexivity.
Qed.

(** X2. Audio submitted before the connection is ready is handed to
    the engine when it opens, oldest first: the newest [capacity]
    frames, each once; the queue is then empty and [start()]
    resolves. *)
Theorem queued_audio_is_sent_at_open (from_base64 : string -> Buffer)
    (datas : list AudioData) (o : t) (c : Connection) :
  isConnectionReady o = false -> connection o = Some c -> send_throws c = false ->
  length (audioQueue o) <= capacity ->
  let queued := feed from_base64 datas o in
  snd queued = []
  /\ on_Open (fst queued)
     = (set_audioQueue [] (set_isConnectionReady true (fst queued)),
        map send (newest capacity (audioQueue o ++ frames from_base64 datas)), true).
Proof.
  intros Hr Hc Hs Hlen queued. subst queued.
  destruct (feed_queues from_base64 datas o (or_introl Hr) Hlen)
    as (H1 & H2 & H3 & _).
  split; [exact H1|].
  unfold on_Open. cbn [connection set_isConnectionReady audioQueue].
  rewrite H3, Hc, H2, (flush_all c _ Hs). reflexivity.
Qed.

(** A [send] that throws while the queue is flushed loses the frame
    it was given, keeps the later ones queued and leaves the handler
    before [resolve()]. *)
Lemma flush_stops_at_failure (c : Connection) (b : Buffer) (q : list Buffer) :
  send_throws c = true -> flush (Some c) (b :: q) = (q, [], false).
Proof. intros Hc. cbn [flush]. rewrite Hc. reflexivity. Qed.

Lemma sendAudio_sends (from_base64 : string -> Buffer) (a : AudioData) (o : t)
    (c : Connection) :
  isConnectionReady o = true -> connection o = Some c ->
  sendAudio from_base64 a o
  = if nonempty (decode from_base64 a) && negb (send_throws c)
    then (set_audioChunkCount (S (audioChunkCount o)) o, [send (decode from_base64 a)])
    else (o, []).
Proof.
  intros Hr Hc. unfold sendAudio, nonempty. fold (decode from_base64 a).
  destruct (Nat.eqb (length (decode from_base64 a)) 0); cbn [negb andb]; [reflexivity|].
  rewrite Hr, Hc. destruct (send_throws c); reflexivity.
Qed.

(** X3. On a bridge that is ready every frame submitted is handed to
    the engine at once, in order, and counted; empty buffers are
    skipped; when the engine's [send] throws the frame is lost
    without a trace. The queue is not touched. *)
Theorem ready_bridge_forwards_each_frame (from_base64 : string -> Buffer)
    (datas : list AudioData) : forall (o : t) (c : Connection),
  isConnectionReady o = true -> connection o = Some c ->
  snd (feed from_base64 datas o)
  = (if send_throws c then [] else map send (frames from_base64 datas))
  /\ audioQueue (fst (feed from_base64 datas o)) = audioQueue o
  /\ audioChunkCount (fst (feed from_base64 datas o))
     = audioChunkCount o
       + (if send_throws c then 0 else length (frames from_base64 datas)).
Proof.
  induction datas as [|a datas IH]; intros o c Hr Hc.
  - cbn. destruct (send_throws c); auto.
  - cbn [feed]. rewrite (sendAudio_sends from_base64 a o c Hr Hc).
    unfold frames. cbn [map List.filter]. fold (frames from_base64 datas).
    destruct (nonempty (decode from_base64 a)); cbn [andb];
      [destruct (send_throws c) eqn:Es; cbn [negb]|].
    + destruct (IH o c Hr Hc) as (I1 & I2 & I3). rewrite Es in I1, I3.
      destruct (feed from_base64 datas o) as [o2 l2]. cbn [fst snd app] in *.
      repeat split; assumption.
    + destruct (IH (set_audioChunkCount (S (audioChunkCount o)) o) c Hr Hc)
        as (I1 & I2 & I3). rewrite Es in I1, I3.
      destruct (feed from_base64 datas (set_audioChunkCount (S (audioChunkCount o)) o))
        as [o2 l2].
      cbn [fst snd app audioQueue audioChunkCount set_audioChunkCount length map] in *.
      subst l2. repeat split; [exact I2|lia].
    + destruct (IH o c Hr Hc) as (I1 & I2 & I3).
      destruct (feed from_base64 datas o) as [o2 l2]. cbn [fst snd app] in *.
      repeat split; assumption.
Qed.

Lemma flush_keeps (c : option Connection) (q : list Buffer) :
  length (fst (fst (flush c q))) <= length q
  /\ (Forall (fun b => nonempty b = true) q ->
      Forall (fun b => nonempty b = true) (fst (fst (flush c q)))
      /\ Forall (fun b => nonempty b = true) (sent_buffers (snd (fst (flush c q))))).
Proof.
  induction q as [|b q [IH1 IH2]]; [cbn; auto|].
  cbn [flush]. destruct c as [k|].
  - destruct (send_throws k).
    + cbn. split; [lia|]. intros H. inversion H; subst. auto.
    + destruct (flush (Some k) q) as [[q' a] ok]. cbn [fst snd length sent_buffers] in *.
      split; [lia|]. intros H. inversion H; subst. destruct (IH2 ltac:(assumption)). auto.
  - cbn. split; [lia|]. intros H. inversion H; subst. auto.
Qed.

Lemma step_queue_ok (from_base64 : string -> Buffer) (o : t) (op : Op) :
  queue_ok o ->
  queue_ok (fst (step from_base64 o op))
  /\ Forall (fun b => nonempty b = true) (sent_buffers (snd (step from_base64 o op))).
Proof.
  intros [Hlen Hne]. destruct op as [a| | |e| |data]; cbn [step].
  - unfold sendAudio. fold (decode from_base64 a).
    destruct (Nat.eqb (length (decode from_base64 a)) 0) eqn:Eb;
      [cbn; repeat split; auto|].
    assert (Hb : nonempty (decode from_base64 a) = true) by (unfold nonempty; rewrite Eb; reflexivity).
    assert (Hq : queue_ok
                   (set_audioQueue
                      (if 100 <? length (audioQueue o ++ [decode from_base64 a])
                       then tail (audioQueue o ++ [decode from_base64 a])
                       else audioQueue o ++ [decode from_base64 a]) o)).
    { assert (Hall : Forall (fun b => nonempty b = true)
                       (audioQueue o ++ [decode from_base64 a]))
        by (apply Forall_app; split; [exact Hne|repeat constructor; exact Hb]).
      unfold queue_ok, capacity in *. cbn [audioQueue set_audioQueue].
      destruct (Nat.ltb_spec 100 (length (audioQueue o ++ [decode from_base64 a])))
        as [Hgt|Hle]; [|split; assumption].
      rewrite length_app in Hgt. cbn in Hgt.
      destruct (audioQueue o ++ [decode from_base64 a]) as [|x l] eqn:E.
      - cbn. split; [lia|constructor].
      - assert (Hl : length (audioQueue o ++ [decode from_base64 a]) = S (length l))
          by (rewrite E; reflexivity).
        rewrite length_app in Hl. cbn in Hl. cbn [tail]. split; [lia|].
        inversion Hall; assumption. }
    destruct (isConnectionReady o); [|cbn; split; [exact Hq|constructor]].
    destruct (connection o) as [c|]; [|cbn; split; [exact Hq|constructor]].
    destruct (send_throws c); cbn; repeat split; auto.
  - unfold stop. destruct (connection o) as [c|]; [destruct (finish_throws c)|];
      cbn; repeat split; auto.
  - unfold on_Open. cbn [connection audioQueue set_isConnectionReady].
    pose proof (flush_keeps (connection o) (audioQueue o)) as [F1 F2].
    destruct (F2 Hne) as [F3 F4].
    destruct (flush (connection o) (audioQueue o)) as [[q a] ok]. cbn [fst snd] in *.
    split; [split; [cbn; unfold capacity in *; lia|exact F3]|exact F4].
  - cbn. repeat split; auto.
  - cbn. repeat split; auto.
  - cbn [fst snd]. split; [split; assumption|].
    unfold on_Transcript. destruct (_ && _); cbn; constructor.
Qed.

Lemma sent_buffers_app (l1 l2 : list Out) :
  sent_buffers (l1 ++ l2) = sent_buffers l1 ++ sent_buffers l2.
Proof.
  induction l1 as [|a l1 IH]; [reflexivity|].
  destruct a; cbn; rewrite ?IH; reflexivity.
Qed.

(** X4. Whatever is called on a bridge and whatever the engine
    reports, the queue never holds more than [capacity] buffers, and
    no empty buffer is queued or handed to the engine. *)
Theorem bridge_never_sends_empty_buffer (from_base64 : string -> Buffer) (ops : list Op) :
  forall o : t,
    length (audioQueue o) <= capacity ->
    Forall (fun b => nonempty b = true) (audioQueue o) ->
    length (audioQueue (fst (run from_base64 o ops))) <= capacity
    /\ Forall (fun b => nonempty b = true) (audioQueue (fst (run from_base64 o ops)))
    /\ Forall (fun b => nonempty b = true) (sent_buffers (snd (run from_base64 o ops))).
Proof.
  induction ops as [|op ops IH]; intros o Hlen Hne.
  - cbn. auto.
  - cbn [run]. destruct (step_queue_ok from_base64 o op (conj Hlen Hne)) as [[S1 S2] S3].
    destruct (step from_base64 o op) as [o1 l1]. cbn [fst snd] in *.
    destruct (IH o1 S1 S2) as (I1 & I2 & I3).
    destruct (run from_base64 o1 ops) as [o2 l2]. cbn [fst snd] in *.
    rewrite sent_buffers_app. repeat split; try assumption.
    apply Forall_app. auto.
Qed.



Lemma queue_keeps_newest_witness :
  audioQueue (fst (feed (fun _ => []) Sample.clip Sample.connecting))
  = [[x01; x02]; [x03; x04]].
Proof.
  exact (proj1 (proj2 (queue_keeps_newest (fun _ => []) Sample.clip Sample.connecting
                         (or_introl eq_refl) ltac:(cbn; unfold capacity; lia)))).
Defined.

Lemma queued_audio_is_sent_at_open_witness :
  snd (fst (on_Open (fst (feed (fun _ => []) Sample.clip Sample.connecting))))
  = [send [x01; x02]; send [x03; x04]].
Proof.
  exact (f_equal (fun r => snd (fst r))
           (proj2 (queued_audio_is_sent_at_open (fun _ => []) Sample.clip Sample.connecting
                     Sample.link eq_refl eq_refl eq_refl
                     ltac:(cbn; unfold capacity; lia)))).
Defined.

Lemma ready_bridge_forwards_each_frame_witness :
  snd (feed (fun _ => []) Sample.clip Sample.bridge)
  = [send [x01; x02]; send [x03; x04]].
Proof.
  exact (proj1 (ready_bridge_forwards_each_frame (fun _ => []) Sample.clip Sample.bridge
                  Sample.link eq_refl eq_refl)).
Defined.

Lemma bridge_never_sends_empty_buffer_witness :
  Forall (fun b => nonempty b = true)
    (sent_buffers (snd (run (fun _ => []) Sample.connecting
                          [call_sendAudio (raw []); call_sendAudio (raw [x01]);
                           event_Open; call_sendAudio (raw []); call_stop]))).
Proof.
  exact (proj2 (proj2 (bridge_never_sends_empty_buffer (fun _ => [])
                         [call_sendAudio (raw []); call_sendAudio (raw [x01]);
                          event_Open; call_sendAudio (raw []); call_stop]
                         Sample.connecting ltac:(cbn; unfold capacity; lia)
                         (List.Forall_nil _)))).
Defined.

End Bridge.

(** ** The response pipeline, one completion *)

Module Completion.

Import GroqLLM.

Lemma appended_spoken (chunks : list string) : forall buffer : string,
  appended buffer chunks = appended buffer (spoken chunks).
Proof.
  induction chunks as [|c chunks IH]; intros buffer; [reflexivity|].
  cbn. destruct c as [|a c]; cbn.
  - replace (buffer +:+ "") with buffer; [apply IH|].
    induction buffer as [|b buffer IHb]; [reflexivity|].
    change (String b buffer = String b (buffer +:+ "")). f_equal. exact IHb.
  - apply IH.
Qed.

Lemma for_await_spec (chunks : list string) : forall o : t,
  fst (for_await chunks o) = set_fullResponse (appended (fullResponse o) (spoken chunks)) o
  /\ snd (for_await chunks o)
     = (if onToken_set o then map onToken (spoken chunks) else []).
Proof.
  induction chunks as [|c chunks IH]; intros o; cbn [for_await].
  - cbn. split; [destruct o; reflexivity|destruct (onToken_set o); reflexivity].
  - unfold on_chunk. destruct c as [|a c]; cbn [JS.truthy spoken List.filter].
    + destruct (IH o) as [IH1 IH2]. destruct (for_await chunks o) as [o2 a2].
      cbn in *. auto.
    + match goal with |- context [for_await chunks ?x] =>
        destruct (IH x) as [IH1 IH2]; destruct (for_await chunks x) as [o2 a2] end.
      cbn in *. subst. split; [reflexivity|].
      destruct (onToken_set o); reflexivity.
Qed.

Lemma errorMessage_truthy (e : JS.Error) : JS.truthy (errorMessage e) = true.
Proof.
  unfold errorMessage, JS.message_or, JS.or_else.
  destruct (JS.message e) as [[|a m]|]; cbn; destruct (JS.toString e); reflexivity.
Qed.

(** X6.  A stream that ends, when nothing else is called on the
    object between the awaits of [streamCompletion] (no [stop()] and
    no other [streamCompletion]): after the request, each chunk with
    text is forwarded through [onToken] in the order received, and
    [onComplete] is called once, last, with the concatenation of
    exactly the forwarded tokens, unless that text is blank; the
    handle is dropped and the buffer holds the text.  This is what
    [streamCompletion] taken in one piece gives, and what the run of
    the call followed by the events of its reply and no other gives
    on an object with no call in flight. *)
Theorem completed_stream_forwards_text (m : Message) (rest : list Message) (s : Stream)
    (chunks : list string) (o : t) :
  let full := appended "" (spoken chunks) in
  let after := {| currentStream := None; fullResponse := full;
                  onToken_set := onToken_set o; onComplete_set := onComplete_set o |} in
  let outs := create (m :: rest)
              :: (if onToken_set o then map onToken (spoken chunks) else [])
              ++ (if onComplete_set o && JS.truthy (JS.trim full)
                  then [onComplete full] else []) in
  streamCompletion (m :: rest) (reply_stream s chunks None) o = (after, outs, None)
  /\ run (boot o)
         (call_streamCompletion (m :: rest) :: events_of 0 (reply_stream 0 chunks None))
     = ({| this := after; awaiting := []; reading := []; issued := 1 |}, map out outs).
Proof.
  intros full after outs.
  assert (Hone : forall s', streamCompletion (m :: rest) (reply_stream s' chunks None) o
                            = (after, outs, None)).
  { intros s'. unfold streamCompletion.
    destruct (for_await_spec chunks (set_currentStream (Some s') (enter o))) as [H1 H2].
    destruct (for_await chunks _) as [o1 a1]. cbn [fst snd] in H1, H2. subst o1 a1.
    unfold on_end, enter, stop. destruct (currentStream o); reflexivity. }
  split; [apply Hone|].
  rewrite (Pipeline.streamCompletion_is_a_run (m :: rest) chunks None o) by discriminate.
  rewrite (Hone 0). cbn [fst snd]. rewrite List.app_nil_r. reflexivity.
Qed.

(** The same for a history given as a list that is not empty. *)
Lemma ended_stream (h : list Message) (s : Stream) (chunks : list string) (o : t) :
  h <> [] ->
  streamCompletion h (reply_stream s chunks None) o
  = ({| currentStream := None; fullResponse := appended "" (spoken chunks);
        onToken_set := onToken_set o; onComplete_set := onComplete_set o |},
     create h
     :: (if onToken_set o then map onToken (spoken chunks) else [])
     ++ (if onComplete_set o && JS.truthy (JS.trim (appended "" (spoken chunks)))
         then [onComplete (appended "" (spoken chunks))] else []),
     None).
Proof.
  intros Hh. unfold streamCompletion. destruct h as [|m rest]; [congruence|].
  destruct (for_await_spec chunks (set_currentStream (Some s) (enter o))) as [H1 H2].
  destruct (for_await chunks _) as [o1 a1]. cbn [fst snd] in H1, H2. subst o1 a1.
  unfold on_end, enter, stop. destruct (currentStream o); reflexivity.
Qed.

(** X7.  A completion that fails, at the request or in the middle of
    the stream, when nothing else is called on the object between the
    awaits of [streamCompletion] (no [stop()] and no other
    [streamCompletion]): the promise rejects with an [Error] whose
    message is 'Groq LLM error: ' followed by a text that is never
    empty, [onComplete] is not called, and the tokens received before
    the failure have been forwarded.  A stream that throws leaves its
    handle and the partial text in the object.  The run of the call
    followed by the events of its reply and no other, on an object
    with no call in flight, shows the same outputs and then the
    rejection. *)
Theorem failed_completion_is_wrapped (m : Message) (rest : list Message) (reply : Reply)
    (o : t) (e : JS.Error) :
  snd (streamCompletion (m :: rest) reply o) = Some e ->
  exists cause : JS.Error,
    JS.message e = Some ("Groq LLM error: " +:+ errorMessage cause)
    /\ JS.truthy (errorMessage cause) = true
    /\ match reply with
       | reply_rejected e0 =>
           e0 = cause
           /\ fst (streamCompletion (m :: rest) reply o) = (enter o, [create (m :: rest)])
           /\ run (boot o) (call_streamCompletion (m :: rest) :: events_of 0 reply)
              = ({| this := enter o; awaiting := []; reading := []; issued := 1 |},
                 [out (create (m :: rest)); throws 0 e])
       | reply_stream s chunks thrown =>
           let tokens := if onToken_set o then map onToken (spoken chunks) else [] in
           let partial := appended "" (spoken chunks) in
           thrown = Some cause
           /\ fst (streamCompletion (m :: rest) reply o)
              = ({| currentStream := Some s; fullResponse := partial;
                    onToken_set := onToken_set o; onComplete_set := onComplete_set o |},
                 create (m :: rest) :: tokens)
           /\ run (boot o)
                 (call_streamCompletion (m :: rest)
                  :: events_of 0 (reply_stream 0 chunks thrown))
              = ({| this := {| currentStream := Some 0; fullResponse := partial;
                               onToken_set := onToken_set o;
                               onComplete_set := onComplete_set o |};
                    awaiting := []; reading := []; issued := 1 |},
                 map out (create (m :: rest) :: tokens) ++ [throws 0 e])
       end.
Proof.
  destruct reply as [e0|s chunks [e0|]].
  - cbn. intros [= <-]. exists e0. auto using errorMessage_truthy.
  - assert (Hone : forall s',
              streamCompletion (m :: rest) (reply_stream s' chunks (Some e0)) o
              = ({| currentStream := Some s'; fullResponse := appended "" (spoken chunks);
                    onToken_set := onToken_set o; onComplete_set := onComplete_set o |},
                 create (m :: rest)
                 :: (if onToken_set o then map onToken (spoken chunks) else []),
                 Some (wrap e0))).
    { intros s'. unfold streamCompletion.
      destruct (for_await_spec chunks (set_currentStream (Some s') (enter o))) as [H1 H2].
      destruct (for_await chunks _) as [o1 a1]. cbn [fst snd] in *. subst o1 a1.
      unfold enter, stop. destruct (currentStream o); reflexivity. }
    rewrite (Hone s). cbn [fst snd]. intros [= <-]. exists e0.
    split; [reflexivity|]. split; [apply errorMessage_truthy|].
    cbv zeta. split; [reflexivity|]. split; [reflexivity|].
    rewrite (Pipeline.streamCompletion_is_a_run (m :: rest) chunks (Some e0) o)
      by discriminate.
    rewrite (Hone 0). reflexivity.
  - unfold streamCompletion. destruct (for_await chunks _) as [o1 a1]. cbn. discriminate.
Qed.

Lemma failed_completion_is_wrapped_witness :
  exists cause : JS.Error,
    JS.message (wrap Sample.rate_limited)
    = Some ("Groq LLM error: " +:+ errorMessage cause)
    /\ JS.truthy (errorMessage cause) = true
    /\ Some Sample.rate_limited = Some cause
    /\ fst (streamCompletion Sample.hello
              (reply_stream 7 ["Hi"; ""; " there"] (Some Sample.rate_limited))
              Sample.pipeline)
       = ({| currentStream := Some 7; fullResponse := "Hi there";
             onToken_set := true; onComplete_set := true |},
          [create Sample.hello; onToken "Hi"; onToken " there"])
    /\ run (boot Sample.pipeline)
          [call_streamCompletion Sample.hello; create_resolves 0; chunk 0 "Hi";
           chunk 0 ""; chunk 0 " there"; stream_throws 0 Sample.rate_limited]
       = ({| this := {| currentStream := Some 0; fullResponse := "Hi there";
                        onToken_set := true; onComplete_set := true |};
             awaiting := []; reading := []; issued := 1 |},
          [out (create Sample.hello); out (onToken "Hi"); out (onToken " there");
           throws 0 (wrap Sample.rate_limited)]).
Proof.
  exact (failed_completion_is_wrapped _ _
           (reply_stream 7 ["Hi"; ""; " there"] (Some Sample.rate_limited))
           Sample.pipeline (wrap Sample.rate_limited) eq_refl).
Defined.

End Completion.

(** ** The registry of the transport negotiator *)

Module Negotiator.

Import WebRTCServer.

Lemma createPeerConnection_registers (pc : RTCPeerConnection) (sid : string) (o : t) :
  createPeerConnection (inr pc) sid o
  = ({| sessions := <[sid := {| peerConnection := pc; audioDataChannel := false |}]>
                      (sessions o) |}, inr pc).
Proof. reflexivity. Qed.

Lemma handleOffer_registry (factory : JS.Error + RTCPeerConnection) (sid : string)
    (offer : Description) (o : t) :
  fst (fst (handleOffer factory sid (Some offer) o))
  = match sessions o !! sid with
    | Some _ => o
    | None => fst (createPeerConnection factory sid o)
    end.
Proof.
  unfold handleOffer. destruct (sessions o !! sid) as [existing|].
  - destruct (setRemoteDescription _ _); [reflexivity|].
    destruct (createAnswer _ _); [reflexivity|].
    destruct (setLocalDescription _ _); reflexivity.
  - destruct factory as [e|pc]; [reflexivity|]. cbn.
    destruct (setRemoteDescription _ _); [reflexivity|].
    destruct (createAnswer _ _); [reflexivity|].
    destruct (setLocalDescription _ _); reflexivity.
Qed.

(** X8.  [handleOffer] works on one peer connection for each session
    id: the one registered under the id, or a new one that it
    registers.  Whatever becomes of the negotiation, that connection
    is registered under the id afterwards, the entries of the other
    ids are untouched, and an id that was registered keeps its
    entry. *)
Theorem offer_registers_peer (factory : JS.Error + RTCPeerConnection) (sid : string)
    (offer : Description) (o : t) (pc : RTCPeerConnection) :
  peer_for factory sid o = Some pc ->
  let o' := fst (fst (handleOffer factory sid (Some offer) o)) in
  peerConnection <$> sessions o' !! sid = Some pc
  /\ (forall k : string, k <> sid -> sessions o' !! k = sessions o !! k)
  /\ (forall s : WebRTCSession, sessions o !! sid = Some s -> o' = o).
Proof.
  intros Hpc o'. subst o'. rewrite handleOffer_registry.
  unfold peer_for in Hpc. destruct (sessions o !! sid) as [existing|] eqn:Hs.
  - injection Hpc as <-. rewrite Hs. auto.
  - destruct factory as [e|pc0]; [discriminate|]. injection Hpc as <-.
    cbn. rewrite lookup_insert_eq. split; [reflexivity|]. split; [|discriminate].
    intros k Hk. apply lookup_insert_ne. congruence.
Qed.

Lemma offer_registers_peer_witness :
  let o' := fst (fst (handleOffer (inr Sample.strict) "s1" (Some Sample.empty_offer) new)) in
  peerConnection <$> sessions o' !! "s1" = Some Sample.strict
  /\ (forall k : string, k <> "s1" -> sessions o' !! k = sessions new !! k)
  /\ (forall s : WebRTCSession, sessions new !! "s1" = Some s -> o' = new).
Proof.
  exact (offer_registers_peer (inr Sample.strict) "s1" Sample.empty_offer new
           Sample.strict eq_refl).
Defined.

(** X9.  [cleanup] of a session whose peer connection closes without
    throwing (or of an id that is not registered): the connection is
    closed exactly when the id was registered, the id is gone from
    the registry and from [getAllSessions], the other entries are
    untouched, and a second [cleanup] does nothing. *)
Theorem cleanup_forgets_session (sid : string) (o : t) :
  (forall s : WebRTCSession, sessions o !! sid = Some s -> close (peerConnection s) = None) ->
  let r := cleanup sid o in
  snd r = None
  /\ snd (fst r) = match sessions o !! sid with Some _ => [pc_closed sid] | None => [] end
  /\ sessions (fst (fst r)) !! sid = None
  /\ (sid ∉ getAllSessions (fst (fst r)))
  /\ (forall k : string, k <> sid -> sessions (fst (fst r)) !! k = sessions o !! k)
  /\ cleanup sid (fst (fst r)) = (fst (fst r), [], None).
Proof.
  intros Hclose r.
  assert (Hgone : sessions (fst (fst r)) !! sid = None).
  { subst r. unfold cleanup. destruct (sessions o !! sid) as [s|] eqn:Hs.
    - rewrite (Hclose s eq_refl). cbn. apply lookup_delete_eq.
    - exact Hs. }
  split; [|split; [|split; [exact Hgone|split; [|split]]]].
  - subst r. unfold cleanup. destruct (sessions o !! sid) as [s|] eqn:Hs; [|reflexivity].
    rewrite (Hclose s eq_refl). reflexivity.
  - subst r. unfold cleanup. destruct (sessions o !! sid) as [s|] eqn:Hs; [|reflexivity].
    rewrite (Hclose s eq_refl). reflexivity.
  - unfold getAllSessions. rewrite elem_of_elements, elem_of_dom, Hgone.
    intros [x Hx]. discriminate.
  - intros k Hk. subst r. unfold cleanup.
    destruct (sessions o !! sid) as [s|] eqn:Hs; [|reflexivity].
    rewrite (Hclose s eq_refl). cbn. apply lookup_delete_ne. congruence.
  - unfold cleanup at 1. rewrite Hgone. reflexivity.
Qed.

Lemma cleanup_forgets_session_witness :
  let o := (VoiceAgentServer.webrtcServer (Sample.server_with_peer Sample.talking)) in
  let r := cleanup "s1" o in
  snd r = None
  /\ snd (fst r) = match sessions o !! "s1" with Some _ => [pc_closed "s1"] | None => [] end
  /\ sessions (fst (fst r)) !! "s1" = None
  /\ ("s1" ∉ getAllSessions (fst (fst r)))
  /\ (forall k : string, k <> "s1" -> sessions (fst (fst r)) !! k = sessions o !! k)
  /\ cleanup "s1" (fst (fst r)) = (fst (fst r), [], None).
Proof.
  refine (cleanup_forgets_session "s1" (VoiceAgentServer.webrtcServer (Sample.server_with_peer Sample.talking)) _).
  intros s H. vm_compute in H. injection H as <-. reflexivity.
Defined.

(** X10.  An offer for a fresh id followed by [cleanup] leaves the
    registry as it was before the offer, whatever became of the
    negotiation, and the connection made for the offer has been
    closed. *)
Theorem offer_then_cleanup_restores_registry (pc : RTCPeerConnection) (sid : string)
    (offer : Description) (o : t) :
  sessions o !! sid = None ->
  close pc = None ->
  cleanup sid (fst (fst (handleOffer (inr pc) sid (Some offer) o)))
  = (o, [pc_closed sid], None).
Proof.
  intros Hs Hclose. rewrite handleOffer_registry, Hs. cbn.
  unfold cleanup. cbn. rewrite lookup_insert_eq. cbn. rewrite Hclose.
  rewrite delete_insert_id by exact Hs. destruct o; reflexivity.
Qed.

Lemma offer_then_cleanup_restores_registry_witness :
  cleanup "s1" (fst (fst (handleOffer (inr Sample.strict) "s1" (Some Sample.empty_offer) new)))
  = (new, [pc_closed "s1"], None).
Proof.
  exact (offer_then_cleanup_restores_registry Sample.strict "s1" Sample.empty_offer new
           (lookup_empty _) eq_refl).
Defined.

End Negotiator.

(** ** Conversations *)

Module Conversation.

Import VoiceAgentServer.

(** Running a handler from a given state. *)

Lemma bind_ok {A B} (m : M A) (k : A -> M B) (σ σ1 σ2 : t) (l1 l2 : list Effect)
    (a : A) (r : Outcome B) :
  m σ = (σ1, l1, returned a) -> k a σ1 = (σ2, l2, r) ->
  (m >>= k) σ = (σ2, l1 ++ l2, r).
Proof. intros H1 H2. unfold bind. rewrite H1, H2. reflexivity. Qed.

Lemma bind_thrown {A B} (m : M A) (k : A -> M B) (σ σ1 : t) (l1 : list Effect)
    (e : JS.Error) :
  m σ = (σ1, l1, thrown e) -> (m >>= k) σ = (σ1, l1, thrown e).
Proof. intros H1. unfold bind. rewrite H1. reflexivity. Qed.

Lemma try_ok {A} (m : M A) (h : JS.Error -> M A) (σ σ1 : t) (l1 : list Effect) (a : A) :
  m σ = (σ1, l1, returned a) -> try_catch m h σ = (σ1, l1, returned a).
Proof. intros H1. unfold try_catch. rewrite H1. reflexivity. Qed.

Lemma try_thrown {A} (m : M A) (h : JS.Error -> M A) (σ σ1 σ2 : t) (l1 l2 : list Effect)
    (e : JS.Error) (r : Outcome A) :
  m σ = (σ1, l1, thrown e) -> h e σ1 = (σ2, l2, r) ->
  try_catch m h σ = (σ2, l1 ++ l2, r).
Proof. intros H1 H2. unfold try_catch. rewrite H1, H2. reflexivity. Qed.

Lemma detached_eq (m : M unit) (σ σ1 : t) (l1 : list Effect) (r : Outcome unit) :
  m σ = (σ1, l1, r) -> detached m σ = (σ1, l1, returned tt).
Proof. intros H1. unfold detached. rewrite H1. reflexivity. Qed.

Lemma with_session_at {A} (dflt : A) (sid : string) (k : ClientSession -> M A) (σ : t)
    (s : ClientSession) :
  heap σ !! sid = Some s -> with_session dflt sid k σ = k s σ.
Proof. intros H. unfold with_session. rewrite H. reflexivity. Qed.

Lemma update_at (sid : string) (f : ClientSession -> ClientSession) (s : ClientSession)
    (σ : t) :
  update sid f (store sid s σ) = (store sid (f s) σ, [], returned tt).
Proof.
  rewrite (Coordinator.update_store sid f _ s (Coordinator.heap_store sid s σ)).
  rewrite Coordinator.store_store. reflexivity.
Qed.

Lemma heap_at (sid : string) (s : ClientSession) (σ : t) :
  heap (store sid s σ) !! sid = Some s.
Proof. unfold store. cbn [heap]. apply lookup_insert_eq. Qed.

Lemma store_at (sid : string) (s : ClientSession) (σ : t) :
  heap σ !! sid = Some s -> store sid s σ = σ.
Proof.
  intros H. destruct σ as [h r w]. unfold store. cbn in *.
  rewrite insert_id by exact H. reflexivity.
Qed.

Lemma sendMessage_store (sid : string) (m : ServerMessage) (s : ClientSession) (σ : t) :
  sendMessage sid m (store sid s σ)
  = (store sid s σ,
     if Nat.eqb (readyState (ws s)) OPEN then [ws_send sid m] else [], returned tt).
Proof.
  unfold sendMessage. rewrite (with_session_at _ _ _ _ _ (heap_at _ _ _)).
  destruct (Nat.eqb _ _); reflexivity.
Qed.

Ltac exec :=
  lazymatch goal with
  | |- bind _ _ _ = _ =>
      first [ eapply bind_ok; [exec | cbv beta; exec]
            | eapply bind_thrown; exec ]
  | |- try_catch _ _ _ = _ =>
      first [ eapply try_ok; exec
            | eapply try_thrown; [exec | cbv beta; exec] ]
  | |- detached _ _ = _ => eapply detached_eq; exec
  | |- update _ _ (store _ _ _) = _ => apply update_at
  | |- push _ _ _ = _ => unfold push; exec
  | |- when true _ _ = _ => unfold when; exec
  | |- when false _ _ = _ => unfold when; exec
  | |- onToken _ _ _ = _ => unfold onToken; exec
  | |- onComplete _ _ _ = _ => unfold onComplete; exec
  | |- sendMessage _ _ (store _ _ _) = _ => apply sendMessage_store
  | |- sendError _ _ (store _ _ _) = _ => apply sendMessage_store
  | |- with_session _ _ _ (store _ _ _) = _ =>
      rewrite (with_session_at _ _ _ _ _ (heap_at _ _ _)); cbv beta; exec
  | |- _ => reflexivity
  end.

Lemma stt_start_opens (env : Env) (sid : string) (s : ClientSession) (σ : t)
    (d : DeepgramSTT.t) (c : DeepgramSTT.Connection) :
  deepgramSTT s = Some d -> DeepgramSTT.audioQueue d = [] ->
  listen_live env = DeepgramSTT.live_opens c ->
  stt_start env sid (store sid s σ)
  = (store sid (set_deepgramSTT
                  (Some (DeepgramSTT.set_isConnectionReady true
                           (DeepgramSTT.set_connection (Some c) d))) s) σ,
     [call sid deepgramSTT_start], returned tt).
Proof.
  intros Hd Hq Hlive. unfold stt_start.
  rewrite (with_session_at _ _ _ _ _ (heap_at _ _ _)). rewrite Hd, Hlive.
  unfold DeepgramSTT.start, DeepgramSTT.on_Open.
  cbn [DeepgramSTT.set_connection DeepgramSTT.set_isConnectionReady
       DeepgramSTT.audioQueue DeepgramSTT.connection].
  rewrite Hq. cbn [DeepgramSTT.flush].
  etransitivity; [exec|]. destruct d; cbn in *; subst; reflexivity.
Qed.

Lemma start_runs (env : Env) (sid : string) (σ : t) (s : ClientSession)
    (c : DeepgramSTT.Connection) :
  isActive s = false ->
  JS.truthy (DEEPGRAM_API_KEY env) = true -> JS.truthy (GROQ_API_KEY env) = true ->
  listen_live env = DeepgramSTT.live_opens c ->
  exists l,
    handle env (message sid (Some start_conversation)) (store sid s σ)
    = (store sid (started (DEEPGRAM_API_KEY env) c s) σ, l, returned tt)
    /\ sent sid l
       = (if Nat.eqb (readyState (ws s)) OPEN then [conversation_started] else [])
    /\ calls sid l = [deepgramSTT_start].
Proof.
  intros Ha Hk1 Hk2 Hlive.
  unfold handle, on_message, handleMessage, startConversation.
  unfold JS.or_else. rewrite Hk1, Hk2. unfold DeepgramSTT.new, GroqLLM.new.
  rewrite Hk1, Hk2. cbn [lift].
  eexists. split.
  - eapply try_ok.
    rewrite (with_session_at _ _ _ _ _ (heap_at _ _ _)). rewrite Ha.
    eapply try_ok.
    eapply bind_ok; [eapply bind_ok; [eapply bind_ok|]|].
    + exec.
    + eapply stt_start_opens; [reflexivity|reflexivity|exact Hlive].
    + exec.
    + cbn [set_deepgramSTT set_groqLLM set_isActive set_conversationHistory
           ws sessionId deepgramSTT groqLLM isActive conversationHistory useWebRTC
           fmap option_fmap option_map DeepgramSTT.set_onTranscript
           DeepgramSTT.set_isConnectionReady DeepgramSTT.set_connection
           DeepgramSTT.apiKey DeepgramSTT.connection DeepgramSTT.isConnectionReady
           DeepgramSTT.audioQueue DeepgramSTT.audioChunkCount
           DeepgramSTT.onTranscript_set DeepgramSTT.error_listeners
           GroqLLM.currentStream GroqLLM.fullResponse GroqLLM.onToken_set
           GroqLLM.onComplete_set].
      exec.
  - cbn. rewrite String.eqb_refl.
    destruct (Nat.eqb _ _); cbn; rewrite ?String.eqb_refl; auto.
Qed.

(** X11.  [start_conversation] for a session that is not active, with
    both API keys set and an engine connection that opens: the
    session gets a new bridge and a new pipeline with their callbacks
    installed, its history is reset to the system prompt alone, it is
    active, and the peer is sent [conversation_started] and nothing
    else; the only call into a component is [start()]. *)
Theorem start_opens_conversation (env : Env) (sid : string) (σ : t) (s : ClientSession)
    (c : DeepgramSTT.Connection) :
  heap σ !! sid = Some s -> isActive s = false ->
  JS.truthy (DEEPGRAM_API_KEY env) = true -> JS.truthy (GROQ_API_KEY env) = true ->
  listen_live env = DeepgramSTT.live_opens c ->
  let r := handle env (message sid (Some start_conversation)) σ in
  state r = store sid (started (DEEPGRAM_API_KEY env) c s) σ
  /\ sent sid (trace r)
     = (if Nat.eqb (readyState (ws s)) OPEN then [conversation_started] else [])
  /\ calls sid (trace r) = [deepgramSTT_start]
  /\ outcome r = returned tt.
Proof.
  intros H Ha Hk1 Hk2 Hlive r.
  destruct (start_runs env sid σ s c Ha Hk1 Hk2 Hlive) as (l & Hrun & Hsent & Hcalls).
  rewrite (store_at _ _ _ H) in Hrun. subst r. rewrite Hrun. cbn [state trace outcome fst snd].
  auto.
Qed.

Lemma start_opens_conversation_witness :
  let r := handle Sample.env (message "s1" (Some start_conversation))
             (Sample.server_with Sample.waiting) in
  state r = store "s1" (started "dg-key" Sample.link Sample.waiting)
              (Sample.server_with Sample.waiting)
  /\ sent "s1" (trace r) = [conversation_started]
  /\ calls "s1" (trace r) = [deepgramSTT_start]
  /\ outcome r = returned tt.
Proof.
  exact (start_opens_conversation Sample.env "s1" (Sample.server_with Sample.waiting)
           Sample.waiting Sample.link eq_refl eq_refl eq_refl eq_refl eq_refl).
Defined.

(** The [catch] block of [startConversation], for a registered
    session whose transport cleanup returns. *)
Lemma start_catch (env : Env) (sid : string) (s : ClientSession) (σ : t) :
  sid ∈ sessions σ ->
  snd (WebRTCServer.cleanup sid (webrtcServer σ)) = None ->
  exists (l : list Effect) (σ' : t),
    (sendError sid "Failed to start conversation" >>
     detached (cleanupSession sid)) (store sid s σ) = (σ', l, returned tt)
    /\ sent sid l
       = (if Nat.eqb (readyState (ws s)) OPEN
          then [error "Failed to start conversation"] else [])
    /\ calls sid l = release_calls s
    /\ (sid ∉ sessions σ')
    /\ heap σ' !! sid = Some (released s).
Proof.
  intros Hr Hok.
  destruct (Coordinator.cleanupSession_runs env sid (store sid s σ) s Hr
              (Coordinator.heap_store sid s σ) Hok) as (l & Hc & Hcalls & Hsent).
  eexists. eexists. split; [|split; [|split; [|split]]].
  - eapply bind_ok; [apply sendMessage_store|]. cbv beta.
    eapply detached_eq. exact Hc.
  - rewrite Coordinator.sent_app, Hsent, app_nil_r.
    destruct (Nat.eqb _ _); cbn; rewrite ?String.eqb_refl; reflexivity.
  - rewrite Coordinator.calls_app, Hcalls.
    destruct (Nat.eqb _ _); reflexivity.
  - unfold torn_down. cbn [sessions store]. intros Hin.
    apply elem_of_difference in Hin as [_ Hn]. apply Hn, elem_of_singleton. reflexivity.
  - unfold torn_down. cbn [heap]. apply lookup_insert_eq.
Qed.

Lemma stt_start_throws (env : Env) (sid : string) (s : ClientSession) (σ : t)
    (d : DeepgramSTT.t) (e : JS.Error) :
  deepgramSTT s = Some d ->
  listen_live env = DeepgramSTT.live_throws e ->
  stt_start env sid (store sid s σ)
  = (store sid s σ, [call sid deepgramSTT_start], thrown e).
Proof.
  intros Hd Hlive. unfold stt_start.
  rewrite (with_session_at _ _ _ _ _ (heap_at _ _ _)). rewrite Hd, Hlive.
  unfold DeepgramSTT.start.
  etransitivity; [exec|]. cbn [app map]. repeat f_equal.
  destruct s; cbn in *; subst; reflexivity.
Qed.

Lemma release_calls_head (s : ClientSession) :
  exists rest, release_calls s = webrtcServer_cleanup :: rest.
Proof. unfold release_calls. eexists. reflexivity. Qed.

(** X12.  [start_conversation] that fails because an API key is
    missing or because opening the engine connection throws, for a
    registered session whose transport cleanup returns: the peer is
    sent the one message [error] 'Failed to start conversation', the
    session is torn down (transport first) and leaves the registry,
    and it is not active; its history has already been reset to the
    system prompt. *)
Theorem failed_start_closes_session (env : Env) (sid : string) (σ : t) (s : ClientSession) :
  sid ∈ sessions σ -> heap σ !! sid = Some s -> sessionId s = sid -> isActive s = false ->
  snd (WebRTCServer.cleanup sid (webrtcServer σ)) = None ->
  JS.truthy (DEEPGRAM_API_KEY env) = false
  \/ JS.truthy (GROQ_API_KEY env) = false
  \/ (exists e, listen_live env = DeepgramSTT.live_throws e) ->
  let r := handle env (message sid (Some start_conversation)) σ in
  sent sid (trace r)
  = (if Nat.eqb (readyState (ws s)) OPEN
     then [error "Failed to start conversation"] else [])
  /\ (exists rest, List.filter is_release (calls sid (trace r))
                   = webrtcServer_cleanup :: rest)
  /\ (sid ∉ sessions (state r))
  /\ field isActive sid (state r) = Some false
  /\ field conversationHistory sid (state r)
     = Some [{| role := system; content := system_prompt |}]
  /\ outcome r = returned tt.
Proof.
  intros Hr H Hid Ha Hok Hfail r.
  assert (Hrun : exists (l : list Effect) (σ' : t) (s1 : ClientSession),
             startConversation env sid (store sid s σ) = (σ', l, returned tt)
             /\ sent sid l
                = (if Nat.eqb (readyState (ws s)) OPEN
                   then [error "Failed to start conversation"] else [])
             /\ List.filter is_release (calls sid l) = release_calls s1
             /\ (sid ∉ sessions σ')
             /\ heap σ' !! sid = Some (released s1)
             /\ conversationHistory s1 = [{| role := system; content := system_prompt |}]).
  { unfold startConversation.
    rewrite (with_session_at _ _ _ _ _ (heap_at _ _ _)). rewrite Ha, Hid.
    set (s0 := set_conversationHistory [{| role := system; content := system_prompt |}] s).
    destruct (JS.truthy (DEEPGRAM_API_KEY env)) eqn:Hk1;
      [destruct (JS.truthy (GROQ_API_KEY env)) eqn:Hk2|].
    - (* the engine connection throws *)
      destruct Hfail as [Hf|[Hf|[e Hlive]]]; [discriminate| discriminate|].
      unfold JS.or_else. rewrite Hk1, Hk2. unfold DeepgramSTT.new, GroqLLM.new.
      rewrite Hk1, Hk2. cbn [lift].
      match goal with |- context [try_catch (?a >> stt_start _ _ >> ?b >> ?c) ?h] =>
        assert (Hbody : exists s1,
                   (a >> stt_start env sid >> b >> c) (store sid s σ)
                   = (store sid s1 σ, [call sid deepgramSTT_start], thrown e)
                   /\ ws s1 = ws s
                   /\ conversationHistory s1
                      = [{| role := system; content := system_prompt |}]) end.
      { eexists. split; [|split].
        - eapply bind_thrown. eapply bind_thrown.
          etransitivity; [eapply bind_ok; [exec|]|].
          + eapply stt_start_throws; [reflexivity|exact Hlive].
          + reflexivity.
        - reflexivity.
        - reflexivity. }
      destruct Hbody as (s1 & Hbody & Hws & Hh).
      destruct (start_catch env sid s1 σ Hr Hok) as (l & σ' & Hc & Hs & Hcalls & Hout & Hheap).
      exists ([call sid deepgramSTT_start] ++ l), σ', s1. split; [|split; [|split; [|split]]].
      + eapply try_thrown; [exact Hbody|exact Hc].
      + rewrite Coordinator.sent_app, Hs, Hws. reflexivity.
      + rewrite Coordinator.calls_app, Hcalls. cbn. rewrite String.eqb_refl. cbn.
        unfold release_calls. cbn. f_equal.
        destruct (present (deepgramSTT s1)), (present (groqLLM s1)); reflexivity.
      + exact Hout.
      + auto.
    - (* no key for the response pipeline *)
      unfold JS.or_else. rewrite Hk1, Hk2. unfold DeepgramSTT.new, GroqLLM.new.
      rewrite Hk1. cbn [JS.truthy lift].
      match goal with |- context [try_catch ?body ?h] =>
        assert (Hbody : exists s1 e,
                   body (store sid s σ) = (store sid s1 σ, [], thrown e)
                   /\ ws s1 = ws s
                   /\ conversationHistory s1
                      = [{| role := system; content := system_prompt |}]) end.
      { eexists. eexists. split; [|split].
        - etransitivity; [exec|]. reflexivity.
        - reflexivity.
        - reflexivity. }
      destruct Hbody as (s1 & e & Hbody & Hws & Hh).
      destruct (start_catch env sid s1 σ Hr Hok) as (l & σ' & Hc & Hs & Hcalls & Hout & Hheap).
      exists ([] ++ l), σ', s1. split; [|split; [|split; [|split]]].
      + eapply try_thrown; [exact Hbody|exact Hc].
      + cbn [app]. rewrite Hs, Hws. reflexivity.
      + cbn [app]. rewrite Hcalls. unfold release_calls. cbn. f_equal.
        destruct (present (deepgramSTT s1)), (present (groqLLM s1)); reflexivity.
      + exact Hout.
      + auto.
    - (* no key for the recognition bridge *)
      unfold JS.or_else. rewrite Hk1. unfold DeepgramSTT.new. cbn [JS.truthy lift].
      match goal with |- context [try_catch ?body ?h] =>
        assert (Hbody : exists s1 e,
                   body (store sid s σ) = (store sid s1 σ, [], thrown e)
                   /\ ws s1 = ws s
                   /\ conversationHistory s1
                      = [{| role := system; content := system_prompt |}]) end.
      { eexists. eexists. split; [|split].
        - etransitivity; [exec|]. reflexivity.
        - reflexivity.
        - reflexivity. }
      destruct Hbody as (s1 & e & Hbody & Hws & Hh).
      destruct (start_catch env sid s1 σ Hr Hok) as (l & σ' & Hc & Hs & Hcalls & Hout & Hheap).
      exists ([] ++ l), σ', s1. split; [|split; [|split; [|split]]].
      + eapply try_thrown; [exact Hbody|exact Hc].
      + cbn [app]. rewrite Hs, Hws. reflexivity.
      + cbn [app]. rewrite Hcalls. unfold release_calls. cbn. f_equal.
        destruct (present (deepgramSTT s1)), (present (groqLLM s1)); reflexivity.
      + exact Hout.
      + auto. }
  destruct Hrun as (l & σ' & s1 & Hrun & Hsent & Hcalls & Hout & Hheap & Hh).
  rewrite (store_at _ _ _ H) in Hrun. subst r.
  assert (Hh' : handle env (message sid (Some start_conversation)) σ = (σ', l, returned tt)).
  { unfold handle, on_message, handleMessage. eapply try_ok. exact Hrun. }
  rewrite Hh'.
  cbn [state trace outcome fst snd]. unfold field. rewrite Hheap.
  split; [exact Hsent|]. split; [rewrite Hcalls; apply release_calls_head|].
  split; [exact Hout|]. split; [reflexivity|]. split; [|reflexivity].
  cbn. rewrite Hh. reflexivity.
Qed.

Lemma failed_start_closes_session_witness :
  let r := handle Sample.env_without_key (message "s1" (Some start_conversation))
             (Sample.server_with Sample.waiting) in
  sent "s1" (trace r) = [error "Failed to start conversation"]
  /\ (exists rest, List.filter is_release (calls "s1" (trace r))
                   = webrtcServer_cleanup :: rest)
  /\ ("s1" ∉ sessions (state r))
  /\ field isActive "s1" (state r) = Some false
  /\ field conversationHistory "s1" (state r)
     = Some [{| role := system; content := system_prompt |}]
  /\ outcome r = returned tt.
Proof.
  assert (Hreg : "s1" ∈ sessions (Sample.server_with Sample.waiting)) by reflexivity.
  exact (failed_start_closes_session Sample.env_without_key "s1"
           (Sample.server_with Sample.waiting) Sample.waiting
           Hreg eq_refl eq_refl eq_refl eq_refl (or_intror (or_introl eq_refl))).
Defined.

(** Tokens on their way to the peer. *)
Lemma dispatch_tokens (sid : string) (s : ClientSession) (σ : t) (rest : list GroqLLM.Out)
    (σ' : t) (l : list Effect) (r : Outcome unit) (toks : list string) :
  llm_dispatch sid rest (store sid s σ) = (σ', l, r) ->
  exists l',
    llm_dispatch sid (map GroqLLM.onToken toks ++ rest) (store sid s σ) = (σ', l', r)
    /\ sent sid l'
       = (if Nat.eqb (readyState (ws s)) OPEN then map llm_token toks else [])
         ++ sent sid l
    /\ calls sid l' = calls sid l.
Proof.
  intros Hrest. induction toks as [|tok toks IH].
  - exists l. cbn. destruct (Nat.eqb _ _); auto.
  - destruct IH as (l' & IH & Hs & Hc). eexists. split; [|split].
    + cbn [map app llm_dispatch]. eapply bind_ok; [exec|exact IH].
    + rewrite Coordinator.sent_app, Hs.
      destruct (Nat.eqb _ _); cbn; rewrite ?String.eqb_refl; reflexivity.
    + rewrite Coordinator.calls_app, Hc.
      destruct (Nat.eqb _ _); reflexivity.
Qed.

Lemma trim_truthy (text : string) : JS.truthy (JS.trim text) = true -> JS.truthy text = true.
Proof. destruct text; [discriminate|reflexivity]. Qed.

(** X13.  A final transcript with text, for an active session whose
    callbacks are installed, when the collaborator's stream ends
    normally: the peer receives the transcript, then one [llm_token]
    for each chunk with text, in order, then [llm_complete] and
    [tts_text] with the whole text (unless it is blank); the history
    gains the trimmed user turn and the trimmed assistant turn, and
    one completion has been asked with the history ending in the user
    turn. *)
Theorem final_transcript_is_answered (env : Env) (sid : string) (σ : t) (s : ClientSession)
    (d : DeepgramSTT.t) (g : GroqLLM.t) (text : string) (st : GroqLLM.Stream)
    (chunks : list string) :
  heap σ !! sid = Some s -> isActive s = true ->
  deepgramSTT s = Some d -> DeepgramSTT.onTranscript_set d = true ->
  groqLLM s = Some g -> GroqLLM.onToken_set g = true -> GroqLLM.onComplete_set g = true ->
  JS.truthy (JS.trim text) = true ->
  let turn := {| role := user; content := JS.trim text |} in
  chat_completions_create env (conversationHistory s ++ [turn])
  = GroqLLM.reply_stream st chunks None ->
  let full := GroqLLM.appended "" (GroqLLM.spoken chunks) in
  let said := JS.truthy (JS.trim full) in
  let r := handle env (Transcript sid {| DeepgramSTT.alt_transcript := Some text;
                                         DeepgramSTT.is_final := Some true |}) σ in
  sent sid (trace r)
  = (if Nat.eqb (readyState (ws s)) OPEN
     then stt_transcript text true :: map llm_token (GroqLLM.spoken chunks)
          ++ (if said then [llm_complete full; tts_text full] else [])
     else [])
  /\ calls sid (trace r) = [groqLLM_streamCompletion (conversationHistory s ++ [turn])]
  /\ field conversationHistory sid (state r)
     = Some (conversationHistory s ++ turn
             :: (if said then [{| role := assistant; content := JS.trim full |}] else []))
  /\ field groqLLM sid (state r)
     = Some (Some {| GroqLLM.currentStream := None; GroqLLM.fullResponse := full;
                     GroqLLM.onToken_set := true; GroqLLM.onComplete_set := true |})
  /\ field isActive sid (state r) = Some true.
Proof.
  intros H Ha Hd Hcb Hg Htok Hcomp Htext turn Hreply full said r.
  pose proof (trim_truthy text Htext) as Htext'.
  set (s1 := set_conversationHistory (conversationHistory s ++ [turn]) s).
  set (g' := {| GroqLLM.currentStream := None; GroqLLM.fullResponse := full;
                GroqLLM.onToken_set := true; GroqLLM.onComplete_set := true |}).
  set (s2 := set_groqLLM (Some g') s1).
  (* the callbacks *)
  assert (Hend : exists l3 s3,
             llm_dispatch sid (if said then [GroqLLM.onComplete full] else [])
               (store sid s2 σ) = (store sid s3 σ, l3, returned tt)
             /\ sent sid l3
                = (if Nat.eqb (readyState (ws s)) OPEN
                   then (if said then [llm_complete full; tts_text full] else [])
                   else [])
             /\ calls sid l3 = []
             /\ conversationHistory s3
                = conversationHistory s ++ turn
                  :: (if said then [{| role := assistant; content := JS.trim full |}] else [])
             /\ groqLLM s3 = Some g' /\ isActive s3 = true).
  { subst said. destruct (JS.truthy (JS.trim full)) eqn:Hsaid.
    - eexists. eexists. split; [|split; [|split; [|split; [|split]]]].
      + cbn [llm_dispatch]. unfold onComplete. rewrite Hsaid. exec.
      + subst s2 s1. cbn [ws set_groqLLM set_conversationHistory].
        destruct (Nat.eqb (readyState (ws s)) OPEN); cbn; rewrite ?String.eqb_refl; reflexivity.
      + subst s2 s1. cbn [ws set_groqLLM set_conversationHistory].
        destruct (Nat.eqb (readyState (ws s)) OPEN); reflexivity.
      + cbn. rewrite <- app_assoc. reflexivity.
      + reflexivity.
      + exact Ha.
    - exists [], s2. cbn. destruct (Nat.eqb _ _); rewrite ?app_nil_r; auto 10. }
  destruct Hend as (l3 & s3 & Hend & Hs3 & Hc3 & Hh3 & Hg3 & Ha3).
  destruct (dispatch_tokens sid s2 σ _ _ _ _ (GroqLLM.spoken chunks) Hend)
    as (l2 & Hdisp & Hs2 & Hc2).
  assert (Hrun : exists l,
             handle env (Transcript sid {| DeepgramSTT.alt_transcript := Some text;
                                           DeepgramSTT.is_final := Some true |})
               (store sid s σ) = (store sid s3 σ, l, returned tt)
             /\ sent sid l
                = (if Nat.eqb (readyState (ws s)) OPEN
                   then stt_transcript text true :: map llm_token (GroqLLM.spoken chunks)
                        ++ (if said then [llm_complete full; tts_text full] else [])
                   else [])
             /\ calls sid l
                = [groqLLM_streamCompletion (conversationHistory s ++ [turn])]).
  { unfold handle. rewrite (with_session_at _ _ _ _ _ (heap_at _ _ _)). rewrite Hd.
    unfold DeepgramSTT.on_Transcript.
    cbn [DeepgramSTT.alt_transcript DeepgramSTT.is_final default from_option id].
    unfold JS.or_else. cbv zeta. rewrite ?Htext'. rewrite ?Htext', ?Htext, ?Hcb.
    cbn [andb stt_dispatch].
    eexists. split; [|split].
    - eapply bind_ok; [eapply bind_ok; [exec|]|exec].
      eapply try_ok. unfold VoiceAgentServer.onTranscript.
      eapply bind_ok; [exec|]. rewrite Htext. cbn [andb]. unfold when.
      eapply detached_eq. unfold processLLM.
      rewrite (with_session_at _ _ _ _ _ (heap_at _ _ _)).
      rewrite Hg, Ha, Htext. cbn [present negb orb].
      eapply try_ok. eapply bind_ok; [exec|].
      unfold llm_streamCompletion.
      rewrite (with_session_at _ _ _ _ _ (heap_at _ _ _)).
      cbn [set_conversationHistory groqLLM conversationHistory]. rewrite Hg.
      fold turn. rewrite Hreply.
      rewrite (Completion.ended_stream _ st chunks g) by (destruct (conversationHistory s); discriminate).
      rewrite Htok, Hcomp. cbn [andb]. fold full. fold said.
      eapply bind_ok; [eapply bind_ok; [eapply bind_ok; [exec|apply update_at]|]|exec].
      cbn [llm_dispatch]. eapply bind_ok; [exec|].
      exact Hdisp.
    - rewrite !Coordinator.sent_app, Hs2, Hs3.
      subst s2 s1. cbn [ws set_groqLLM set_conversationHistory].
      destruct (Nat.eqb (readyState (ws s)) OPEN); cbn; rewrite ?String.eqb_refl;
        rewrite ?app_nil_r; reflexivity.
    - rewrite !Coordinator.calls_app, Hc2, Hc3.
      destruct (Nat.eqb (readyState (ws s)) OPEN); cbn; rewrite ?String.eqb_refl;
        reflexivity. }
  destruct Hrun as (l & Hrun & Hsent & Hcalls).
  rewrite (store_at _ _ _ H) in Hrun. subst r. rewrite Hrun.
  cbn [state trace outcome fst snd]. unfold field. rewrite heap_at.
  cbn [fmap option_fmap option_map]. rewrite Hh3, Hg3, Ha3. auto.
Qed.

Lemma final_transcript_is_answered_witness :
  let r := handle Sample.env (Transcript "s1" Sample.question)
             (Sample.server_with Sample.talking) in
  sent "s1" (trace r)
  = [stt_transcript "  what about the weather " true; llm_token "Hi"; llm_token " there";
     llm_complete "Hi there"; tts_text "Hi there"]
  /\ calls "s1" (trace r)
     = [groqLLM_streamCompletion
          (Sample.hello ++ [{| role := user; content := "what about the weather" |}])]
  /\ field conversationHistory "s1" (state r)
     = Some (Sample.hello ++ [{| role := user; content := "what about the weather" |};
                             {| role := assistant; content := "Hi there" |}])
  /\ field groqLLM "s1" (state r)
     = Some (Some {| GroqLLM.currentStream := None; GroqLLM.fullResponse := "Hi there";
                     GroqLLM.onToken_set := true; GroqLLM.onComplete_set := true |})
  /\ field isActive "s1" (state r) = Some true.
Proof.
  exact (final_transcript_is_answered Sample.env "s1" (Sample.server_with Sample.talking)
           Sample.talking Sample.bridge Sample.streaming "  what about the weather "
           7 ["Hi"; " there"]
           eq_refl eq_refl eq_refl eq_refl eq_refl eq_refl eq_refl eq_refl eq_refl).
Defined.

(** A teardown trigger for a session that is not in the registry. *)
Lemma unregistered_teardown (env : Env) (sid : string) (σ : t) (s : ClientSession)
    (e : Event) :
  heap σ !! sid = Some s -> sessionId s = sid -> (sid ∉ sessions σ) ->
  teardown_trigger sid e = true ->
  let r := handle env e σ in
  calls sid (trace r) = []
  /\ (sid ∉ sessions (state r))
  /\ field isActive sid (state r) = Some (isActive s)
  /\ field deepgramSTT sid (state r) = Some (deepgramSTT s)
  /\ field groqLLM sid (state r) = Some (groqLLM s)
  /\ sent sid (trace r)
     = match e with
       | message _ _ =>
           if isActive s && Nat.eqb (readyState (ws s)) OPEN
           then [conversation_stopped] else []
       | _ => []
       end.
Proof.
  intros H Hid Hout He r.
  assert (Hclean : forall σ0 : t, (sid ∉ sessions σ0) ->
            cleanupSession sid σ0 = (σ0, [], returned tt)).
  { intros σ0 Hn. unfold cleanupSession. rewrite decide_False by exact Hn. reflexivity. }
  assert (Hcases : e = message sid (Some stop_conversation) \/ e = close sid
                   \/ e = socket_error sid).
  { destruct e as [s0|s0 frame|s0|s0|s0 dt|s0|s0 ev]; try discriminate He.
    - destruct frame as [m|]; [destruct m|]; try discriminate He.
      apply String.eqb_eq in He. subst s0. auto.
    - apply String.eqb_eq in He. subst s0. auto.
    - apply String.eqb_eq in He. subst s0. auto. }
  clear He. destruct Hcases as [->|[->| ->]].
  - assert (Hrun : handle env (message sid (Some stop_conversation)) σ
                   = (σ, if isActive s && Nat.eqb (readyState (ws s)) OPEN
                         then [ws_send sid conversation_stopped] else [], returned tt)).
    { unfold handle, on_message, handleMessage, stopConversation.
      eapply try_ok. rewrite (with_session_at _ _ _ _ _ H). rewrite Hid.
      destruct (isActive s); cbn [negb andb]; [|reflexivity].
      etransitivity; [eapply bind_ok; [apply Hclean, Hout|]|].
      - apply Coordinator.sendMessage_at, H.
      - reflexivity. }
    subst r. rewrite Hrun. cbn [state trace fst snd]. unfold field. rewrite H.
    repeat split; auto.
    + destruct (isActive s && _); reflexivity.
    + destruct (isActive s && _); cbn; rewrite ?String.eqb_refl; reflexivity.
  - assert (Hrun : handle env (close sid) σ
                   = (store sid (set_ws {| readyState := CLOSED |} s) σ, [], returned tt)).
    { unfold handle, on_close.
      etransitivity; [eapply bind_ok; [apply Coordinator.update_store, H|]|reflexivity].
      rewrite (with_session_at _ _ _ _ _ (heap_at _ _ _)).
      eapply detached_eq. cbn [sessionId set_ws]. rewrite Hid. apply Hclean. exact Hout. }
    subst r. rewrite Hrun. cbn [state trace fst snd]. unfold field. rewrite heap_at.
    repeat split; auto.
  - assert (Hrun : handle env (socket_error sid) σ = (σ, [], returned tt)).
    { unfold handle, on_error. rewrite (with_session_at _ _ _ _ _ H).
      eapply detached_eq. rewrite Hid. apply Hclean. exact Hout. }
    subst r. rewrite Hrun. cbn [state trace fst snd]. unfold field. rewrite H.
    repeat split; auto.
Qed.

(** X14.  A conversation stopped and started again on the same
    socket is outside the registry: [cleanupSession] deleted the
    entry and [startConversation] does not register the session
    again.  From then on [stop_conversation], the close of the socket
    and its error release nothing: no component is called, the
    session stays active and its bridge keeps its engine
    connection. *)
Theorem restarted_session_is_not_released (env : Env) (sid : string) (σ : t)
    (s : ClientSession) (c : DeepgramSTT.Connection) (e : Event) :
  sid ∈ sessions σ -> heap σ !! sid = Some s -> sessionId s = sid -> isActive s = true ->
  snd (WebRTCServer.cleanup sid (webrtcServer σ)) = None ->
  JS.truthy (DEEPGRAM_API_KEY env) = true -> JS.truthy (GROQ_API_KEY env) = true ->
  listen_live env = DeepgramSTT.live_opens c ->
  teardown_trigger sid e = true ->
  let σ2 := state (run env [message sid (Some stop_conversation);
                            message sid (Some start_conversation)] σ) in
  let r := handle env e σ2 in
  field isActive sid σ2 = Some true
  /\ (sid ∉ sessions σ2)
  /\ calls sid (trace r) = []
  /\ field isActive sid (state r) = Some true
  /\ field (fun x => DeepgramSTT.connection <$> deepgramSTT x) sid (state r)
     = Some (Some (Some c)).
Proof.
  intros Hr H Hid Ha Hok Hk1 Hk2 Hlive He σ2 r.
  set (w := fst (fst (WebRTCServer.cleanup sid (webrtcServer σ)))).
  set (σ' := {| heap := heap σ; sessions := sessions σ ∖ {[sid]}; webrtcServer := w |}).
  destruct (Coordinator.cleanupSession_runs env sid σ s Hr H Hok) as (l & Hc & _ & _).
  change (torn_down sid (released s) w σ) with (store sid (released s) σ') in Hc.
  assert (Hstop : state (handle env (message sid (Some stop_conversation)) σ)
                  = store sid (released s) σ').
  { assert (Hrun : exists l', handle env (message sid (Some stop_conversation)) σ
                              = (store sid (released s) σ', l', returned tt)).
    { eexists. unfold handle, on_message, handleMessage, stopConversation.
      eapply try_ok. rewrite (with_session_at _ _ _ _ _ H). rewrite Ha, Hid.
      cbn [negb]. eapply bind_ok; [exact Hc|].
      apply (sendMessage_store sid conversation_stopped (released s) σ'). }
    destruct Hrun as (l' & ->). reflexivity. }
  assert (Hstart : σ2 = store sid (started (DEEPGRAM_API_KEY env) c (released s)) σ').
  { subst σ2. rewrite !Coordinator.run_cons. cbn [run]. unfold ret at 1.
    cbn [state fst]. rewrite Hstop.
    destruct (start_runs env sid σ' (released s) c eq_refl Hk1 Hk2 Hlive) as (l2 & -> & _).
    reflexivity. }
  assert (H2 : heap σ2 !! sid = Some (started (DEEPGRAM_API_KEY env) c (released s)))
    by (rewrite Hstart; apply heap_at).
  assert (Hout : sid ∉ sessions σ2).
  { rewrite Hstart. cbn [sessions store σ']. intros Hin.
    apply elem_of_difference in Hin as [_ Hn]. apply Hn, elem_of_singleton. reflexivity. }
  destruct (unregistered_teardown env sid σ2 _ e H2 Hid Hout He)
    as (Hcalls & _ & Hact & Hstt & _).
  split; [unfold field; rewrite H2; reflexivity|].
  split; [exact Hout|]. split; [exact Hcalls|]. split; [exact Hact|].
  unfold field in Hstt |- *. fold r in Hstt.
  destruct (heap (state r) !! sid) as [s3|]; cbn [fmap option_fmap option_map] in *;
    [|discriminate].
  injection Hstt as Hstt. rewrite Hstt. reflexivity.
Qed.

Lemma restarted_session_is_not_released_witness :
  let σ2 := state (run Sample.env [message "s1" (Some stop_conversation);
                                   message "s1" (Some start_conversation)]
                     (Sample.server_with_peer Sample.talking)) in
  let r := handle Sample.env (message "s1" (Some stop_conversation)) σ2 in
  field isActive "s1" σ2 = Some true
  /\ ("s1" ∉ sessions σ2)
  /\ calls "s1" (trace r) = []
  /\ field isActive "s1" (state r) = Some true
  /\ field (fun x => DeepgramSTT.connection <$> deepgramSTT x) "s1" (state r)
     = Some (Some (Some Sample.link)).
Proof.
  assert (Hreg : "s1" ∈ sessions (Sample.server_with_peer Sample.talking)) by reflexivity.
  exact (restarted_session_is_not_released Sample.env "s1"
           (Sample.server_with_peer Sample.talking) Sample.talking Sample.link
           (message "s1" (Some stop_conversation))
           Hreg eq_refl eq_refl eq_refl eq_refl eq_refl eq_refl eq_refl eq_refl).
Defined.

(** The server after [stop_conversation] and [start_conversation] on
    the same socket. *)
Lemma restart_state (env : Env) (sid : string) (σ : t) (s : ClientSession)
    (c : DeepgramSTT.Connection) :
  sid ∈ sessions σ -> heap σ !! sid = Some s -> sessionId s = sid -> isActive s = true ->
  snd (WebRTCServer.cleanup sid (webrtcServer σ)) = None ->
  JS.truthy (DEEPGRAM_API_KEY env) = true -> JS.truthy (GROQ_API_KEY env) = true ->
  listen_live env = DeepgramSTT.live_opens c ->
  state (run env [message sid (Some stop_conversation);
                  message sid (Some start_conversation)] σ)
  = store sid (started (DEEPGRAM_API_KEY env) c (released s))
      {| heap := heap σ; sessions := sessions σ ∖ {[sid]};
         webrtcServer := fst (fst (WebRTCServer.cleanup sid (webrtcServer σ))) |}.
Proof.
  intros Hr H Hid Ha Hok Hk1 Hk2 Hlive.
  set (w := fst (fst (WebRTCServer.cleanup sid (webrtcServer σ)))).
  set (σ' := {| heap := heap σ; sessions := sessions σ ∖ {[sid]}; webrtcServer := w |}).
  destruct (Coordinator.cleanupSession_runs env sid σ s Hr H Hok) as (l & Hc & _ & _).
  change (torn_down sid (released s) w σ) with (store sid (released s) σ') in Hc.
  assert (Hstop : state (handle env (message sid (Some stop_conversation)) σ)
                  = store sid (released s) σ').
  { assert (Hrun : exists l', handle env (message sid (Some stop_conversation)) σ
                              = (store sid (released s) σ', l', returned tt)).
    { eexists. unfold handle, on_message, handleMessage, stopConversation.
      eapply try_ok. rewrite (with_session_at _ _ _ _ _ H). rewrite Ha, Hid.
      cbn [negb]. eapply bind_ok; [exact Hc|].
      apply (sendMessage_store sid conversation_stopped (released s) σ'). }
    destruct Hrun as (l' & ->). reflexivity. }
  rewrite !Coordinator.run_cons. cbn [run]. unfold ret at 1.
  cbn [state fst]. rewrite Hstop.
  destruct (start_runs env sid σ' (released s) c eq_refl Hk1 Hk2 Hlive) as (l2 & -> & _).
  reflexivity.
Qed.

(** The listeners of [setupWebRTC] look the session up in the
    registry: for a session that is not there, every report of its
    peer connection is dropped. *)
Lemma report_to_unregistered (env : Env) (sid : string) (ev : WebRTCServer.PcEvent)
    (σ : t) :
  sid ∉ sessions σ ->
  heap (state (handle env (peer sid ev) σ)) = heap σ
  /\ sessions (state (handle env (peer sid ev) σ)) = sessions σ
  /\ trace (handle env (peer sid ev) σ) = [].
Proof.
  intros Hout. cbn [handle].
  destruct (WebRTCServer.on_pc_event (Buffer_from_base64 env) sid ev (webrtcServer σ))
    as [w emitted].
  assert (Hone : forall (x : WebRTCServer.Emitted) (σ0 : t),
            sid ∉ sessions σ0 -> on_emitted env sid x σ0 = (σ0, [], returned tt)).
  { intros x σ0 Hn. destruct x; cbn [on_emitted]; unfold registered;
      rewrite ?decide_False by exact Hn; reflexivity. }
  assert (Hall : forall σ0 : t, sid ∉ sessions σ0 ->
            on_emitted_all env sid emitted σ0 = (σ0, [], returned tt)).
  { induction emitted as [|x rest IH]; intros σ0 Hn; [reflexivity|].
    cbn [on_emitted_all]. unfold bind, detached. rewrite (Hone x σ0 Hn), (IH σ0 Hn).
    reflexivity. }
  unfold bind, set_webrtcServer, modify. rewrite Hall by exact Hout.
  repeat split.
Qed.

Lemma reports_to_unregistered (env : Env) (sid : string) (pcs : list WebRTCServer.PcEvent) :
  forall σ : t,
    sid ∉ sessions σ ->
    heap (state (run env (map (peer sid) pcs) σ)) = heap σ
    /\ sessions (state (run env (map (peer sid) pcs) σ)) = sessions σ
    /\ trace (run env (map (peer sid) pcs) σ) = [].
Proof.
  induction pcs as [|ev pcs IH]; intros σ Hout; [repeat split|].
  cbn [map]. rewrite Coordinator.run_cons. cbn [state trace fst snd].
  destruct (report_to_unregistered env sid ev σ Hout) as (Hh & Hs & Ht).
  destruct (IH (state (handle env (peer sid ev) σ))) as (Ih & Is & It).
  { rewrite Hs. exact Hout. }
  unfold state, trace in *. rewrite Ih, Is, It, Hh, Hs, Ht. repeat split.
Qed.

(** An [audio_chunk] for a session whose transport is marked ready. *)
Lemma audio_chunk_refused (env : Env) (sid data : string) (σ : t) (s : ClientSession) :
  heap σ !! sid = Some s -> strictly_true (useWebRTC s) = true ->
  handle env (message sid (Some (audio_chunk data))) σ = (σ, [], returned tt).
Proof.
  intros H Hu. unfold handle, on_message, handleMessage, try_catch, with_session.
  rewrite H, Hu. rewrite !andb_false_r. reflexivity.
Qed.

(** C6. A session stopped and started again on its socket, then
    given an offer: it is active and has its recognition bridge, the
    offer marks its transport ready, and it is no longer in the
    registry the listeners of [setupWebRTC] look sessions up in.  So
    whatever the peer connection reports afterwards, the loss of the
    transport included, the mark stays and an [audio_chunk] of the
    control channel is not handed to the bridge. *)
Theorem restarted_session_refuses_fallback (env : Env) (sid : string) (σ : t)
    (s : ClientSession) (c : DeepgramSTT.Connection)
    (offer : option WebRTCServer.Description) (pcs : list WebRTCServer.PcEvent)
    (data : string) :
  sid ∈ sessions σ -> heap σ !! sid = Some s -> sessionId s = sid -> isActive s = true ->
  snd (WebRTCServer.cleanup sid (webrtcServer σ)) = None ->
  JS.truthy (DEEPGRAM_API_KEY env) = true -> JS.truthy (GROQ_API_KEY env) = true ->
  listen_live env = DeepgramSTT.live_opens c ->
  let σ3 := state (run env ([message sid (Some stop_conversation);
                             message sid (Some start_conversation);
                             message sid (Some (webrtc_offer offer))]
                            ++ map (peer sid) pcs) σ) in
  field isActive sid σ3 = Some true
  /\ field (fun x => present (deepgramSTT x)) sid σ3 = Some true
  /\ (sid ∉ sessions σ3)
  /\ marked_ready sid σ3 = true
  /\ trace (handle env (message sid (Some (audio_chunk data))) σ3) = []
  /\ calls sid (trace (handle env (message sid (Some (audio_chunk data))) σ3)) = [].
Proof.
  intros Hr H Hid Ha Hok Hk1 Hk2 Hlive σ3.
  set (s2 := started (DEEPGRAM_API_KEY env) c (released s)).
  set (σ' := {| heap := heap σ; sessions := sessions σ ∖ {[sid]};
                webrtcServer := fst (fst (WebRTCServer.cleanup sid (webrtcServer σ))) |}).
  pose proof (restart_state env sid σ s c Hr H Hid Ha Hok Hk1 Hk2 Hlive) as Hrestart.
  fold σ' s2 in Hrestart.
  assert (Hoffer : exists w,
            state (run env [message sid (Some stop_conversation);
                            message sid (Some start_conversation);
                            message sid (Some (webrtc_offer offer))] σ)
            = with_rtc w (store sid (set_useWebRTC (Some true) s2) σ')).
  { change [message sid (Some stop_conversation); message sid (Some start_conversation);
            message sid (Some (webrtc_offer offer))]
      with ([message sid (Some stop_conversation); message sid (Some start_conversation)]
            ++ [message sid (Some (webrtc_offer offer))]).
    rewrite Coordinator.run_snoc, Hrestart.
    unfold handle, on_message, handleMessage, try_catch.
    rewrite (Coordinator.handleWebRTCOffer_at env sid offer _ s2 (heap_at _ _ _)).
    cbn [state fst]. rewrite Coordinator.store_store. eexists. reflexivity. }
  destruct Hoffer as (w & Hoffer).
  assert (Hout : sid ∉ sessions (with_rtc w (store sid (set_useWebRTC (Some true) s2) σ'))).
  { cbn [sessions with_rtc store σ']. intros Hin.
    apply elem_of_difference in Hin as [_ Hn]. apply Hn, elem_of_singleton. reflexivity. }
  destruct (reports_to_unregistered env sid pcs _ Hout) as (Hheap & Hsess & _).
  assert (H3 : heap σ3 !! sid = Some (set_useWebRTC (Some true) s2)).
  { subst σ3. rewrite Coordinator.server_run_app, Hoffer, Hheap.
    cbn [with_rtc heap]. apply heap_at. }
  assert (Hout3 : sid ∉ sessions σ3).
  { subst σ3. rewrite Coordinator.server_run_app, Hoffer, Hsess. exact Hout. }
  unfold field, marked_ready. rewrite H3.
  rewrite (audio_chunk_refused env sid data σ3 _ H3 eq_refl).
  repeat split. exact Hout3.
Qed.

Lemma restarted_session_refuses_fallback_witness :
  let σ3 := state (run Sample.env
                     ([message "s1" (Some stop_conversation);
                       message "s1" (Some start_conversation);
                       message "s1" (Some (webrtc_offer (Some Sample.offer)))]
                      ++ map (peer "s1")
                           [WebRTCServer.connectionStateChange_to WebRTCServer.failed])
                     (Sample.server_with_peer Sample.talking)) in
  field isActive "s1" σ3 = Some true
  /\ field (fun x => present (deepgramSTT x)) "s1" σ3 = Some true
  /\ ("s1" ∉ sessions σ3)
  /\ marked_ready "s1" σ3 = true
  /\ trace (handle Sample.env (message "s1" (Some (audio_chunk "AAAA"))) σ3) = []
  /\ calls "s1" (trace (handle Sample.env (message "s1" (Some (audio_chunk "AAAA"))) σ3))
     = [].
Proof.
  assert (Hreg : "s1" ∈ sessions (Sample.server_with_peer Sample.talking)) by reflexivity.
  exact (restarted_session_refuses_fallback Sample.env "s1"
           (Sample.server_with_peer Sample.talking) Sample.talking Sample.link
           (Some Sample.offer) [WebRTCServer.connectionStateChange_to WebRTCServer.failed]
           "AAAA" Hreg eq_refl eq_refl eq_refl eq_refl eq_refl eq_refl eq_refl).
Defined.

End Conversation.

(** ** Invariants of the coordinator *)

Module Invariants.

Import VoiceAgentServer.

Section Rules.

Variable P : t -> Prop.
Variable E : Effect -> Prop.

Lemma sound_ret {A} (a : A) : sound P E (ret a).
Proof. intros σ H. split; [exact H|constructor]. Qed.

Lemma sound_throw {A} (e : JS.Error) : sound P E (throw (A:=A) e).
Proof. intros σ H. split; [exact H|constructor]. Qed.

Lemma sound_suspend {A} : sound P E (suspend (A:=A)).
Proof. intros σ H. split; [exact H|constructor]. Qed.

Lemma sound_lift {A} (r : JS.Error + A) : sound P E (lift r).
Proof. destruct r; [apply sound_throw|apply sound_ret]. Qed.

Lemma sound_bind {A B} (m : M A) (k : A -> M B) :
  sound P E m -> (forall a, sound P E (k a)) -> sound P E (m >>= k).
Proof.
  intros Hm Hk σ H. unfold bind, state, trace.
  destruct (Hm σ H) as [H1 T1]. unfold state, trace in H1, T1.
  destruct (m σ) as [[σ1 l1] [a|e|]]; cbn [fst snd] in *; auto.
  destruct (Hk a σ1 H1) as [H2 T2]. unfold state, trace in H2, T2.
  destruct (k a σ1) as [[σ2 l2] r2]. cbn [fst snd] in *.
  split; [exact H2|]. apply Forall_app. auto.
Qed.

Lemma sound_bind_at {A B} (m : M A) (k : A -> M B) (σ : t) :
  P (state (m σ)) /\ Forall E (trace (m σ)) -> (forall a, sound P E (k a)) ->
  P (state ((m >>= k) σ)) /\ Forall E (trace ((m >>= k) σ)).
Proof.
  intros [H1 T1] Hk. unfold bind, state, trace in *.
  destruct (m σ) as [[σ1 l1] [a|e|]]; cbn [fst snd] in *; auto.
  destruct (Hk a σ1 H1) as [H2 T2]. unfold state, trace in H2, T2.
  destruct (k a σ1) as [[σ2 l2] r2]. cbn [fst snd] in *.
  split; [exact H2|]. apply Forall_app. auto.
Qed.

Lemma sound_try_catch {A} (m : M A) (h : JS.Error -> M A) :
  sound P E m -> (forall e, sound P E (h e)) -> sound P E (try_catch m h).
Proof.
  intros Hm Hh σ H. unfold try_catch, state, trace.
  destruct (Hm σ H) as [H1 T1]. unfold state, trace in H1, T1.
  destruct (m σ) as [[σ1 l1] [a|e|]]; cbn [fst snd] in *; auto.
  destruct (Hh e σ1 H1) as [H2 T2]. unfold state, trace in H2, T2.
  destruct (h e σ1) as [[σ2 l2] r2]. cbn [fst snd] in *.
  split; [exact H2|]. apply Forall_app. auto.
Qed.

Lemma sound_try_catch_at {A} (m : M A) (h : JS.Error -> M A) (σ : t) :
  P (state (m σ)) /\ Forall E (trace (m σ)) -> (forall e, sound P E (h e)) ->
  P (state (try_catch m h σ)) /\ Forall E (trace (try_catch m h σ)).
Proof.
  intros [H1 T1] Hh. unfold try_catch, state, trace in *.
  destruct (m σ) as [[σ1 l1] [a|e|]]; cbn [fst snd] in *; auto.
  destruct (Hh e σ1 H1) as [H2 T2]. unfold state, trace in H2, T2.
  destruct (h e σ1) as [[σ2 l2] r2]. cbn [fst snd] in *.
  split; [exact H2|]. apply Forall_app. auto.
Qed.

Lemma sound_detached (m : M unit) : sound P E m -> sound P E (detached m).
Proof.
  intros Hm σ H. unfold detached, state, trace.
  destruct (Hm σ H) as [H1 T1]. unfold state, trace in H1, T1.
  destruct (m σ) as [[σ1 l1] r]. auto.
Qed.

Lemma sound_tell (l : list Effect) : Forall E l -> sound P E (tell l).
Proof. intros Hl σ H. split; [exact H|exact Hl]. Qed.

Lemma sound_when (b : bool) (m : M unit) : sound P E m -> sound P E (when b m).
Proof. intros Hm. destruct b; [exact Hm|apply sound_ret]. Qed.

Lemma sound_modify (f : t -> t) : (forall σ, P σ -> P (f σ)) -> sound P E (modify f).
Proof. intros Hf σ H. split; [apply Hf, H|constructor]. Qed.

(** The code at a session object, which it may rely on to be the one
    in the heap. *)
Lemma sound_with_session {A} (dflt : A) (sid : string) (k : ClientSession -> M A) :
  (forall s σ, P σ -> heap σ !! sid = Some s ->
               P (state (k s σ)) /\ Forall E (trace (k s σ))) ->
  sound P E (with_session dflt sid k).
Proof.
  intros Hk σ H. unfold with_session.
  destruct (heap σ !! sid) as [s|] eqn:Hs; [apply Hk; assumption|].
  split; [exact H|constructor].
Qed.

Lemma sound_registered (sid : string) (k : ClientSession -> M unit) :
  (forall s σ, P σ -> heap σ !! sid = Some s ->
               P (state (k s σ)) /\ Forall E (trace (k s σ))) ->
  sound P E (registered sid k).
Proof.
  intros Hk σ H. unfold registered.
  destruct (decide (sid ∈ sessions σ)); [apply sound_with_session; assumption|].
  split; [exact H|constructor].
Qed.

Lemma sound_with_any_session {A} (dflt : A) (sid : string) (k : ClientSession -> M A) :
  (forall s, sound P E (k s)) -> sound P E (with_session dflt sid k).
Proof. intros Hk. apply sound_with_session. intros s σ H _. apply Hk, H. Qed.

Lemma sound_any_registered (sid : string) (k : ClientSession -> M unit) :
  (forall s, sound P E (k s)) -> sound P E (registered sid k).
Proof. intros Hk. apply sound_registered. intros s σ H _. apply Hk, H. Qed.

End Rules.

Create HintDb quiet.
Create HintDb formed.

Ltac sound_step solve_leaf :=
  lazymatch goal with
  | |- sound _ _ (ret _) => apply sound_ret
  | |- sound _ _ (throw _) => apply sound_throw
  | |- sound _ _ suspend => apply sound_suspend
  | |- sound _ _ (lift _) => apply sound_lift
  | |- sound _ _ (bind _ _) => apply sound_bind; [|intros ?]
  | |- sound _ _ (try_catch _ _) => apply sound_try_catch; [|intros ?]
  | |- sound _ _ (detached _) => apply sound_detached
  | |- sound _ _ (when true _) => unfold when
  | |- sound _ _ (when false _) => apply sound_ret
  | |- sound _ _ (when _ _) => apply sound_when
  | |- sound _ _ (with_session _ _ _) => apply sound_with_any_session; intros ?
  | |- sound _ _ (registered _ _) => apply sound_any_registered; intros ?
  | |- sound _ _ (match ?x with _ => _ end) => destruct x
  | |- _ => solve_leaf
  end.

(** ** Nothing is written to a closed socket *)

Section Closed.

Variable env : Env.
Variable sid : string.

Local Abbreviation quiet := (sound (socket_closed sid) (not_written sid)).

Lemma quiet_update (k : string) (f : ClientSession -> ClientSession) :
  (forall s, ws (f s) = ws s) -> quiet (update k f).
Proof.
  intros Hf σ H. split; [|constructor].
  unfold socket_closed, update, modify, state. cbn [fst heap].
  intros s Hs. rewrite lookup_alter in Hs. case_decide as Hk.
  - subst k. destruct (heap σ !! sid) as [s0|] eqn:H0; [|discriminate].
    injection Hs as <-. rewrite Hf. apply (H s0 H0).
  - apply (H s Hs).
Qed.

Lemma quiet_close (k : string) : quiet (update k (set_ws {| readyState := CLOSED |})).
Proof.
  intros σ H. split; [|constructor].
  unfold socket_closed, update, modify, state. cbn [fst heap].
  intros s Hs. rewrite lookup_alter in Hs. case_decide as Hk.
  - subst k. destruct (heap σ !! sid) as [s0|] eqn:H0; [|discriminate].
    injection Hs as <-. discriminate.
  - apply (H s Hs).
Qed.

Lemma quiet_heap (f : t -> t) : (forall σ, heap (f σ) = heap σ) -> quiet (modify f).
Proof.
  intros Hf. apply sound_modify. intros σ H s Hs. rewrite Hf in Hs. apply (H s Hs).
Qed.

Lemma quiet_sendMessage (k : string) (m : ServerMessage) : quiet (sendMessage k m).
Proof.
  unfold sendMessage. apply sound_with_session. intros s σ H Hs.
  destruct (Nat.eqb (readyState (ws s)) OPEN) eqn:Ho; cbn [when].
  - split; [exact H|]. repeat constructor. cbn. intros ->.
    apply Nat.eqb_eq in Ho. exact (H s Hs Ho).
  - split; [exact H|constructor].
Qed.

Lemma not_written_map {A} (f : A -> Effect) (l : list A) :
  (forall a, not_written sid (f a)) -> Forall (not_written sid) (map f l).
Proof. intros Hf. apply Forall_map, Forall_forall. intros a _. apply Hf. Qed.

Ltac quiet_leaf :=
  first
    [ apply quiet_sendMessage
    | apply quiet_close
    | apply quiet_update; intros []; reflexivity
    | apply quiet_heap; intros ?; reflexivity
    | apply sound_tell; first [ apply not_written_map; intros ?; exact I
                              | repeat constructor ]
    | solve [auto with quiet nocore] ].

Ltac quiet_auto := repeat (sound_step quiet_leaf).

(** A handler that reads the server before it acts. *)
Ltac quiet_at σ H :=
  match goal with |- _ (state (?m σ)) /\ _ =>
    let Hb := fresh in
    assert (Hb : quiet m) by quiet_auto; exact (Hb σ H) end.

Lemma quiet_llm_stop (k : string) : quiet (llm_stop k).
Proof. unfold llm_stop. quiet_auto. Qed.

Lemma quiet_stt_stop (k : string) : quiet (stt_stop k).
Proof. unfold stt_stop. quiet_auto. Qed.

Lemma quiet_stt_sendAudio (k : string) (a : DeepgramSTT.AudioData) :
  quiet (stt_sendAudio env k a).
Proof. unfold stt_sendAudio. quiet_auto. Qed.

Lemma quiet_rtc_cleanup (k : string) : quiet (rtc_cleanup k).
Proof.
  intros σ H. unfold rtc_cleanup.
  destruct (WebRTCServer.cleanup k (webrtcServer σ)) as [[w outs] err].
  unfold set_webrtcServer. quiet_at σ H.
Qed.

#[local] Hint Resolve quiet_llm_stop quiet_stt_stop quiet_stt_sendAudio
  quiet_rtc_cleanup : quiet.

Lemma quiet_cleanupSession (k : string) : quiet (cleanupSession k).
Proof.
  intros σ H. unfold cleanupSession.
  destruct (decide (k ∈ sessions σ)); [|split; [exact H|constructor]].
  quiet_at σ H.
Qed.

#[local] Hint Resolve quiet_cleanupSession : quiet.

Lemma quiet_handleInterrupt (k : string) : quiet (handleInterrupt k).
Proof. unfold handleInterrupt. quiet_auto. Qed.

Lemma quiet_llm_dispatch (k : string) (outs : list GroqLLM.Out) :
  quiet (llm_dispatch k outs).
Proof.
  induction outs as [|a outs IH]; cbn [llm_dispatch]; [apply sound_ret|].
  unfold onToken, onComplete, push. quiet_auto.
Qed.

#[local] Hint Resolve quiet_handleInterrupt quiet_llm_dispatch : quiet.

Lemma quiet_llm_streamCompletion (k : string) : quiet (llm_streamCompletion env k).
Proof. unfold llm_streamCompletion. quiet_auto. Qed.

#[local] Hint Resolve quiet_llm_streamCompletion : quiet.

Lemma quiet_processLLM (k : string) (transcript : string) :
  quiet (processLLM env k transcript).
Proof. unfold processLLM, processLLM_catch, sendError, push, pop. quiet_auto. Qed.

#[local] Hint Resolve quiet_processLLM : quiet.

Lemma quiet_stt_dispatch (k : string) (outs : list DeepgramSTT.Out) :
  quiet (stt_dispatch env k outs).
Proof.
  induction outs as [|a outs IH]; cbn [stt_dispatch]; [apply sound_ret|].
  unfold onTranscript. quiet_auto.
Qed.

Lemma quiet_stt_start (k : string) : quiet (stt_start env k).
Proof. unfold stt_start. quiet_auto. Qed.

#[local] Hint Resolve quiet_stt_dispatch quiet_stt_start : quiet.

Lemma quiet_startConversation (k : string) : quiet (startConversation env k).
Proof. unfold startConversation, sendError. quiet_auto. Qed.

Lemma quiet_stopConversation (k : string) : quiet (stopConversation k).
Proof. unfold stopConversation. quiet_auto. Qed.

Lemma quiet_rtc_handleOffer (k : string) (offer : option WebRTCServer.Description) :
  quiet (rtc_handleOffer env k offer).
Proof.
  intros σ H. unfold rtc_handleOffer.
  destruct (WebRTCServer.handleOffer _ k offer (webrtcServer σ)) as [[w outs] r].
  unfold set_webrtcServer. quiet_at σ H.
Qed.

#[local] Hint Resolve quiet_startConversation quiet_stopConversation
  quiet_rtc_handleOffer : quiet.

Lemma quiet_handleWebRTCOffer (k : string) (offer : option WebRTCServer.Description) :
  quiet (handleWebRTCOffer env k offer).
Proof. unfold handleWebRTCOffer, sendError. quiet_auto. Qed.

Lemma quiet_handleWebRTCIceCandidate (k : string) (candidate : option string) :
  quiet (handleWebRTCIceCandidate k candidate).
Proof.
  unfold handleWebRTCIceCandidate. apply sound_with_any_session. intros s.
  destruct (negb _); [apply sound_ret|]. intros σ H. quiet_at σ H.
Qed.

#[local] Hint Resolve quiet_handleWebRTCOffer quiet_handleWebRTCIceCandidate : quiet.

Lemma quiet_handleMessage (k : string) (message : ClientMessage) :
  quiet (handleMessage env k message).
Proof. unfold handleMessage. quiet_auto. Qed.

#[local] Hint Resolve quiet_handleMessage : quiet.

Lemma quiet_on_message (k : string) (frame : option ClientMessage) :
  quiet (on_message env k frame).
Proof. unfold on_message, sendError. quiet_auto. Qed.

Lemma quiet_on_close (k : string) : quiet (on_close k).
Proof. unfold on_close. quiet_auto. Qed.

Lemma quiet_on_error (k : string) : quiet (on_error k).
Proof. unfold on_error. quiet_auto. Qed.

Lemma quiet_on_emitted (k : string) (x : WebRTCServer.Emitted) : quiet (on_emitted env k x).
Proof. unfold on_emitted. quiet_auto. Qed.

#[local] Hint Resolve quiet_on_message quiet_on_close quiet_on_error quiet_on_emitted : quiet.

Lemma quiet_on_emitted_all (k : string) (l : list WebRTCServer.Emitted) :
  quiet (on_emitted_all env k l).
Proof.
  induction l as [|x l IH]; cbn [on_emitted_all]; [apply sound_ret|]. quiet_auto.
Qed.

#[local] Hint Resolve quiet_on_emitted_all : quiet.

Lemma quiet_on_connection (k : string) : k <> sid -> quiet (on_connection k).
Proof.
  intros Hk. unfold on_connection. apply sound_bind; [|intros _; apply quiet_sendMessage].
  apply sound_modify. intros σ H s Hs. cbn [heap] in Hs.
  rewrite lookup_insert_ne in Hs by exact Hk. apply (H s Hs).
Qed.

Lemma quiet_handle (e : Event) : e <> connection sid -> quiet (handle env e).
Proof.
  intros He. destruct e as [k|k frame|k|k|k data|k|k ev]; cbn [handle].
  - apply quiet_on_connection. congruence.
  - apply quiet_on_message.
  - apply quiet_on_close.
  - apply quiet_on_error.
  - quiet_auto.
  - quiet_auto.
  - intros σ H.
    destruct (WebRTCServer.on_pc_event _ k ev (webrtcServer σ)) as [w emitted].
    unfold set_webrtcServer. quiet_at σ H.
Qed.

Lemma quiet_run (es : list Event) : ~ In (connection sid) es -> quiet (run env es).
Proof.
  induction es as [|e es IH]; intros Hes; cbn [run]; [apply sound_ret|].
  apply sound_bind; [apply sound_detached, quiet_handle|intros _; apply IH].
  - intros ->. apply Hes. left. reflexivity.
  - intros Hin. apply Hes. right. exact Hin.
Qed.

Lemma not_written_sent (l : list Effect) : Forall (not_written sid) l -> sent sid l = [].
Proof.
  induction 1 as [|e l He Hl IH]; [reflexivity|].
  destruct e as [k c|k m|k a|k a|a]; cbn in *; try exact IH.
  destruct (String.eqb k sid) eqn:Hk; [|exact IH].
  apply String.eqb_eq in Hk. contradiction.
Qed.

End Closed.

(** X15.  Once the socket of a session has closed, nothing is ever
    written to it: whatever events follow (messages still in flight,
    transcripts, completions, reports of the peer connection, events
    of other sessions), no control message is sent on that socket, as
    long as no new connection takes the session id. *)
Theorem closed_socket_receives_nothing (env : Env) (sid : string) (es : list Event)
    (σ : t) :
  ~ In (connection sid) es ->
  sent sid (trace (run env (close sid :: es) σ)) = []
  /\ socket_closed sid (state (run env (close sid :: es) σ)).
Proof.
  intros Hes.
  assert (Hclosed : socket_closed sid (state (handle env (close sid) σ))
                    /\ sent sid (trace (handle env (close sid) σ)) = []).
  { cbn [handle]. unfold on_close.
    assert (H1 : socket_closed sid
                   (state (update sid (set_ws {| readyState := CLOSED |}) σ))).
    { unfold socket_closed, update, modify, state. cbn [fst heap]. intros s Hs.
      rewrite lookup_alter_eq in Hs. destruct (heap σ !! sid); [|discriminate].
      injection Hs as <-. discriminate. }
    pose proof (sound_with_any_session (socket_closed sid) (not_written sid) tt sid
                  (fun session => detached (cleanupSession (sessionId session)))
                  (fun s => sound_detached _ _ _ (quiet_cleanupSession sid (sessionId s)))
                  _ H1) as [H2 T2].
    unfold bind, state, trace in *. cbn [update modify fst snd] in *.
    destruct (with_session _ _ _ _) as [[σ2 l2] r2]. cbn [fst snd] in *.
    split; [exact H2|]. apply not_written_sent. exact T2. }
  destruct Hclosed as [H1 S1].
  destruct (quiet_run env sid es Hes _ H1) as [H2 T2].
  rewrite Coordinator.run_cons. cbn [state trace fst snd].
  rewrite Coordinator.sent_app, S1, (not_written_sent sid _ T2). auto.
Qed.

Lemma closed_socket_receives_nothing_witness :
  sent "s1" (trace (run Sample.env
                      [close "s1"; Transcript "s1" Sample.question;
                       message "s1" (Some interrupt)]
                      (Sample.server_with Sample.talking))) = []
  /\ socket_closed "s1" (state (run Sample.env
                      [close "s1"; Transcript "s1" Sample.question;
                       message "s1" (Some interrupt)]
                      (Sample.server_with Sample.talking))).
Proof.
  apply (closed_socket_receives_nothing Sample.env "s1"
           [Transcript "s1" Sample.question; message "s1" (Some interrupt)]).
  intros [H|[H|[]]]; discriminate H.
Defined.

(** ** Sessions in reachable states *)

Section Reachable.

Variable env : Env.

Local Abbreviation formed := (sound well_formed well_asked).

Lemma formed_store (k : string) (s : ClientSession) (σ : t) :
  well_formed σ -> good k s -> well_formed (store k s σ).
Proof.
  intros H Hs k' s'. unfold store. cbn [heap]. rewrite lookup_insert.
  case_decide as Hk; [|apply H]. intros [= <-]. subst k'. exact Hs.
Qed.

Lemma formed_update (k : string) (f : ClientSession -> ClientSession) :
  (forall s, good k s -> good k (f s)) -> formed (update k f).
Proof.
  intros Hf σ H. split; [|constructor].
  unfold well_formed, update, modify, state. cbn [fst heap]. intros k' s' Hs.
  rewrite lookup_alter in Hs. case_decide as Hk.
  - subst k'. destruct (heap σ !! k) as [s0|] eqn:H0; [|discriminate].
    injection Hs as <-. apply Hf, (H k s0 H0).
  - apply (H k' s' Hs).
Qed.

Lemma formed_heap (f : t -> t) : (forall σ, heap (f σ) = heap σ) -> formed (modify f).
Proof.
  intros Hf. apply sound_modify. intros σ H k s Hs. rewrite Hf in Hs. apply (H k s Hs).
Qed.

Lemma formed_sendMessage (k : string) (m : ServerMessage) : formed (sendMessage k m).
Proof.
  unfold sendMessage. apply sound_with_any_session. intros s.
  apply sound_when, sound_tell. repeat constructor.
Qed.

Lemma well_asked_map {A} (f : A -> Effect) (l : list A) :
  (forall a, well_asked (f a)) -> Forall well_asked (map f l).
Proof. intros Hf. apply Forall_map, Forall_forall. intros a _. apply Hf. Qed.

(** A state and a trace computed outright. *)
Lemma formed_result {A} (m : M A) (σ σ' : t) (l : list Effect) (r : Outcome A) :
  m σ = (σ', l, r) -> well_formed σ' -> Forall well_asked l ->
  well_formed (state (m σ)) /\ Forall well_asked (trace (m σ)).
Proof. intros -> H1 H2. auto. Qed.

(** Updates that keep a session good. *)

Lemma good_inactive (k : string) (s : ClientSession) :
  good k s -> good k (set_isActive false s).
Proof. intros [Hid _]. split; [exact Hid|discriminate]. Qed.

Lemma good_ws (k : string) (w : WebSocket) (s : ClientSession) :
  good k s -> good k (set_ws w s).
Proof. intros H. exact H. Qed.

Lemma good_useWebRTC (k : string) (u : option bool) (s : ClientSession) :
  good k s -> good k (set_useWebRTC u s).
Proof. intros H. exact H. Qed.

Lemma good_bridge (k : string) (s : ClientSession) (d d' : DeepgramSTT.t) :
  deepgramSTT s = Some d ->
  DeepgramSTT.onTranscript_set d' = DeepgramSTT.onTranscript_set d ->
  good k s -> good k (set_deepgramSTT (Some d') s).
Proof.
  intros Hd Hflag [Hid Heq]. split; [exact Hid|]. intros Ha.
  destruct (Heq Ha) as ((d0 & Hd0 & Hf0) & Hg & Hh).
  split; [|split; assumption]. exists d'. split; [reflexivity|].
  rewrite Hflag. congruence.
Qed.

Lemma good_pipeline (k : string) (s : ClientSession) (g g' : GroqLLM.t) :
  groqLLM s = Some g ->
  GroqLLM.onToken_set g' = GroqLLM.onToken_set g ->
  GroqLLM.onComplete_set g' = GroqLLM.onComplete_set g ->
  good k s -> good k (set_groqLLM (Some g') s).
Proof.
  intros Hg Ht Hc [Hid Heq]. split; [exact Hid|]. intros Ha.
  destruct (Heq Ha) as (Hd & (g0 & Hg0 & Ht0 & Hc0) & Hh).
  split; [exact Hd|]. split; [|exact Hh]. exists g'. split; [reflexivity|].
  rewrite Ht, Hc. split; congruence.
Qed.

Lemma good_push (k : string) (m : Message) (s : ClientSession) :
  good k s -> good k (set_conversationHistory (conversationHistory s ++ [m]) s).
Proof.
  intros [Hid Heq]. split; [exact Hid|]. intros Ha.
  destruct (Heq Ha) as (Hd & Hg & rest & Hh).
  split; [exact Hd|]. split; [exact Hg|]. exists (rest ++ [m]).
  cbn. rewrite Hh. reflexivity.
Qed.

Lemma good_pop (k : string) (s : ClientSession) :
  last_is_user (conversationHistory s) = true ->
  good k s -> good k (set_conversationHistory (removelast (conversationHistory s)) s).
Proof.
  intros Hlast [Hid Heq]. split; [exact Hid|]. intros Ha.
  destruct (Heq Ha) as (Hd & Hg & rest & Hh).
  split; [exact Hd|]. split; [exact Hg|]. cbn. rewrite Hh in Hlast |- *.
  destruct rest as [|m rest]; [discriminate Hlast|].
  exists (removelast (m :: rest)). reflexivity.
Qed.

Lemma stop_keeps_callbacks (g : GroqLLM.t) :
  GroqLLM.onToken_set (GroqLLM.stop g) = GroqLLM.onToken_set g
  /\ GroqLLM.onComplete_set (GroqLLM.stop g) = GroqLLM.onComplete_set g.
Proof. unfold GroqLLM.stop. destruct (GroqLLM.currentStream g); auto. Qed.

Lemma good_llm_stop (k : string) (s : ClientSession) :
  good k s -> good k (set_groqLLM (GroqLLM.stop <$> groqLLM s) s).
Proof.
  intros H. destruct (groqLLM s) as [g|] eqn:Hg.
  - cbn. destruct (stop_keeps_callbacks g) as [Ht Hc].
    apply (good_pipeline k s g _ Hg Ht Hc H).
  - destruct H as [Hid Heq]. split; [exact Hid|]. intros Ha.
    destruct (Heq Ha) as (_ & (g & Hg' & _) & _). congruence.
Qed.

Lemma good_on_Close (k : string) (s : ClientSession) :
  good k s -> good k (set_deepgramSTT (DeepgramSTT.on_Close <$> deepgramSTT s) s).
Proof.
  intros H. destruct (deepgramSTT s) as [d|] eqn:Hd.
  - cbn. apply (good_bridge k s d (DeepgramSTT.on_Close d) Hd eq_refl H).
  - destruct H as [Hid Heq]. split; [exact Hid|]. intros Ha.
    destruct (Heq Ha) as ((d & Hd' & _) & _). congruence.
Qed.

Ltac formed_leaf :=
  first
    [ apply formed_sendMessage
    | apply formed_update; intros ?;
      first [ apply good_inactive | apply good_ws | apply good_useWebRTC
            | apply good_llm_stop | apply good_on_Close | apply good_push ]
    | apply formed_heap; intros ?; reflexivity
    | apply sound_tell; first [ apply well_asked_map; intros ?; exact I
                              | repeat constructor ]
    | solve [auto with formed nocore] ].

Ltac formed_auto := repeat (sound_step formed_leaf).

Ltac formed_at σ H :=
  match goal with |- _ (state (?m σ)) /\ _ =>
    let Hb := fresh in
    assert (Hb : formed m) by formed_auto; exact (Hb σ H) end.

Lemma formed_llm_stop (k : string) : formed (llm_stop k).
Proof. unfold llm_stop. formed_auto. Qed.

(** The bridge's methods keep its callback. *)
Lemma bridge_stop_keeps_callback (d : DeepgramSTT.t) :
  DeepgramSTT.onTranscript_set (fst (DeepgramSTT.stop d)) = DeepgramSTT.onTranscript_set d.
Proof. unfold DeepgramSTT.stop. destruct (DeepgramSTT.connection d); reflexivity. Qed.

Lemma bridge_sendAudio_keeps_callback (from_base64 : string -> DeepgramSTT.Buffer)
    (a : DeepgramSTT.AudioData) (d : DeepgramSTT.t) :
  DeepgramSTT.onTranscript_set (fst (DeepgramSTT.sendAudio from_base64 a d))
  = DeepgramSTT.onTranscript_set d.
Proof.
  unfold DeepgramSTT.sendAudio. destruct (Nat.eqb _ 0); [reflexivity|].
  destruct (DeepgramSTT.isConnectionReady d); [|reflexivity].
  destruct (DeepgramSTT.connection d) as [c|]; [|reflexivity].
  destruct (DeepgramSTT.send_throws c); reflexivity.
Qed.

Lemma bridge_start_keeps_callback (live : DeepgramSTT.Live) (d : DeepgramSTT.t) :
  DeepgramSTT.onTranscript_set (fst (fst (DeepgramSTT.start live d)))
  = DeepgramSTT.onTranscript_set d.
Proof.
  unfold DeepgramSTT.start, DeepgramSTT.on_Open, DeepgramSTT.on_Error.
  destruct live as [e|c|c e|c]; try reflexivity.
  destruct (DeepgramSTT.flush _ _) as [[q a] ok]. reflexivity.
Qed.

(** A method of the bridge, entered on the object in the heap. *)
Lemma formed_bridge_call (k : string) (s : ClientSession) (d d' : DeepgramSTT.t)
    (c : Call) (outs : list DeepgramSTT.Out) (σ : t) :
  well_formed σ -> heap σ !! k = Some s -> deepgramSTT s = Some d ->
  DeepgramSTT.onTranscript_set d' = DeepgramSTT.onTranscript_set d ->
  well_asked (call k c) ->
  well_formed (state ((tell [call k c] >> update k (set_deepgramSTT (Some d'))
                       >> tell (map (stt k) outs)) σ))
  /\ Forall well_asked (trace ((tell [call k c] >> update k (set_deepgramSTT (Some d'))
                                >> tell (map (stt k) outs)) σ)).
Proof.
  intros H Hs Hd Hflag Hc.
  eapply formed_result.
  - eapply Conversation.bind_ok; [eapply Conversation.bind_ok; [reflexivity|]|reflexivity].
    apply Coordinator.update_store, Hs.
  - apply formed_store; [exact H|]. apply (good_bridge k s d d' Hd Hflag), (H k s Hs).
  - apply Forall_app_2; [repeat constructor; exact Hc|].
    apply well_asked_map. intros a. exact I.
Qed.

Lemma formed_stt_stop (k : string) : formed (stt_stop k).
Proof.
  unfold stt_stop. apply sound_with_session. intros s σ H Hs.
  destruct (deepgramSTT s) as [d|] eqn:Hd; [|split; [exact H|constructor]].
  pose proof (bridge_stop_keeps_callback d) as Hflag.
  destruct (DeepgramSTT.stop d) as [d' outs]. cbn [fst] in Hflag.
  exact (formed_bridge_call k s d d' deepgramSTT_stop outs σ H Hs Hd Hflag I).
Qed.

Lemma formed_stt_sendAudio (k : string) (a : DeepgramSTT.AudioData) :
  formed (stt_sendAudio env k a).
Proof.
  unfold stt_sendAudio. apply sound_with_session. intros s σ H Hs.
  destruct (deepgramSTT s) as [d|] eqn:Hd; [|split; [exact H|constructor]].
  pose proof (bridge_sendAudio_keeps_callback (Buffer_from_base64 env) a d) as Hflag.
  destruct (DeepgramSTT.sendAudio _ a d) as [d' outs]. cbn [fst] in Hflag.
  exact (formed_bridge_call k s d d' (deepgramSTT_sendAudio a) outs σ H Hs Hd Hflag I).
Qed.

Lemma formed_stt_start (k : string) : formed (stt_start env k).
Proof.
  unfold stt_start. apply sound_with_session. intros s σ H Hs.
  destruct (deepgramSTT s) as [d|] eqn:Hd; [|split; [exact H|constructor]].
  pose proof (bridge_start_keeps_callback (listen_live env) d) as Hflag.
  destruct (DeepgramSTT.start _ d) as [[d' outs] settled]. cbn [fst] in Hflag.
  apply sound_bind_at.
  - exact (formed_bridge_call k s d d' deepgramSTT_start outs σ H Hs Hd Hflag I).
  - intros _. destruct settled; [apply sound_ret|apply sound_throw|apply sound_suspend].
Qed.

Lemma formed_rtc_cleanup (k : string) : formed (rtc_cleanup k).
Proof.
  intros σ H. unfold rtc_cleanup.
  destruct (WebRTCServer.cleanup k (webrtcServer σ)) as [[w outs] err].
  unfold set_webrtcServer. formed_at σ H.
Qed.

#[local] Hint Resolve formed_llm_stop formed_stt_stop formed_stt_sendAudio formed_stt_start
  formed_rtc_cleanup : formed.

Lemma formed_cleanupSession (k : string) : formed (cleanupSession k).
Proof.
  intros σ H. unfold cleanupSession.
  destruct (decide (k ∈ sessions σ)); [|split; [exact H|constructor]].
  formed_at σ H.
Qed.

#[local] Hint Resolve formed_cleanupSession : formed.

Lemma formed_handleInterrupt (k : string) : formed (handleInterrupt k).
Proof. unfold handleInterrupt. formed_auto. Qed.

#[local] Hint Resolve formed_handleInterrupt : formed.

(** The response pipeline keeps its callbacks, and asks for what it
    was given. *)
Lemma streamCompletion_keeps_callbacks (h : list Message) (reply : GroqLLM.Reply)
    (g : GroqLLM.t) :
  GroqLLM.onToken_set (fst (fst (GroqLLM.streamCompletion h reply g)))
  = GroqLLM.onToken_set g
  /\ GroqLLM.onComplete_set (fst (fst (GroqLLM.streamCompletion h reply g)))
     = GroqLLM.onComplete_set g.
Proof.
  assert (He : GroqLLM.onToken_set (GroqLLM.enter g) = GroqLLM.onToken_set g
               /\ GroqLLM.onComplete_set (GroqLLM.enter g) = GroqLLM.onComplete_set g).
  { unfold GroqLLM.enter. cbn. apply stop_keeps_callbacks. }
  unfold GroqLLM.streamCompletion. destruct h as [|m h]; [exact He|].
  destruct reply as [e|st chunks thrown]; [exact He|].
  destruct (Completion.for_await_spec chunks
              (GroqLLM.set_currentStream (Some st) (GroqLLM.enter g))) as [H1 _].
  destruct (GroqLLM.for_await chunks _) as [o1 a1]. cbn [fst] in H1. subst o1.
  destruct thrown as [e|]; exact He.
Qed.

Lemma streamCompletion_asks (k : string) (h : list Message) (reply : GroqLLM.Reply)
    (g : GroqLLM.t) :
  prompt_and_turn h ->
  Forall (fun a => well_asked (llm k a)) (snd (fst (GroqLLM.streamCompletion h reply g))).
Proof.
  intros Hh.
  assert (Htok : forall chunks o,
            Forall (fun a => well_asked (llm k a)) (snd (GroqLLM.for_await chunks o))).
  { intros chunks o. destruct (Completion.for_await_spec chunks o) as [_ ->].
    destruct (GroqLLM.onToken_set o); [|constructor].
    apply Forall_map, Forall_forall. intros a _. exact I. }
  unfold GroqLLM.streamCompletion. destruct h as [|m h]; [constructor|].
  destruct reply as [e|st chunks thrown]; [repeat constructor; exact Hh|].
  specialize (Htok chunks (GroqLLM.set_currentStream (Some st) (GroqLLM.enter g))).
  destruct (GroqLLM.for_await chunks _) as [o1 a1]. cbn [snd] in Htok.
  destruct thrown as [e|]; cbn [fst snd].
  - constructor; [exact Hh|exact Htok].
  - unfold GroqLLM.on_end. cbn [fst snd]. constructor; [exact Hh|].
    apply Forall_app_2; [exact Htok|].
    destruct (_ && _); repeat constructor.
Qed.

Lemma formed_llm_dispatch (k : string) (outs : list GroqLLM.Out) :
  Forall (fun a => well_asked (llm k a)) outs -> formed (llm_dispatch k outs).
Proof.
  induction 1 as [|a outs Ha Houts IH]; cbn [llm_dispatch]; [apply sound_ret|].
  apply sound_bind; [|intros _; exact IH].
  apply sound_bind; [apply sound_tell; repeat constructor; exact Ha|intros _].
  unfold onToken, onComplete, push. formed_auto.
Qed.

Lemma formed_llm_streamCompletion (k : string) (s : ClientSession) (σ : t) :
  well_formed σ -> heap σ !! k = Some s -> prompt_and_turn (conversationHistory s) ->
  well_formed (state (llm_streamCompletion env k σ))
  /\ Forall well_asked (trace (llm_streamCompletion env k σ)).
Proof.
  intros H Hs Hh. unfold llm_streamCompletion. rewrite (Conversation.with_session_at _ _ _ _ _ Hs).
  destruct (groqLLM s) as [g|] eqn:Hg; [|split; [exact H|constructor]].
  destruct (streamCompletion_keeps_callbacks (conversationHistory s)
              (chat_completions_create env (conversationHistory s)) g) as [Ht Hc].
  pose proof (streamCompletion_asks k (conversationHistory s)
                (chat_completions_create env (conversationHistory s)) g Hh) as Houts.
  destruct (GroqLLM.streamCompletion _ _ g) as [[g' outs] err]. cbn [fst snd] in *.
  apply sound_bind_at; [|intros _; destruct err; [apply sound_throw|apply sound_ret]].
  apply sound_bind_at; [|intros _; apply formed_llm_dispatch, Houts].
  eapply formed_result.
  - eapply Conversation.bind_ok; [reflexivity|]. apply Coordinator.update_store, Hs.
  - apply formed_store; [exact H|]. apply (good_pipeline k s g g' Hg Ht Hc), (H k s Hs).
  - repeat constructor. exact Hh.
Qed.

Lemma formed_processLLM_catch (k : string) (err : JS.Error) :
  formed (processLLM_catch k err).
Proof.
  unfold processLLM_catch, sendError.
  apply sound_bind; [|intros _; apply formed_sendMessage].
  apply sound_with_session. intros s σ H Hs.
  destruct (last_is_user (conversationHistory s)) eqn:Hlast; cbn [when];
    [|split; [exact H|constructor]].
  eapply formed_result.
  - unfold pop. exact (Coordinator.update_store k _ σ s Hs).
  - apply formed_store; [exact H|]. apply good_pop; [exact Hlast|exact (H k s Hs)].
  - constructor.
Qed.

Lemma formed_processLLM (k : string) (transcript : string) :
  formed (processLLM env k transcript).
Proof.
  unfold processLLM. apply sound_with_session. intros s σ H Hs.
  destruct (groqLLM s) as [g|] eqn:Hg; cbn [present negb orb];
    [|split; [exact H|constructor]].
  destruct (isActive s) eqn:Ha; cbn [negb orb]; [|split; [exact H|constructor]].
  destruct (JS.truthy (JS.trim transcript)) eqn:Ht; cbn [negb];
    [|split; [exact H|constructor]].
  apply sound_try_catch_at; [|apply formed_processLLM_catch].
  destruct (H k s Hs) as [Hid Heq]. destruct (Heq Ha) as (_ & _ & rest & Hh).
  set (turn := {| role := user; content := JS.trim transcript |}).
  set (s1 := set_conversationHistory (conversationHistory s ++ [turn]) s).
  assert (Hpush : push k turn σ = (store k s1 σ, [], returned tt))
    by (unfold push; exact (Coordinator.update_store k _ σ s Hs)).
  assert (H1 : well_formed (store k s1 σ))
    by (apply formed_store; [exact H|]; apply (good_push k turn s), (H k s Hs)).
  destruct (formed_llm_streamCompletion k s1 (store k s1 σ) H1
              (Coordinator.heap_store k s1 σ)) as [H2 T2].
  { exists rest, transcript. cbn. rewrite Hh. auto. }
  unfold bind, state, trace in *. rewrite Hpush.
  destruct (llm_streamCompletion env k (store k s1 σ)) as [[σ2 l2] r2].
  cbn [fst snd] in *. auto.
Qed.

#[local] Hint Resolve formed_processLLM : formed.

Lemma formed_stt_dispatch (k : string) (outs : list DeepgramSTT.Out) :
  formed (stt_dispatch env k outs).
Proof.
  induction outs as [|a outs IH]; cbn [stt_dispatch]; [apply sound_ret|].
  unfold onTranscript. formed_auto.
Qed.

#[local] Hint Resolve formed_stt_dispatch : formed.

Lemma bind_suspended {A B} (m : M A) (k : A -> M B) (σ σ1 : t) (l1 : list Effect) :
  m σ = (σ1, l1, suspended) -> (m >>= k) σ = (σ1, l1, suspended).
Proof. intros H1. unfold bind. rewrite H1. reflexivity. Qed.

Lemma stt_start_at (k : string) (s : ClientSession) (σ : t) (d : DeepgramSTT.t) :
  deepgramSTT s = Some d ->
  stt_start env k (store k s σ)
  = (store k (set_deepgramSTT
                (Some (fst (fst (DeepgramSTT.start (listen_live env) d)))) s) σ,
     call k deepgramSTT_start
     :: map (stt k) (snd (fst (DeepgramSTT.start (listen_live env) d))),
     match snd (DeepgramSTT.start (listen_live env) d) with
     | DeepgramSTT.resolved => returned tt
     | DeepgramSTT.rejected e => thrown e
     | DeepgramSTT.pending => suspended
     end).
Proof.
  intros Hd. unfold stt_start.
  rewrite (Conversation.with_session_at _ _ _ _ _ (Conversation.heap_at _ _ _)). rewrite Hd.
  destruct (DeepgramSTT.start (listen_live env) d) as [[d' outs] settled]. cbn [fst snd].
  destruct settled as [|e|].
  - etransitivity; [Conversation.exec|]. cbn [app]. rewrite app_nil_r. reflexivity.
  - etransitivity; [Conversation.exec|]. cbn [app]. rewrite app_nil_r. reflexivity.
  - etransitivity; [eapply Conversation.bind_ok; [Conversation.exec|reflexivity]|].
    cbn [app]. rewrite app_nil_r. reflexivity.
Qed.

Lemma formed_startConversation (k : string) : formed (startConversation env k).
Proof.
  unfold startConversation. apply sound_with_session. intros s σ H Hs.
  destruct (isActive s) eqn:Ha; [split; [exact H|constructor]|].
  apply sound_try_catch_at; [|intros e; unfold sendError; formed_auto].
  destruct (H k s Hs) as [Hid _].
  rewrite <- (Conversation.store_at k s σ Hs) at 1 2.
  unfold JS.or_else, DeepgramSTT.new, GroqLLM.new.
  destruct (JS.truthy (DEEPGRAM_API_KEY env)) eqn:Hk1;
    [destruct (JS.truthy (GROQ_API_KEY env)) eqn:Hk2|];
    cbn [JS.truthy lift]; rewrite ?Hk1, ?Hk2; cbn [lift].
  - match goal with
    |- context [?Z >> stt_start env k >> update k (set_isActive true) >> ?send] =>
      assert (HZ : exists s0 d,
                 Z (store k s σ) = (store k s0 σ, [], returned tt)
                 /\ deepgramSTT s0 = Some d
                 /\ sessionId s0 = sessionId s /\ isActive s0 = false
                 /\ DeepgramSTT.onTranscript_set d = true
                 /\ groqLLM s0
                    = Some {| GroqLLM.currentStream := None; GroqLLM.fullResponse := "";
                              GroqLLM.onToken_set := true; GroqLLM.onComplete_set := true |}
                 /\ conversationHistory s0 = [system_turn]);
        [eexists; eexists; split;
         [etransitivity; [Conversation.exec|reflexivity]|cbn; auto 10]|]
    end.
    destruct HZ as (s0 & d & HZ & Hd0 & Hid0 & Ha0 & Hcb & Hg0 & Hh0).
    pose proof (Conversation.bind_ok _ (fun _ => stt_start env k) _ _ _ _ _ _ _ HZ
                  (stt_start_at k s0 σ d Hd0)) as HY. cbn [app] in HY.
    pose proof (bridge_start_keeps_callback (listen_live env) d) as Hflag.
    destruct (DeepgramSTT.start (listen_live env) d) as [[d' outs] settled].
    cbn [fst snd] in *.
    assert (Houts : Forall well_asked
                      (call k deepgramSTT_start :: map (stt k) outs)).
    { constructor; [exact I|]. apply well_asked_map. intros a. exact I. }
    destruct settled as [|e|].
    + eapply formed_result.
      * eapply Conversation.bind_ok; [eapply Conversation.bind_ok; [exact HY|]|].
        -- apply Conversation.update_at.
        -- apply Conversation.sendMessage_store.
      * apply formed_store; [exact H|]. split; [cbn; congruence|]. intros _.
        split; [|split].
        -- exists d'. split; [reflexivity|]. congruence.
        -- eexists. split; [exact Hg0|]. split; reflexivity.
        -- exists []. exact Hh0.
      * apply Forall_app_2; [apply Forall_app_2; [exact Houts|constructor]|].
        destruct (Nat.eqb _ _); repeat constructor.
    + eapply formed_result.
      * eapply Conversation.bind_thrown. eapply Conversation.bind_thrown. exact HY.
      * apply formed_store; [exact H|]. split; [cbn; congruence|]. cbn. congruence.
      * exact Houts.
    + eapply formed_result.
      * eapply bind_suspended. eapply bind_suspended. exact HY.
      * apply formed_store; [exact H|]. split; [cbn; congruence|]. cbn. congruence.
      * exact Houts.
  - eapply formed_result.
    + etransitivity; [Conversation.exec|reflexivity].
    + apply formed_store; [exact H|]. split; [exact Hid|]. cbn. congruence.
    + repeat constructor.
  - eapply formed_result.
    + etransitivity; [Conversation.exec|reflexivity].
    + apply formed_store; [exact H|]. split; [exact Hid|]. cbn. congruence.
    + repeat constructor.
Qed.

#[local] Hint Resolve formed_startConversation : formed.

Lemma formed_stopConversation (k : string) : formed (stopConversation k).
Proof. unfold stopConversation. formed_auto. Qed.

Lemma formed_rtc_handleOffer (k : string) (offer : option WebRTCServer.Description) :
  formed (rtc_handleOffer env k offer).
Proof.
  intros σ H. unfold rtc_handleOffer.
  destruct (WebRTCServer.handleOffer _ k offer (webrtcServer σ)) as [[w outs] r].
  unfold set_webrtcServer. formed_at σ H.
Qed.

#[local] Hint Resolve formed_stopConversation formed_rtc_handleOffer : formed.

Lemma formed_handleWebRTCOffer (k : string) (offer : option WebRTCServer.Description) :
  formed (handleWebRTCOffer env k offer).
Proof. unfold handleWebRTCOffer, sendError. formed_auto. Qed.

Lemma formed_handleWebRTCIceCandidate (k : string) (candidate : option string) :
  formed (handleWebRTCIceCandidate k candidate).
Proof.
  unfold handleWebRTCIceCandidate. apply sound_with_any_session. intros s.
  destruct (negb _); [apply sound_ret|]. intros σ H. formed_at σ H.
Qed.

#[local] Hint Resolve formed_handleWebRTCOffer formed_handleWebRTCIceCandidate : formed.

Lemma formed_handleMessage (k : string) (message : ClientMessage) :
  formed (handleMessage env k message).
Proof. unfold handleMessage. formed_auto. Qed.

#[local] Hint Resolve formed_handleMessage : formed.

Lemma formed_on_message (k : string) (frame : option ClientMessage) :
  formed (on_message env k frame).
Proof. unfold on_message, sendError. formed_auto. Qed.

Lemma formed_on_close (k : string) : formed (on_close k).
Proof. unfold on_close. formed_auto. Qed.

Lemma formed_on_error (k : string) : formed (on_error k).
Proof. unfold on_error. formed_auto. Qed.

Lemma formed_on_emitted (k : string) (x : WebRTCServer.Emitted) :
  formed (on_emitted env k x).
Proof. unfold on_emitted. formed_auto. Qed.

#[local] Hint Resolve formed_on_message formed_on_close formed_on_error
  formed_on_emitted : formed.

Lemma formed_on_emitted_all (k : string) (l : list WebRTCServer.Emitted) :
  formed (on_emitted_all env k l).
Proof.
  induction l as [|x l IH]; cbn [on_emitted_all]; [apply sound_ret|]. formed_auto.
Qed.

#[local] Hint Resolve formed_on_emitted_all : formed.

Lemma formed_on_connection (k : string) : formed (on_connection k).
Proof.
  unfold on_connection. apply sound_bind; [|intros _; apply formed_sendMessage].
  apply sound_modify. intros σ H k' s Hs. cbn [heap] in Hs.
  rewrite lookup_insert in Hs. case_decide as Hk; [|exact (H k' s Hs)].
  injection Hs as <-. subst k'. split; [reflexivity|discriminate].
Qed.

Lemma formed_handle (e : Event) : formed (handle env e).
Proof.
  destruct e as [k|k frame|k|k|k data|k|k ev]; cbn [handle].
  - apply formed_on_connection.
  - apply formed_on_message.
  - apply formed_on_close.
  - apply formed_on_error.
  - formed_auto.
  - formed_auto.
  - intros σ H.
    destruct (WebRTCServer.on_pc_event _ k ev (webrtcServer σ)) as [w emitted].
    unfold set_webrtcServer. formed_at σ H.
Qed.

Lemma formed_run (es : list Event) : formed (run env es).
Proof.
  induction es as [|e es IH]; cbn [run]; [apply sound_ret|].
  apply sound_bind; [apply sound_detached, formed_handle|intros _; exact IH].
Qed.

Lemma formed_new : well_formed new.
Proof. intros k s Hs. cbn in Hs. rewrite lookup_empty in Hs. discriminate. Qed.

End Reachable.

(** X16.  In every state the server can reach, a session that is
    active has its recognition bridge with the transcript callback,
    its response pipeline with both callbacks, and a history that
    starts with the system prompt; and every session object is the
    one its id names. *)
Theorem active_sessions_are_equipped (env : Env) (es : list Event) (k : string)
    (s : ClientSession) :
  heap (state (run env es new)) !! k = Some s ->
  sessionId s = k /\ (isActive s = true -> equipped s).
Proof.
  intros Hs. exact (proj1 (formed_run env es new formed_new) k s Hs).
Qed.

Lemma active_sessions_are_equipped_witness :
  sessionId (started "dg-key" Sample.link Sample.waiting) = "s1"
  /\ (isActive (started "dg-key" Sample.link Sample.waiting) = true
      -> equipped (started "dg-key" Sample.link Sample.waiting)).
Proof.
  apply (active_sessions_are_equipped Sample.env
           [connection "s1"; message "s1" (Some start_conversation)] "s1").
  vm_compute. reflexivity.
Defined.

(** X17.  Whatever happens to the server, every completion it asks
    of the response pipeline, and every request the pipeline makes,
    carries a history that starts with the system prompt and ends
    with the user turn just heard, trimmed and not empty: the
    pipeline is never asked with an empty history. *)
Theorem completions_carry_prompt_and_turn (env : Env) (es : list Event) (k : string)
    (h : list Message) :
  In (call k (groqLLM_streamCompletion h)) (trace (run env es new))
  \/ In (llm k (GroqLLM.create h)) (trace (run env es new)) ->
  exists rest transcript,
    h = system_turn :: rest ++ [{| role := user; content := JS.trim transcript |}]
    /\ JS.truthy (JS.trim transcript) = true.
Proof.
  intros Hin.
  pose proof (proj2 (formed_run env es new formed_new)) as Hall.
  rewrite List.Forall_forall in Hall.
  destruct Hin as [Hin|Hin]; apply Hall in Hin; exact Hin.
Qed.

Lemma completions_carry_prompt_and_turn_witness :
  exists rest transcript,
    Sample.seed ++ [{| role := user; content := "what about the weather" |}]
    = system_turn :: rest ++ [{| role := user; content := JS.trim transcript |}]
    /\ JS.truthy (JS.trim transcript) = true.
Proof.
  apply (completions_carry_prompt_and_turn Sample.env
           [connection "s1"; message "s1" (Some start_conversation);
            Transcript "s1" Sample.question] "s1").
  left. vm_compute. do 5 right. left. reflexivity.
Defined.

End Invariants.

(** ** The wording of control messages *)

Module Wording.

Import VoiceAgentServer.
Import Invariants.

Create HintDb worded.

Section Messages.

Variable env : Env.

Local Abbreviation worded := (sound any_state well_worded).

Lemma worded_modify (f : t -> t) : worded (modify f).
Proof. apply sound_modify. intros σ _. exact I. Qed.

Lemma worded_update (k : string) (f : ClientSession -> ClientSession) : worded (update k f).
Proof. apply worded_modify. Qed.

Lemma worded_sendMessage (k : string) (m : ServerMessage) :
  well_worded (ws_send k m) -> worded (sendMessage k m).
Proof.
  intros Hm. unfold sendMessage. apply sound_with_any_session. intros s.
  apply sound_when, sound_tell. repeat constructor. exact Hm.
Qed.

Lemma well_worded_map {A} (f : A -> Effect) (l : list A) :
  (forall a, well_worded (f a)) -> Forall well_worded (map f l).
Proof. intros Hf. apply Forall_map, Forall_forall. intros a _. apply Hf. Qed.

Lemma message_or_truthy (e : JS.Error) (dflt : string) :
  JS.truthy dflt = true -> JS.truthy (JS.message_or e dflt) = true.
Proof.
  intros Hd. unfold JS.message_or, JS.or_else.
  destruct (JS.message e) as [m|]; [|exact Hd].
  destruct (JS.truthy m) eqn:Hm; [exact Hm|exact Hd].
Qed.

Ltac worded_leaf :=
  first
    [ apply worded_sendMessage;
      first [ exact I | reflexivity | apply message_or_truthy; reflexivity | assumption ]
    | apply worded_update
    | apply worded_modify
    | apply sound_tell; first [ apply well_worded_map; intros ?; exact I
                              | repeat constructor ]
    | solve [auto with worded nocore] ].

Ltac worded_auto := repeat (sound_step worded_leaf).

Ltac worded_at σ H :=
  match goal with |- _ (state (?m σ)) /\ _ =>
    let Hb := fresh in
    assert (Hb : worded m) by worded_auto; exact (Hb σ H) end.

Lemma worded_llm_stop (k : string) : worded (llm_stop k).
Proof. unfold llm_stop. worded_auto. Qed.

Lemma worded_stt_stop (k : string) : worded (stt_stop k).
Proof. unfold stt_stop. worded_auto. Qed.

Lemma worded_stt_sendAudio (k : string) (a : DeepgramSTT.AudioData) :
  worded (stt_sendAudio env k a).
Proof. unfold stt_sendAudio. worded_auto. Qed.

Lemma worded_stt_start (k : string) : worded (stt_start env k).
Proof. unfold stt_start. worded_auto. Qed.

Lemma worded_rtc_cleanup (k : string) : worded (rtc_cleanup k).
Proof.
  intros σ H. unfold rtc_cleanup.
  destruct (WebRTCServer.cleanup k (webrtcServer σ)) as [[w outs] err].
  unfold set_webrtcServer. worded_at σ H.
Qed.

#[local] Hint Resolve worded_llm_stop worded_stt_stop worded_stt_sendAudio worded_stt_start
  worded_rtc_cleanup : worded.

Lemma worded_cleanupSession (k : string) : worded (cleanupSession k).
Proof.
  intros σ H. unfold cleanupSession.
  destruct (decide (k ∈ sessions σ)); [|split; [exact H|constructor]].
  worded_at σ H.
Qed.

#[local] Hint Resolve worded_cleanupSession : worded.

Lemma worded_handleInterrupt (k : string) : worded (handleInterrupt k).
Proof. unfold handleInterrupt. worded_auto. Qed.

Lemma streamCompletion_tokens (h : list Message) (reply : GroqLLM.Reply) (g : GroqLLM.t) :
  Forall spoken_token (snd (fst (GroqLLM.streamCompletion h reply g))).
Proof.
  assert (Htok : forall chunks o, Forall spoken_token (snd (GroqLLM.for_await chunks o))).
  { intros chunks o. destruct (Completion.for_await_spec chunks o) as [_ ->].
    destruct (GroqLLM.onToken_set o); [|constructor].
    apply Forall_map. unfold GroqLLM.spoken. apply List.Forall_forall. intros a Ha.
    apply filter_In in Ha as [_ Ha]. exact Ha. }
  unfold GroqLLM.streamCompletion. destruct h as [|m h]; [constructor|].
  destruct reply as [e|st chunks thrown]; [repeat constructor|].
  specialize (Htok chunks (GroqLLM.set_currentStream (Some st) (GroqLLM.enter g))).
  destruct (GroqLLM.for_await chunks _) as [o1 a1]. cbn [snd] in Htok.
  destruct thrown as [e|]; cbn [fst snd].
  - constructor; [exact I|exact Htok].
  - unfold GroqLLM.on_end. cbn [fst snd]. constructor; [exact I|].
    apply Forall_app_2; [exact Htok|]. destruct (_ && _); repeat constructor.
Qed.

Lemma worded_llm_dispatch (k : string) (outs : list GroqLLM.Out) :
  Forall spoken_token outs -> worded (llm_dispatch k outs).
Proof.
  induction 1 as [|a outs Ha Houts IH]; cbn [llm_dispatch]; [apply sound_ret|].
  apply sound_bind; [|intros _; exact IH].
  apply sound_bind; [apply sound_tell; repeat constructor|intros _].
  destruct a as [h|token|full]; [apply sound_ret| |].
  - unfold onToken. apply worded_sendMessage. exact Ha.
  - unfold onComplete, push.
    destruct (JS.truthy (JS.trim full)) eqn:Hfull; worded_auto.
Qed.

Lemma worded_llm_streamCompletion (k : string) : worded (llm_streamCompletion env k).
Proof.
  unfold llm_streamCompletion. apply sound_with_any_session. intros s.
  destruct (groqLLM s) as [g|]; [|apply sound_ret].
  pose proof (streamCompletion_tokens (conversationHistory s)
                (chat_completions_create env (conversationHistory s)) g) as Htok.
  destruct (GroqLLM.streamCompletion _ _ g) as [[g' outs] err]. cbn [fst snd] in Htok.
  pose proof (worded_llm_dispatch k outs Htok). worded_auto.
Qed.

#[local] Hint Resolve worded_handleInterrupt worded_llm_streamCompletion : worded.

Lemma worded_processLLM (k : string) (transcript : string) :
  worded (processLLM env k transcript).
Proof. unfold processLLM, processLLM_catch, sendError, push, pop. worded_auto. Qed.

#[local] Hint Resolve worded_processLLM : worded.

Lemma on_Transcript_heard (data : DeepgramSTT.TranscriptData) (d : DeepgramSTT.t) :
  Forall heard (DeepgramSTT.on_Transcript data d).
Proof.
  unfold DeepgramSTT.on_Transcript. cbv zeta.
  destruct (JS.truthy _ && JS.truthy (JS.trim _) && _) eqn:Hc; [|constructor].
  apply andb_prop in Hc as [Hc _]. apply andb_prop in Hc as [_ Hc].
  repeat constructor. exact Hc.
Qed.

Lemma worded_stt_dispatch (k : string) (outs : list DeepgramSTT.Out) :
  Forall heard outs -> worded (stt_dispatch env k outs).
Proof.
  induction 1 as [|a outs Ha Houts IH]; cbn [stt_dispatch]; [apply sound_ret|].
  apply sound_bind; [|intros _; exact IH].
  apply sound_bind; [apply sound_tell; repeat constructor|intros _].
  destruct a as [b| |transcript isFinal|e]; try apply sound_ret.
  unfold onTranscript. cbn in Ha. worded_auto.
Qed.

Lemma worded_startConversation (k : string) : worded (startConversation env k).
Proof. unfold startConversation, sendError. worded_auto. Qed.

Lemma worded_stopConversation (k : string) : worded (stopConversation k).
Proof. unfold stopConversation. worded_auto. Qed.

Lemma worded_rtc_handleOffer (k : string) (offer : option WebRTCServer.Description) :
  worded (rtc_handleOffer env k offer).
Proof.
  intros σ H. unfold rtc_handleOffer.
  destruct (WebRTCServer.handleOffer _ k offer (webrtcServer σ)) as [[w outs] r].
  unfold set_webrtcServer. worded_at σ H.
Qed.

#[local] Hint Resolve worded_startConversation worded_stopConversation
  worded_rtc_handleOffer : worded.

Lemma worded_handleWebRTCOffer (k : string) (offer : option WebRTCServer.Description) :
  worded (handleWebRTCOffer env k offer).
Proof. unfold handleWebRTCOffer, sendError. worded_auto. Qed.

Lemma worded_handleWebRTCIceCandidate (k : string) (candidate : option string) :
  worded (handleWebRTCIceCandidate k candidate).
Proof.
  unfold handleWebRTCIceCandidate. apply sound_with_any_session. intros s.
  destruct (negb _); [apply sound_ret|]. intros σ H. worded_at σ H.
Qed.

#[local] Hint Resolve worded_handleWebRTCOffer worded_handleWebRTCIceCandidate : worded.

Lemma worded_handleMessage (k : string) (message : ClientMessage) :
  worded (handleMessage env k message).
Proof. unfold handleMessage. worded_auto. Qed.

#[local] Hint Resolve worded_handleMessage : worded.

Lemma worded_on_emitted_all (k : string) (l : list WebRTCServer.Emitted) :
  worded (on_emitted_all env k l).
Proof.
  induction l as [|x l IH]; cbn [on_emitted_all]; [apply sound_ret|].
  unfold on_emitted. worded_auto.
Qed.

#[local] Hint Resolve worded_on_emitted_all : worded.

Lemma worded_handle (e : Event) : worded (handle env e).
Proof.
  destruct e as [k|k frame|k|k|k data|k|k ev]; cbn [handle].
  - unfold on_connection. worded_auto.
  - unfold on_message, sendError. worded_auto.
  - unfold on_close. worded_auto.
  - unfold on_error. worded_auto.
  - apply sound_with_any_session. intros s.
    destruct (deepgramSTT s) as [d|]; [|apply sound_ret].
    apply worded_stt_dispatch, on_Transcript_heard.
  - worded_auto.
  - intros σ H.
    destruct (WebRTCServer.on_pc_event _ k ev (webrtcServer σ)) as [w emitted].
    unfold set_webrtcServer. worded_at σ H.
Qed.

Lemma worded_run (es : list Event) : worded (run env es).
Proof.
  induction es as [|e es IH]; cbn [run]; [apply sound_ret|].
  apply sound_bind; [apply sound_detached, worded_handle|intros _; exact IH].
Qed.

End Messages.

(** X18.  Every control message the server writes has something to
    say: an [error] always carries a text, an [llm_token] a token
    that is not empty, and [stt_transcript] and [tts_text] a text
    that is not blank, from any state and for any sequence of
    events. *)
Theorem messages_are_never_empty (env : Env) (es : list Event) (σ : t) (k : string)
    (m : ServerMessage) :
  In (ws_send k m) (trace (run env es σ)) ->
  match m with
  | error text => JS.truthy text = true
  | llm_token token => JS.truthy token = true
  | tts_text text => JS.truthy (JS.trim text) = true
  | stt_transcript transcript _ => JS.truthy (JS.trim transcript) = true
  | _ => True
  end.
Proof.
  intros Hin.
  pose proof (proj2 (worded_run env es σ I)) as Hall.
  rewrite List.Forall_forall in Hall. exact (Hall _ Hin).
Qed.

Lemma messages_are_never_empty_witness :
  JS.truthy (JS.trim "Hi there") = true.
Proof.
  apply (messages_are_never_empty Sample.env [Transcript "s1" Sample.question]
           (Sample.server_with Sample.talking) "s1" (tts_text "Hi there")).
  vm_compute. do 10 right. left. reflexivity.
Defined.

End Wording.

(** ** Audio over the transport *)

Module Transport.

Import VoiceAgentServer.

(** Audio that arrives on the data channel of a session in
    conversation. *)
Lemma channel_audio (env : Env) (sid : string) (σ : t) (s : ClientSession)
    (d : DeepgramSTT.t) (data : WebRTCServer.ChannelData) :
  sid ∈ sessions σ -> heap σ !! sid = Some s -> isActive s = true ->
  deepgramSTT s = Some d ->
  let audio := DeepgramSTT.raw (WebRTCServer.payload (Buffer_from_base64 env) data) in
  let d' := fst (DeepgramSTT.sendAudio (Buffer_from_base64 env) audio d) in
  handle env (peer sid (WebRTCServer.channel_message "audio" data)) σ
  = if strictly_false (useWebRTC s) then (σ, [], returned tt)
    else (store sid (set_useWebRTC (Some true) (set_deepgramSTT (Some d') s)) σ,
          call sid (deepgramSTT_sendAudio audio)
          :: map (stt sid) (snd (DeepgramSTT.sendAudio (Buffer_from_base64 env) audio d)),
          returned tt).
Proof.
  intros Hr Hs Ha Hd audio d'. cbn [handle WebRTCServer.on_pc_event String.eqb Ascii.eqb
                                    Bool.eqb].
  cbn [on_emitted_all on_emitted].
  change (match data with
          | WebRTCServer.of_Buffer b => b
          | WebRTCServer.of_ArrayBuffer b => b
          | WebRTCServer.of_string s0 => Buffer_from_base64 env s0
          end) with (WebRTCServer.payload (Buffer_from_base64 env) data).
  assert (Hσ : {| heap := heap σ; sessions := sessions σ; webrtcServer := webrtcServer σ |}
               = σ) by (destruct σ; reflexivity).
  destruct (strictly_false (useWebRTC s)) eqn:Hflag.
  - etransitivity.
    + eapply Conversation.bind_ok; [reflexivity|].
      eapply Conversation.bind_ok; [|reflexivity].
      eapply Conversation.detached_eq. unfold registered. cbn [sessions].
      rewrite decide_True by exact Hr. rewrite Hσ.
      rewrite (Conversation.with_session_at _ _ _ _ _ Hs). rewrite Hd, Ha, Hflag.
      reflexivity.
    + rewrite ?Hσ. reflexivity.
  - destruct (strictly_true (useWebRTC s)) eqn:Htrue.
    + etransitivity.
      * eapply Conversation.bind_ok; [reflexivity|].
        eapply Conversation.bind_ok; [|reflexivity].
        eapply Conversation.detached_eq. unfold registered. cbn [sessions].
        rewrite decide_True by exact Hr. rewrite Hσ.
        rewrite (Conversation.with_session_at _ _ _ _ _ Hs). rewrite Hd, Ha, Hflag, Htrue.
        cbn [present andb negb when].
        eapply Conversation.bind_ok;
          [apply (Coordinator.stt_sendAudio_at env sid _ σ s d Hs Hd)|reflexivity].
      * fold audio. fold d'. cbn [app]. rewrite !app_nil_r.
        destruct (useWebRTC s) as [[|]|] eqn:Hu; try discriminate Htrue.
        f_equal. f_equal. f_equal. destruct s; cbn in *; subst; reflexivity.
    + etransitivity.
      * eapply Conversation.bind_ok; [reflexivity|].
        eapply Conversation.bind_ok; [|reflexivity].
        eapply Conversation.detached_eq. unfold registered. cbn [sessions].
        rewrite decide_True by exact Hr. rewrite Hσ.
        rewrite (Conversation.with_session_at _ _ _ _ _ Hs). rewrite Hd, Ha, Hflag, Htrue.
        cbn [present andb negb when].
        eapply Conversation.bind_ok;
          [apply (Coordinator.stt_sendAudio_at env sid _ σ s d Hs Hd)|].
        apply Conversation.update_at.
      * fold audio. fold d'. cbn [app]. rewrite !app_nil_r. reflexivity.
Qed.

(** X19.  Audio that arrives on the transport's data channel, for a
    session in conversation: unless the transport has been reported
    lost, the buffer is handed to the recognition bridge, once, and
    the transport is marked ready, so that from then on audio chunks
    on the control channel are refused; when the transport has been
    reported lost the buffer is dropped and nothing changes. *)
Theorem transport_audio_takes_over (env : Env) (sid : string) (σ : t)
    (data : WebRTCServer.ChannelData) :
  in_conversation sid σ ->
  let audio := DeepgramSTT.raw (WebRTCServer.payload (Buffer_from_base64 env) data) in
  let r := handle env (peer sid (WebRTCServer.channel_message "audio" data)) σ in
  match field useWebRTC sid σ with
  | Some (Some false) => r = (σ, [], returned tt)
  | _ =>
      calls sid (trace r) = [deepgramSTT_sendAudio audio]
      /\ in_conversation sid (state r)
      /\ marked_ready sid (state r) = true
      /\ (forall chunk,
            calls sid (trace (handle env (message sid (Some (audio_chunk chunk)))
                                (state r))) = [])
  end.
Proof.
  intros (Hr & s & Hs & Ha & Hd) audio r.
  destruct (deepgramSTT s) as [d|] eqn:Ed; [|discriminate Hd].
  pose proof (channel_audio env sid σ s d data Hr Hs Ha Ed) as Hrun. cbv zeta in Hrun.
  fold audio in Hrun. fold r in Hrun. unfold field. rewrite Hs. cbn [fmap option_fmap option_map].
  assert (Hlost : strictly_false (useWebRTC s) = false ->
            calls sid (trace r) = [deepgramSTT_sendAudio audio]
            /\ in_conversation sid (state r)
            /\ marked_ready sid (state r) = true
            /\ (forall chunk,
                  calls sid (trace (handle env (message sid (Some (audio_chunk chunk)))
                                      (state r))) = [])).
  { intros Hflag. rewrite Hflag in Hrun. rewrite Hrun. cbn [state trace fst snd].
    assert (Hin : in_conversation sid
                    (store sid (set_useWebRTC (Some true)
                                  (set_deepgramSTT
                                     (Some (fst (DeepgramSTT.sendAudio (Buffer_from_base64 env)
                                                   audio d))) s)) σ))
      by (apply (Coordinator.in_conversation_store sid s); [exact Hr|exact Ha|reflexivity]).
    split; [|split; [exact Hin|split]].
    - change (calls sid (call sid (deepgramSTT_sendAudio audio) :: ?l))
        with (match (if String.eqb sid sid
                     then Some (deepgramSTT_sendAudio audio) else None) with
              | Some c => c :: calls sid l
              | None => calls sid l
              end).
      rewrite String.eqb_refl, Coordinator.calls_stt. reflexivity.
    - rewrite Coordinator.marked_ready_store. reflexivity.
    - intros chunk. rewrite (Coordinator.audio_chunk_in_conversation env sid chunk _ Hin).
      rewrite Coordinator.marked_ready_store. reflexivity. }
  destruct (useWebRTC s) as [[|]|]; try (apply Hlost; reflexivity).
  exact Hrun.
Qed.

Lemma transport_audio_takes_over_witness :
  let audio := DeepgramSTT.raw [x01; x02] in
  let r := handle Sample.env
             (peer "s1" (WebRTCServer.channel_message "audio"
                           (WebRTCServer.of_Buffer [x01; x02])))
             (Sample.server_with_peer Sample.talking) in
  calls "s1" (trace r) = [deepgramSTT_sendAudio audio]
  /\ in_conversation "s1" (state r)
  /\ marked_ready "s1" (state r) = true
  /\ (forall chunk,
        calls "s1" (trace (handle Sample.env (message "s1" (Some (audio_chunk chunk)))
                             (state r))) = []).
Proof.
  assert (Hin : in_conversation "s1" (Sample.server_with_peer Sample.talking)).
  { split; [reflexivity|]. exists Sample.talking. repeat split. }
  exact (transport_audio_takes_over Sample.env "s1" (Sample.server_with_peer Sample.talking)
           (WebRTCServer.of_Buffer [x01; x02]) Hin).
Defined.

End Transport.

(** ** Sessions side by side *)

Module Isolation.

Import VoiceAgentServer.
Import Invariants.

Create HintDb apart.

Section Apart.

Variable env : Env.
Variable sid : string.
Variable σ0 : t.

Local Abbreviation apart := (sound (untouched sid σ0) (foreign sid)).

Lemma sound_result {A} (m : M A) (σ σ' : t) (l : list Effect) (r : Outcome A) :
  m σ = (σ', l, r) -> untouched sid σ0 σ' -> Forall (foreign sid) l ->
  untouched sid σ0 (state (m σ)) /\ Forall (foreign sid) (trace (m σ)).
Proof. intros -> H1 H2. auto. Qed.

Lemma apart_update (k : string) (f : ClientSession -> ClientSession) :
  k <> sid -> (forall s, sessionId (f s) = sessionId s) -> apart (update k f).
Proof.
  intros Hk Hf σ (Hfiled & Hheap & Hreg & Hrtc). split; [|constructor].
  unfold update, modify, state, untouched, filed. cbn [fst heap sessions webrtcServer].
  split; [|split; [|split; assumption]].
  - intros k' s Hs. rewrite lookup_alter in Hs. case_decide as Hk'; [|exact (Hfiled k' s Hs)].
    subst k'. destruct (heap σ !! k) as [s0|] eqn:H0; [|discriminate].
    injection Hs as <-. rewrite Hf. exact (Hfiled k s0 H0).
  - rewrite lookup_alter_ne by exact Hk. exact Hheap.
Qed.

Lemma apart_unregister (k : string) :
  k <> sid ->
  apart (modify (fun σ => {| heap := heap σ; sessions := sessions σ ∖ {[k]};
                             webrtcServer := webrtcServer σ |})).
Proof.
  intros Hk. apply sound_modify. intros σ (Hfiled & Hheap & Hreg & Hrtc).
  split; [exact Hfiled|]. split; [exact Hheap|]. split; [|exact Hrtc].
  cbn [sessions]. rewrite <- Hreg. rewrite elem_of_difference, elem_of_singleton.
  split; [intros [H _]; exact H|]. intros H. split; [exact H|]. congruence.
Qed.

Lemma apart_rtc (w : WebRTCServer.t) (σ : t) :
  untouched sid σ0 σ ->
  WebRTCServer.sessions w !! sid = WebRTCServer.sessions (webrtcServer σ) !! sid ->
  untouched sid σ0 (with_rtc w σ).
Proof.
  intros (Hfiled & Hheap & Hreg & Hrtc) Hw.
  split; [exact Hfiled|]. split; [exact Hheap|]. split; [exact Hreg|].
  cbn [with_rtc webrtcServer]. congruence.
Qed.

Lemma apart_sendMessage (k : string) (m : ServerMessage) : k <> sid -> apart (sendMessage k m).
Proof.
  intros Hk. unfold sendMessage. apply sound_with_any_session. intros s.
  apply sound_when, sound_tell. repeat constructor. exact Hk.
Qed.

Lemma foreign_map {A} (f : A -> Effect) (l : list A) :
  (forall a, foreign sid (f a)) -> Forall (foreign sid) (map f l).
Proof. intros Hf. apply Forall_map, Forall_forall. intros a _. apply Hf. Qed.

Lemma apart_set_rtc (w : WebRTCServer.t) :
  WebRTCServer.sessions w !! sid = WebRTCServer.sessions (webrtcServer σ0) !! sid ->
  apart (set_webrtcServer w).
Proof.
  intros Hw. apply sound_modify. intros σ (Hfiled & Hheap & Hreg & Hrtc).
  split; [exact Hfiled|]. split; [exact Hheap|]. split; [exact Hreg|exact Hw].
Qed.

(** The negotiator works on the entry of the session it is given. *)
Lemma foreign_rtc (k : string) (outs : list WebRTCServer.Out) :
  k <> sid -> Forall (fun a => WebRTCServer.session_of_out a = k) outs ->
  Forall (foreign sid) (map rtc outs).
Proof.
  intros Hk Houts. apply Forall_map. eapply Forall_impl; [exact Houts|].
  intros a Ha. cbn. congruence.
Qed.

Lemma cleanup_other (k : string) (o : WebRTCServer.t) :
  k <> sid ->
  WebRTCServer.sessions (fst (fst (WebRTCServer.cleanup k o))) !! sid
  = WebRTCServer.sessions o !! sid
  /\ Forall (fun a => WebRTCServer.session_of_out a = k)
            (snd (fst (WebRTCServer.cleanup k o))).
Proof.
  intros Hk. unfold WebRTCServer.cleanup.
  destruct (WebRTCServer.sessions o !! k) as [s|]; [|split; [reflexivity|constructor]].
  destruct (WebRTCServer.close _); cbn; [split; [reflexivity|constructor]|].
  split; [apply lookup_delete_ne; exact Hk|repeat constructor].
Qed.

Lemma handleOffer_other (factory : JS.Error + WebRTCServer.RTCPeerConnection) (k : string)
    (offer : option WebRTCServer.Description) (o : WebRTCServer.t) :
  k <> sid ->
  WebRTCServer.sessions (fst (fst (WebRTCServer.handleOffer factory k offer o))) !! sid
  = WebRTCServer.sessions o !! sid
  /\ Forall (fun a => WebRTCServer.session_of_out a = k)
            (snd (fst (WebRTCServer.handleOffer factory k offer o))).
Proof.
  intros Hk. destruct offer as [offer|]; [|split; [reflexivity|constructor]].
  split.
  - rewrite Negotiator.handleOffer_registry.
    destruct (WebRTCServer.sessions o !! k); [reflexivity|].
    destruct factory as [e|pc]; [reflexivity|]. cbn. apply lookup_insert_ne. exact Hk.
  - unfold WebRTCServer.handleOffer.
    destruct (WebRTCServer.sessions o !! k) as [existing|].
    + destruct (WebRTCServer.setRemoteDescription _ _); [constructor|].
      destruct (WebRTCServer.createAnswer _ _); [repeat constructor|].
      destruct (WebRTCServer.setLocalDescription _ _); repeat constructor.
    + destruct factory as [e|pc]; [constructor|]. cbn.
      destruct (WebRTCServer.setRemoteDescription _ _); [constructor|].
      destruct (WebRTCServer.createAnswer _ _); [repeat constructor|].
      destruct (WebRTCServer.setLocalDescription _ _); repeat constructor.
Qed.

Lemma handleIceCandidate_other (k : string) (candidate : option string)
    (o : WebRTCServer.t) :
  Forall (fun a => WebRTCServer.session_of_out a = k)
         (WebRTCServer.handleIceCandidate k candidate o).
Proof.
  unfold WebRTCServer.handleIceCandidate.
  destruct (WebRTCServer.sessions o !! k); [|constructor].
  destruct candidate as [c|]; [|constructor].
  destruct (JS.truthy c); [|constructor].
  destruct (WebRTCServer.addIceCandidate _ _); repeat constructor.
Qed.

Lemma on_pc_event_other (from_base64 : string -> DeepgramSTT.Buffer) (k : string)
    (ev : WebRTCServer.PcEvent) (o : WebRTCServer.t) :
  k <> sid ->
  WebRTCServer.sessions (fst (WebRTCServer.on_pc_event from_base64 k ev o)) !! sid
  = WebRTCServer.sessions o !! sid.
Proof.
  intros Hk. unfold WebRTCServer.on_pc_event, WebRTCServer.set_audioDataChannel.
  destruct ev as [|label|label data|label st|c|st|st]; try reflexivity.
  - destruct (String.eqb label "audio"); [|reflexivity].
    cbn. apply lookup_alter_ne. exact Hk.
  - destruct (String.eqb label "audio"); reflexivity.
  - destruct (String.eqb label "audio"); [|reflexivity].
    destruct (String.eqb st "open"); [reflexivity|].
    destruct (String.eqb st "closed"); [|reflexivity].
    cbn. apply lookup_alter_ne. exact Hk.
  - destruct c; reflexivity.
  - destruct st; reflexivity.
  - destruct st; reflexivity.
Qed.

Ltac apart_leaf :=
  first
    [ apply apart_sendMessage; assumption
    | apply apart_update; [assumption|intros []; reflexivity]
    | apply apart_unregister; assumption
    | apply apart_set_rtc; assumption
    | apply sound_tell; first [ assumption
                              | apply foreign_map; intros ?; assumption
                              | repeat constructor; assumption ]
    | solve [auto with apart nocore] ].

Ltac apart_auto := repeat (sound_step apart_leaf).

Ltac apart_at σ H :=
  match goal with |- _ (state (?m σ)) /\ _ =>
    let Hb := fresh in
    assert (Hb : apart m) by apart_auto; exact (Hb σ H) end.

Lemma apart_llm_stop (k : string) : k <> sid -> apart (llm_stop k).
Proof. intros Hk. unfold llm_stop. apart_auto. Qed.

Lemma apart_stt_stop (k : string) : k <> sid -> apart (stt_stop k).
Proof. intros Hk. unfold stt_stop. apart_auto. Qed.

Lemma apart_stt_sendAudio (k : string) (a : DeepgramSTT.AudioData) :
  k <> sid -> apart (stt_sendAudio env k a).
Proof. intros Hk. unfold stt_sendAudio. apart_auto. Qed.

Lemma apart_stt_start (k : string) : k <> sid -> apart (stt_start env k).
Proof. intros Hk. unfold stt_start. apart_auto. Qed.

#[local] Hint Resolve apart_llm_stop apart_stt_stop apart_stt_sendAudio apart_stt_start
  : apart.

Lemma apart_rtc_cleanup (k : string) : k <> sid -> apart (rtc_cleanup k).
Proof.
  intros Hk σ H. unfold rtc_cleanup.
  destruct (cleanup_other k (webrtcServer σ) Hk) as [Hw Houts].
  apply (foreign_rtc k _ Hk) in Houts.
  rewrite (proj2 (proj2 (proj2 H))) in Hw.
  destruct (WebRTCServer.cleanup k (webrtcServer σ)) as [[w outs] err].
  cbn [fst snd] in Hw, Houts. apart_at σ H.
Qed.

#[local] Hint Resolve apart_rtc_cleanup : apart.

Lemma apart_cleanupSession (k : string) : k <> sid -> apart (cleanupSession k).
Proof.
  intros Hk σ H. unfold cleanupSession.
  destruct (decide (k ∈ sessions σ)); [|split; [exact H|constructor]].
  apart_at σ H.
Qed.

#[local] Hint Resolve apart_cleanupSession : apart.

Lemma apart_handleInterrupt (k : string) : k <> sid -> apart (handleInterrupt k).
Proof. intros Hk. unfold handleInterrupt. apart_auto. Qed.

Lemma apart_llm_dispatch (k : string) (outs : list GroqLLM.Out) :
  k <> sid -> apart (llm_dispatch k outs).
Proof.
  intros Hk. induction outs as [|a outs IH]; cbn [llm_dispatch]; [apply sound_ret|].
  unfold onToken, onComplete, push. apart_auto.
Qed.

#[local] Hint Resolve apart_handleInterrupt apart_llm_dispatch : apart.

Lemma apart_llm_streamCompletion (k : string) :
  k <> sid -> apart (llm_streamCompletion env k).
Proof. intros Hk. unfold llm_streamCompletion. apart_auto. Qed.

#[local] Hint Resolve apart_llm_streamCompletion : apart.

Lemma apart_processLLM (k : string) (transcript : string) :
  k <> sid -> apart (processLLM env k transcript).
Proof. intros Hk. unfold processLLM, processLLM_catch, sendError, push, pop. apart_auto. Qed.

#[local] Hint Resolve apart_processLLM : apart.

Lemma apart_stt_dispatch (k : string) (outs : list DeepgramSTT.Out) :
  k <> sid -> apart (stt_dispatch env k outs).
Proof.
  intros Hk. induction outs as [|a outs IH]; cbn [stt_dispatch]; [apply sound_ret|].
  unfold onTranscript. apart_auto.
Qed.

#[local] Hint Resolve apart_stt_dispatch : apart.

(** The code at a session object reads its id. *)
Ltac own_id k s σ H Hs :=
  let Hid := fresh "Hid" in
  assert (Hid : sessionId s = k) by exact (proj1 H k s Hs);
  rewrite ?Hid.

Lemma apart_startConversation (k : string) : k <> sid -> apart (startConversation env k).
Proof.
  intros Hk. unfold startConversation, sendError. apply sound_with_session.
  intros s σ H Hs. own_id k s σ H Hs. apart_at σ H.
Qed.

Lemma apart_stopConversation (k : string) : k <> sid -> apart (stopConversation k).
Proof.
  intros Hk. unfold stopConversation. apply sound_with_session.
  intros s σ H Hs. own_id k s σ H Hs. apart_at σ H.
Qed.

Lemma apart_rtc_handleOffer (k : string) (offer : option WebRTCServer.Description) :
  k <> sid -> apart (rtc_handleOffer env k offer).
Proof.
  intros Hk σ H. unfold rtc_handleOffer.
  destruct (handleOffer_other (new_RTCPeerConnection env) k offer (webrtcServer σ) Hk)
    as [Hw Houts].
  apply (foreign_rtc k _ Hk) in Houts.
  rewrite (proj2 (proj2 (proj2 H))) in Hw.
  destruct (WebRTCServer.handleOffer _ k offer (webrtcServer σ)) as [[w outs] r].
  cbn [fst snd] in Hw, Houts. apart_at σ H.
Qed.

#[local] Hint Resolve apart_startConversation apart_stopConversation
  apart_rtc_handleOffer : apart.

Lemma apart_handleWebRTCOffer (k : string) (offer : option WebRTCServer.Description) :
  k <> sid -> apart (handleWebRTCOffer env k offer).
Proof.
  intros Hk. unfold handleWebRTCOffer, sendError. apply sound_with_session.
  intros s σ H Hs. own_id k s σ H Hs. apart_at σ H.
Qed.

Lemma apart_handleWebRTCIceCandidate (k : string) (candidate : option string) :
  k <> sid -> apart (handleWebRTCIceCandidate k candidate).
Proof.
  intros Hk. unfold handleWebRTCIceCandidate. apply sound_with_session.
  intros s σ H Hs. own_id k s σ H Hs.
  destruct (negb _); [split; [exact H|constructor]|].
  pose proof (foreign_rtc k _ Hk (handleIceCandidate_other k candidate (webrtcServer σ)))
    as Houts.
  apart_at σ H.
Qed.

#[local] Hint Resolve apart_handleWebRTCOffer apart_handleWebRTCIceCandidate : apart.

Lemma apart_handleMessage (k : string) (message : ClientMessage) :
  k <> sid -> apart (handleMessage env k message).
Proof. intros Hk. unfold handleMessage. apart_auto. Qed.

#[local] Hint Resolve apart_handleMessage : apart.

Lemma apart_on_message (k : string) (frame : option ClientMessage) :
  k <> sid -> apart (on_message env k frame).
Proof. intros Hk. unfold on_message, sendError. apart_auto. Qed.

Lemma apart_teardown (k : string) :
  k <> sid ->
  apart (with_session tt k (fun session => detached (cleanupSession (sessionId session)))).
Proof.
  intros Hk. apply sound_with_session.
  intros s σ H Hs. own_id k s σ H Hs. apart_at σ H.
Qed.

#[local] Hint Resolve apart_teardown : apart.

Lemma apart_on_close (k : string) : k <> sid -> apart (on_close k).
Proof.
  intros Hk. unfold on_close. apply sound_bind; [apart_leaf|intros _; apply apart_teardown, Hk].
Qed.

Lemma apart_on_error (k : string) : k <> sid -> apart (on_error k).
Proof. intros Hk. unfold on_error. apply apart_teardown, Hk. Qed.

Lemma apart_on_emitted (k : string) (x : WebRTCServer.Emitted) :
  k <> sid -> apart (on_emitted env k x).
Proof. intros Hk. unfold on_emitted. apart_auto. Qed.

#[local] Hint Resolve apart_on_message apart_on_close apart_on_error apart_on_emitted : apart.

Lemma apart_on_emitted_all (k : string) (l : list WebRTCServer.Emitted) :
  k <> sid -> apart (on_emitted_all env k l).
Proof.
  intros Hk. induction l as [|x l IH]; cbn [on_emitted_all]; [apply sound_ret|].
  apart_auto.
Qed.

#[local] Hint Resolve apart_on_emitted_all : apart.

Lemma apart_on_connection (k : string) : k <> sid -> apart (on_connection k).
Proof.
  intros Hk. unfold on_connection.
  apply sound_bind; [|intros _; apply apart_sendMessage, Hk].
  apply sound_modify. intros σ (Hfiled & Hheap & Hreg & Hrtc).
  unfold untouched, filed. cbn [heap sessions webrtcServer].
  split; [|split; [|split; [|exact Hrtc]]].
  - intros k' s Hs. rewrite lookup_insert in Hs. case_decide as Hk'; [|exact (Hfiled k' s Hs)].
    injection Hs as <-. subst k'. reflexivity.
  - rewrite lookup_insert_ne by exact Hk. exact Hheap.
  - rewrite <- Hreg. rewrite elem_of_union, elem_of_singleton.
    split; [intros [H|H]; [congruence|exact H]|]. intros H. right. exact H.
Qed.

Lemma apart_handle (e : Event) : session_of e <> sid -> apart (handle env e).
Proof.
  intros Hk. destruct e as [k|k frame|k|k|k data|k|k ev]; cbn [session_of handle] in *.
  - apply apart_on_connection, Hk.
  - apply apart_on_message, Hk.
  - apply apart_on_close, Hk.
  - apply apart_on_error, Hk.
  - apart_auto.
  - apply apart_update; [exact Hk|]. intros []. reflexivity.
  - intros σ H.
    pose proof (on_pc_event_other (Buffer_from_base64 env) k ev (webrtcServer σ) Hk) as Hw.
    rewrite (proj2 (proj2 (proj2 H))) in Hw.
    destruct (WebRTCServer.on_pc_event _ k ev (webrtcServer σ)) as [w emitted].
    cbn [fst] in Hw. apart_at σ H.
Qed.

Lemma apart_run (es : list Event) :
  Forall (fun e => session_of e <> sid) es -> apart (run env es).
Proof.
  induction 1 as [|e es He Hes IH]; cbn [run]; [apply sound_ret|].
  apply sound_bind; [apply sound_detached, apart_handle, He|intros _; exact IH].
Qed.

Lemma foreign_silent (l : list Effect) :
  Forall (foreign sid) l -> sent sid l = [] /\ calls sid l = [].
Proof.
  induction 1 as [|e l He Hl [IH1 IH2]]; [split; reflexivity|].
  destruct e as [k c|k m|k a|k a|a]; cbn in *; try (split; assumption).
  - destruct (String.eqb k sid) eqn:Hk; [|split; assumption].
    apply String.eqb_eq in Hk. contradiction.
  - destruct (String.eqb k sid) eqn:Hk; [|split; assumption].
    apply String.eqb_eq in Hk. contradiction.
Qed.

End Apart.

(** X20.  Sessions do not interfere: whatever happens on the sockets,
    bridges, pipelines and peer connections of other sessions, a
    session's object, its registration and its peer connection stay
    as they are, nothing is written to its socket and none of its
    components is called. *)
Theorem sessions_do_not_interfere (env : Env) (sid : string) (es : list Event) (σ : t) :
  filed σ ->
  Forall (fun e => session_of e <> sid) es ->
  let r := run env es σ in
  heap (state r) !! sid = heap σ !! sid
  /\ (sid ∈ sessions (state r) <-> sid ∈ sessions σ)
  /\ WebRTCServer.sessions (webrtcServer (state r)) !! sid
     = WebRTCServer.sessions (webrtcServer σ) !! sid
  /\ sent sid (trace r) = []
  /\ calls sid (trace r) = [].
Proof.
  intros Hfiled Hes r.
  assert (H0 : untouched sid σ σ) by (split; [exact Hfiled|]; split; [|split]; reflexivity).
  destruct (apart_run env sid σ es Hes σ H0) as [(_ & Hheap & Hreg & Hrtc) Htrace].
  destruct (foreign_silent sid _ Htrace) as [Hsent Hcalls]. auto.
Qed.

Lemma sessions_do_not_interfere_witness :
  let σ := state (run Sample.env
                    [connection "s1"; message "s1" (Some start_conversation);
                     connection "s2"] new) in
  let r := run Sample.env
             [message "s2" (Some start_conversation); Transcript "s2" Sample.question;
              close "s2"] σ in
  heap (state r) !! "s1" = heap σ !! "s1"
  /\ ("s1" ∈ sessions (state r) <-> "s1" ∈ sessions σ)
  /\ WebRTCServer.sessions (webrtcServer (state r)) !! "s1"
     = WebRTCServer.sessions (webrtcServer σ) !! "s1"
  /\ sent "s1" (trace r) = []
  /\ calls "s1" (trace r) = [].
Proof.
  apply sessions_do_not_interfere.
  - intros k s Hs.
    exact (proj1 (proj1 (formed_run Sample.env _ new formed_new) k s Hs)).
  - repeat constructor; discriminate.
Defined.

End Isolation.

(** ** Reconnection, any run *)

Module Backoff.

Import VoiceAgentClient.

Lemma handle_keeps_settings (c : t) (e : Event) :
  maxReconnectAttempts (fst (handle c e)) = maxReconnectAttempts c
  /\ reconnectDelay (fst (handle c e)) = reconnectDelay c.
Proof.
  destruct e; cbn; auto. unfold onclose, attemptReconnect.
  destruct (_ <? _); cbn; auto.
Qed.

Lemma handle_step (c : t) (e : Event) :
  reconnectAttempts c <= maxReconnectAttempts c ->
  reconnectAttempts (fst (handle c e)) <= maxReconnectAttempts c
  /\ Forall (fun d => exists n, 1 <= n <= maxReconnectAttempts c
                                /\ d = reconnectDelay c * n)
            (delays (snd (handle c e)))
  /\ length (delays (snd (handle c e))) + reconnectAttempts c
     <= reconnectAttempts (fst (handle c e)) + maxReconnectAttempts c * opens [e].
Proof.
  intros Hc. destruct e; cbn [handle].
  - cbn. repeat split; [lia|constructor|lia].
  - unfold onclose, attemptReconnect.
    destruct (reconnectAttempts c <? maxReconnectAttempts c) eqn:Hlt; cbn.
    + apply Nat.ltb_lt in Hlt. repeat split; [lia| |lia].
      constructor; [|constructor]. exists (S (reconnectAttempts c)). split; [lia|reflexivity].
    + repeat split; [lia|constructor|lia].
  - cbn. repeat split; [lia|constructor|lia].
  - cbn. repeat split; [lia|constructor|lia].
  - cbn. repeat split; [lia|constructor|lia].
  - cbn. repeat split; [lia|constructor|lia].
  - cbn. repeat split; [lia|constructor|lia].
Qed.

Lemma delays_app (l1 l2 : list Action) : delays (l1 ++ l2) = delays l1 ++ delays l2.
Proof.
  induction l1 as [|[ev|d] l1 IH]; cbn; [reflexivity|exact IH|f_equal; exact IH].
Qed.

(** X21.  For every client whose counter is within its limit and
    every sequence of socket events, timers and calls of [connect]:
    the counter stays within the limit; every reconnect timer is
    armed with the base delay times a number between 1 and the limit;
    and the number of timers armed is at most what was left of the
    limit plus the limit for each socket that opened. *)
Theorem reconnects_are_bounded (es : list Event) : forall c : t,
  reconnectAttempts c <= maxReconnectAttempts c ->
  reconnectAttempts (fst (run c es)) <= maxReconnectAttempts c
  /\ Forall (fun d => exists n, 1 <= n <= maxReconnectAttempts c
                                /\ d = reconnectDelay c * n)
            (delays (snd (run c es)))
  /\ length (delays (snd (run c es))) + reconnectAttempts c
     <= reconnectAttempts (fst (run c es)) + maxReconnectAttempts c * opens es
  /\ length (delays (snd (run c es)))
     <= (maxReconnectAttempts c - reconnectAttempts c) + maxReconnectAttempts c * opens es.
Proof.
  induction es as [|e es IH]; intros c Hc.
  - cbn. repeat split; [exact Hc|constructor|lia|lia].
  - destruct (handle_step c e Hc) as (H1 & H2 & H3).
    destruct (handle_keeps_settings c e) as [Hmax Hdelay].
    cbn [run]. destruct (handle c e) as [c1 a1]. cbn [fst snd] in *.
    rewrite <- Hmax in H1. destruct (IH c1 H1) as (I1 & I2 & I3 & _).
    destruct (run c1 es) as [c2 a2]. cbn [fst snd] in *.
    rewrite Hmax, ?Hdelay in *.
    assert (Hopens : opens (e :: es) = opens [e] + opens es).
    { unfold opens. cbn. destruct e; reflexivity. }
    rewrite delays_app, length_app, Hopens.
    assert (Hsum : length (delays a1) + length (delays a2) + reconnectAttempts c
                   <= reconnectAttempts c2
                      + maxReconnectAttempts c * (opens [e] + opens es)) by nia.
    repeat split; [exact I1| |exact Hsum|lia].
    apply Forall_app. split; assumption.
Qed.

Lemma reconnects_are_bounded_witness :
  length (delays (snd (run (new "ws://localhost:3002/ws")
                         [close; timer; open; close; close; timer; close])))
  <= (5 - 0) + 5 * 1.
Proof.
  exact (proj2 (proj2 (proj2
           (reconnects_are_bounded [close; timer; open; close; close; timer; close]
              (new "ws://localhost:3002/ws") (Nat.le_0_l 5))))).
Defined.

End Backoff.

(** ** The voice chosen for speech *)

Module Voice.

Import App.

Lemma us_prefix_is_english (l : string) : startsWith l "en-US" = true -> startsWith l "en" = true.
Proof.
  unfold startsWith. intros H.
  destruct l as [|a l]; [discriminate H|]. cbn [String.prefix] in H.
  destruct (Ascii.ascii_dec "e" a) as [<-|]; [|discriminate H].
  destruct l as [|b l]; [discriminate H|]. cbn [String.prefix] in H.
  destruct (Ascii.ascii_dec "n" b) as [<-|]; [|discriminate H].
  apply String.prefix_correct. cbn. destruct l; reflexivity.
Qed.

Lemma gb_prefix_is_english (l : string) : startsWith l "en-GB" = true -> startsWith l "en" = true.
Proof.
  unfold startsWith. intros H.
  destruct l as [|a l]; [discriminate H|]. cbn [String.prefix] in H.
  destruct (Ascii.ascii_dec "e" a) as [<-|]; [|discriminate H].
  destruct l as [|b l]; [discriminate H|]. cbn [String.prefix] in H.
  destruct (Ascii.ascii_dec "n" b) as [<-|]; [|discriminate H].
  apply String.prefix_correct. cbn. destruct l; reflexivity.
Qed.

(** Every test of the chain accepts English voices only. *)
Lemma tiers_are_english (v : SpeechSynthesisVoice) :
  is_neural v || is_google v || is_microsoft v || is_us v || is_gb v = true ->
  is_english v = true.
Proof.
  unfold is_neural, is_google, is_microsoft, is_us, is_gb, is_english. intros H.
  repeat (apply orb_prop in H; destruct H as [H|H]);
    try (apply andb_prop in H; destruct H as [H _]);
    try (apply us_prefix_is_english; exact H).
  - apply String.eqb_eq in H. rewrite H. reflexivity.
  - apply gb_prefix_is_english. exact H.
Qed.

Lemma find_tier (f : SpeechSynthesisVoice -> bool) (l : list SpeechSynthesisVoice)
    (v : SpeechSynthesisVoice) :
  (forall x, f x = true -> is_english x = true) ->
  List.find f l = Some v -> In v l /\ is_english v = true.
Proof. intros Hf H. apply find_some in H as [Hin Hv]. auto. Qed.

Lemma find_no_english (f : SpeechSynthesisVoice -> bool) (l : list SpeechSynthesisVoice) :
  (forall x, f x = true -> is_english x = true) ->
  (forall x, In x l -> is_english x = false) -> List.find f l = None.
Proof.
  intros Hf Hl. destruct (List.find f l) as [v|] eqn:H; [|reflexivity].
  apply find_some in H as [Hin Hv]. specialize (Hl v Hin).
  rewrite (Hf v Hv) in Hl. discriminate.
Qed.

(** X22.  The voice chosen for speech is always one of the voices
    offered and always an English one; no voice is chosen exactly
    when no voice offered is English; an en-US voice whose name says
    neural or natural wins over every other, the first such in the
    list; and the utterance is always spoken in a language that
    starts with 'en'. *)
Theorem chosen_voice_is_english (voices : list SpeechSynthesisVoice) :
  (forall v, preferredVoice voices = Some v ->
             In v voices /\ startsWith (lang v) "en" = true)
  /\ (preferredVoice voices = None
      <-> forall v, In v voices -> startsWith (lang v) "en" = false)
  /\ (forall v, List.find is_neural voices = Some v -> preferredVoice voices = Some v)
  /\ startsWith (utterance_lang voices) "en" = true.
Proof.
  assert (T1 : forall x, is_neural x = true -> is_english x = true)
    by (intros x H; apply tiers_are_english; rewrite H; reflexivity).
  assert (T2 : forall x, is_google x = true -> is_english x = true)
    by (intros x H; apply tiers_are_english; rewrite H, ?orb_true_r; reflexivity).
  assert (T3 : forall x, is_microsoft x = true -> is_english x = true)
    by (intros x H; apply tiers_are_english; rewrite H, ?orb_true_r; reflexivity).
  assert (T4 : forall x, is_us x = true -> is_english x = true)
    by (intros x H; apply tiers_are_english; rewrite H, ?orb_true_r; reflexivity).
  assert (T5 : forall x, is_gb x = true -> is_english x = true)
    by (intros x H; apply tiers_are_english; rewrite H, ?orb_true_r; reflexivity).
  assert (Hsome : forall v, preferredVoice voices = Some v ->
                            In v voices /\ startsWith (lang v) "en" = true).
  { intros v. unfold preferredVoice, or_else.
    destruct (List.find is_neural voices) eqn:E1;
      [intros [= <-]; exact (find_tier _ _ _ T1 E1)|].
    destruct (List.find is_google voices) eqn:E2;
      [intros [= <-]; exact (find_tier _ _ _ T2 E2)|].
    destruct (List.find is_microsoft voices) eqn:E3;
      [intros [= <-]; exact (find_tier _ _ _ T3 E3)|].
    destruct (List.find is_us voices) eqn:E4;
      [intros [= <-]; exact (find_tier _ _ _ T4 E4)|].
    destruct (List.find is_gb voices) eqn:E5;
      [intros [= <-]; exact (find_tier _ _ _ T5 E5)|].
    intros E6. exact (find_tier _ _ _ (fun x H => H) E6). }
  split; [exact Hsome|]. split; [|split].
  - split.
    + unfold preferredVoice, or_else. intros H v Hin.
      destruct (List.find is_neural voices); [discriminate|].
      destruct (List.find is_google voices); [discriminate|].
      destruct (List.find is_microsoft voices); [discriminate|].
      destruct (List.find is_us voices); [discriminate|].
      destruct (List.find is_gb voices); [discriminate|].
      exact (find_none _ _ H v Hin).
    + intros H. unfold preferredVoice, or_else.
      rewrite (find_no_english _ _ T1 H), (find_no_english _ _ T2 H),
        (find_no_english _ _ T3 H), (find_no_english _ _ T4 H),
        (find_no_english _ _ T5 H).
      apply (find_no_english _ _ (fun x Hx => Hx) H).
  - intros v H. unfold preferredVoice. rewrite H. reflexivity.
  - unfold utterance_lang. destruct (preferredVoice voices) as [v|] eqn:E; [|reflexivity].
    exact (proj2 (Hsome v eq_refl)).
Qed.

Lemma chosen_voice_is_english_witness :
  preferredVoice App.voices
  = Some {| name := "Microsoft Aria Online (Natural)"; lang := "en-US" |}.
Proof.
  exact (proj1 (proj2 (proj2 (chosen_voice_is_english App.voices))) _ eq_refl).
Defined.

End Voice.

(** ** The two ends of the control channel *)

Module Protocol.

Import VoiceAgentServer.

(** X23.  The two ends of the control channel agree.  Every message
    the server writes, in any run, is handed by the client to the
    listeners of the event named by its type, none is dropped, and an
    [error] arrives with the text the server gave it (never 'Unknown
    error'); and every message written by a method of the client
    falls in the case of the server's switch that is meant for it:
    [startConversation()] in [start_conversation],
    [stopConversation()] in [stop_conversation], [interrupt()] in
    [interrupt] and [sendAudioChunk(a)] in [audio_chunk] with data
    [a], whatever other fields the message carries. *)
Theorem both_ends_agree (env : Env) (es : list Event) (σ : t) (k : string)
    (m : ServerMessage) :
  In (ws_send k m) (trace (run env es σ)) ->
  VoiceAgentClient.handleMessage (type_of m) (error_of m)
  = Some {| VoiceAgentClient.event := type_of m; VoiceAgentClient.text := error_of m |}
  /\ (forall offer candidate,
        decode (VoiceAgentClient.type VoiceAgentClient.startConversation)
          (VoiceAgentClient.data VoiceAgentClient.startConversation) offer candidate
        = start_conversation
        /\ decode (VoiceAgentClient.type VoiceAgentClient.stopConversation)
             (VoiceAgentClient.data VoiceAgentClient.stopConversation) offer candidate
           = stop_conversation
        /\ decode (VoiceAgentClient.type VoiceAgentClient.interrupt)
             (VoiceAgentClient.data VoiceAgentClient.interrupt) offer candidate
           = interrupt
        /\ (forall a,
              decode (VoiceAgentClient.type (VoiceAgentClient.sendAudioChunk a))
                (VoiceAgentClient.data (VoiceAgentClient.sendAudioChunk a)) offer candidate
              = audio_chunk a)).
Proof.
  intros Hin. split.
  - pose proof (proj2 (Wording.worded_run env es σ I)) as Hall.
    rewrite List.Forall_forall in Hall. specialize (Hall _ Hin).
    destruct m; try reflexivity.
    cbn in Hall. unfold VoiceAgentClient.handleMessage. cbn.
    unfold JS.or_else. rewrite Hall. reflexivity.
  - intros offer candidate. repeat split.
Qed.

Lemma both_ends_agree_witness :
  VoiceAgentClient.handleMessage "error" (Some "Failed to start conversation")
  = Some {| VoiceAgentClient.event := "error";
            VoiceAgentClient.text := Some "Failed to start conversation" |}
  /\ decode "stop_conversation" None None None = stop_conversation.
Proof.
  assert (Hin : In (ws_send "s1" (error "Failed to start conversation"))
                  (trace (run Sample.env_without_key
                            [message "s1" (Some start_conversation)]
                            (Sample.server_with Sample.waiting))))
    by (vm_compute; left; reflexivity).
  destruct (both_ends_agree Sample.env_without_key
              [message "s1" (Some start_conversation)]
              (Sample.server_with Sample.waiting) "s1"
              (error "Failed to start conversation") Hin) as [Hclient Hserver].
  split; [exact Hclient|exact (proj1 (proj2 (Hserver None None)))].
Defined.

End Protocol.
